(** * Document-processing status tracking of the notebook front end

    A shallow embedding of the status-tracking code of the client:

    - [mapApiStatusToUIStatus]  (src/hooks/useDocumentQueries.ts)
    - [getProcessingProgress]   (src/utils/documentProcessingUtils.ts)
    - [DocumentService]         (services/documentService.ts): [getDocumentStatus],
      [calculateProgressPercentage], [createProgressWebSocket]
    - [pollAsyncJobStatus]      (src/hooks/useDocumentQueries.ts)
    - [usePolling]              (src/hooks/useApi.ts)
    - [usePDFUploaderContainer] (src/components/pdf/PDFUploaderContainer.tsx):
      [cleanup], [startStatusPolling], the processing effect and its callbacks.
    - [adaptDocumentStatus], [adaptApiDocumentToUI], [getErrorDisplayMessage]
                                (src/utils/typeAdapters.ts)
    - [updateDocumentStatus], [useDocumentWithStatus], [useDeleteDocumentMutation]
                                (src/hooks/useDocumentQueries.ts)
    - [handleApiError], [isRetryableError], [ApiException] (src/utils/apiError.ts)
    - [ApiClient.makeRequest]   (services/apiClient.ts)
    - [retry], [retryDelay]     (src/lib/queryClient.ts)
    - [useApi]                  (src/hooks/useApi.ts)
    - [DocumentService]: [uploadDocument], [uploadLargeDocument],
      [getAsyncProcessingStatus], [getCurrentProcessingJob], [cancelProcessingJob]
    - the [onSuccess] callback of the status hook of the uploader.
    - [useDocumentStatus] and [useDocumentUpload] (hooks/useApiHooks.ts), as
      the uploader mounts them: the effect of [usePolling] over [useApi]
      with the renders it causes, and the progress interval of an upload.

    Strings are Rocq strings (bytes); numbers that the code only copies or
    compares are integers; console output, toasts, cache calls, timers and
    network calls are recorded as explicit effect traces. *)

From Stdlib Require Import ZArith QArith String Ascii List Lia Bool.
From stdpp Require Import base option list gmap strings pretty.
From Equations Require Import Equations.
Import ListNotations.

Local Open Scope string_scope.
Local Open Scope Z_scope.
Local Open Scope list_scope.

(** ** JavaScript preliminaries *)

Module Js.

(** What a [throw] carries: an [Error] instance with its [message], or any
    other value ([error instanceof Error] is false for it). *)
Inductive Thrown :=
| ErrorInstance (message : string)
| NonError (description : string).

Inductive Outcome (A : Type) :=
| Returned (a : A)
| Threw (e : Thrown).
Arguments Returned {A} a.
Arguments Threw {A} e.

(** Console output, by level; the first argument is the literal label of
    the call, the second the printed value where the code passes one. *)
Inductive LogEntry :=
| ConsoleLog (text : string)
| ConsoleWarn (label : string) (value : string)
| ConsoleError (label : string).

(** A computation: the console lines it printed and how it completed. *)
Definition M (A : Type) : Type := list LogEntry * Outcome A.

Definition ret {A} (a : A) : M A := ([], Returned a).

Definition bind {A B} (m : M A) (k : A -> M B) : M B :=
  match m with
  | (l, Returned a) => let '(l', r) := k a in (l ++ l', r)
  | (l, Threw e) => (l, Threw e)
  end.

Definition throw {A} (e : Thrown) : M A := ([], Threw e).

Definition console (entry : LogEntry) : M unit := ([entry], Returned tt).

(** [try { body } catch (error) { handler }] *)
Definition try_catch {A} (body : M A) (handler : Thrown -> M A) : M A :=
  match body with
  | (l, Returned a) => (l, Returned a)
  | (l, Threw e) => let '(l', r) := handler e in (l ++ l', r)
  end.

(** A JavaScript value as far as the progress tables need it. *)
Inductive Value :=
| Number (n : Z)
| Undefined
| Object (name : string).

Definition truthy (v : Value) : bool :=
  match v with
  | Number n => negb (n =? 0)
  | Undefined => false
  | Object _ => true
  end.

(** [a || b] *)
Definition or (a b : Value) : Value := if truthy a then a else b.

(** [s || d] on a possibly absent string: the empty string is falsy. *)
Definition str_or (s : option string) (d : string) : string :=
  match s with
  | Some x => if String.eqb x "" then d else x
  | None => d
  end.

(** Truthiness of a possibly null string ([if (id)], [!id]). *)
Definition str_truthy (s : option string) : bool :=
  match s with
  | Some x => negb (String.eqb x "")
  | None => false
  end.

(** [String.prototype.toLowerCase] on the ASCII letters; every other byte
    is left as it is. *)
Definition lower_ascii (c : ascii) : ascii :=
  let n := N_of_ascii c in
  if ((65 <=? n) && (n <=? 90))%N then ascii_of_N (n + 32) else c.

Fixpoint toLowerCase (s : string) : string :=
  match s with
  | EmptyString => EmptyString
  | String c r => String (lower_ascii c) (toLowerCase r)
  end.

(** The properties every object literal inherits from [Object.prototype];
    a property read [obj[key]] that finds no own property finds these. *)
Definition object_prototype : list (string * Value) :=
  [ ("constructor", Object "Object");
    ("__proto__", Object "Object.prototype");
    ("hasOwnProperty", Object "hasOwnProperty");
    ("isPrototypeOf", Object "isPrototypeOf");
    ("propertyIsEnumerable", Object "propertyIsEnumerable");
    ("toLocaleString", Object "toLocaleString");
    ("toString", Object "toString");
    ("valueOf", Object "valueOf");
    ("__defineGetter__", Object "__defineGetter__");
    ("__defineSetter__", Object "__defineSetter__");
    ("__lookupGetter__", Object "__lookupGetter__");
    ("__lookupSetter__", Object "__lookupSetter__") ].

Definition inherited (key : string) : option Value :=
  (list_to_map object_prototype : gmap string Value) !! key.

(** [obj[key]] for an object literal with numeric own properties. *)
Definition get (own : gmap string Z) (key : string) : Value :=
  match own !! key with
  | Some n => Number n
  | None => default Undefined (inherited key)
  end.

End Js.

Notation "'let*' x ':=' m 'in' k" := (Js.bind m (fun x => k))
  (at level 10, x name, m at level 100, k at level 200).
Notation "'perform' m 'then' k" := (Js.bind m (fun _ => k))
  (at level 10, m at level 100, k at level 200).

(** ** The status mapper (src/hooks/useDocumentQueries.ts) *)

Inductive FrontendStatus := uploading | processing | ready | error.

#[global] Instance FrontendStatus_eq_dec : EqDecision FrontendStatus.
Proof. solve_decision. Defined.

Definition BACKEND_STATUSES : list string :=
  [ "uploaded"; "pending"; "processing"; "completed"; "error";
    "processed"; "chunking"; "vectorizing"; "indexing" ].

Definition FRONTEND_STATUSES : list string :=
  [ "uploading"; "processing"; "ready"; "error" ].

Definition includes (l : list string) (s : string) : bool :=
  existsb (String.eqb s) l.

Definition isBackendStatus (status : string) : bool :=
  includes BACKEND_STATUSES status.

Definition isFrontendStatus (status : string) : bool :=
  includes FRONTEND_STATUSES status.

(** The [switch] compares with [===], in the order of its [case] labels. *)
Definition mapApiStatusToUIStatus (status : string) : Js.M FrontendStatus :=
  if String.eqb status "uploaded" || String.eqb status "pending" then
    Js.ret uploading
  else if String.eqb status "processing" || String.eqb status "chunking"
          || String.eqb status "vectorizing" || String.eqb status "indexing" then
    Js.ret processing
  else if String.eqb status "completed" || String.eqb status "processed" then
    Js.ret ready
  else if String.eqb status "error" then
    Js.ret error
  else
    perform Js.console (Js.ConsoleWarn "Unhandled document status:" status) then
    Js.ret error.

(** The status a mapping run returns, when it returns. *)
Definition returned {A} (m : Js.M A) : option A :=
  match m with
  | (_, Js.Returned a) => Some a
  | (_, Js.Threw _) => None
  end.


(** The mapping table as the specification words it: the raw status is
    lower-cased, then looked up. *)
Definition mapStatus_spec (rawStatus : string) : FrontendStatus :=
  let s := Js.toLowerCase rawStatus in
  if bool_decide (s ∈ ["uploaded"; "pending"]) then uploading
  else if bool_decide (s ∈ ["processing"; "chunking"; "vectorizing"; "indexing"; "parsing"])
    then processing
  else if bool_decide (s ∈ ["processed"; "completed"; "ready"; "complete"]) then ready
  else error.

(** ** Stage progress (src/utils/documentProcessingUtils.ts) *)

(** The object literal [stageProgress], shared by [getProcessingProgress]
    and [DocumentService.calculateProgressPercentage]. *)
Definition stageProgress_entries : list (string * Z) :=
  [ ("upload_complete", 10);
    ("uploaded", 10);
    ("text_extraction", 20);
    ("parsing_started", 30);
    ("chunking", 50);
    ("vectorization", 70);
    ("indexing", 85);
    ("complete", 100);
    ("processed", 100);
    ("completed", 100);
    ("parsing_failed", 0);
    ("error", 0) ].

Definition stageProgress : gmap string Z := list_to_map stageProgress_entries.

(** [return stageProgress[stage.toLowerCase()] || 0] *)
Definition getProcessingProgress (stage : string) : Js.Value :=
  Js.or (Js.get stageProgress (Js.toLowerCase stage)) (Js.Number 0).

(** The percentages the table holds, with the fallback 0. *)
Definition progress_values : list Z := [0; 10; 20; 30; 50; 70; 85; 100].

(** ** DocumentService (services/documentService.ts) *)

Module DocumentService.

Record BackendDocumentResponse := {
  id : string;
  name : string;
  status : string;
  processing_stage : option string;
  page_count : option Z;
  metadata_chunk_count : option Z;
  processing_error : option string
}.

Record DocumentStatus := {
  ds_status : FrontendStatus;
  ds_processing_stage : option string;
  ds_page_count : option Z;
  ds_chunk_count : option Z;
  ds_processing_time_ms : option Z;
  ds_progress_percentage : Js.Value;
  ds_error_message : option string
}.

(** [calculateProgressPercentage(processing_stage?)]: an absent or empty
    stage gives 0 before the table is read. *)
Definition calculateProgressPercentage (processing_stage : option string) : Js.Value :=
  if negb (Js.str_truthy processing_stage) then Js.Number 0
  else Js.or (Js.get stageProgress (Js.toLowerCase (default "" processing_stage)))
             (Js.Number 0).

(** The [switch (response.status)] of [getDocumentStatus]: ['uploaded'],
    ['pending'] and [default] share one branch. *)
Definition frontendStatus_of (status : string) : FrontendStatus :=
  if String.eqb status "processed" || String.eqb status "completed" then ready
  else if String.eqb status "error" then error
  else if String.eqb status "processing" then processing
  else processing.

Definition errorMessage_of (e : Js.Thrown) : string :=
  match e with
  | Js.ErrorInstance message => message
  | Js.NonError _ => "Unknown error"
  end.

Section GetDocumentStatus.

(** The HTTP client and the endpoint table are collaborators outside
    this code: [apiClient.get] is any computation that resolves with a
    response or throws, [DOCUMENT_BY_ID] any function to a path. *)
Variable apiClient_get : string -> Js.M BackendDocumentResponse.
Variable DOCUMENT_BY_ID : string -> string.

Definition getDocumentStatus (documentId : string) : Js.M DocumentStatus :=
  Js.try_catch
    (let* response := apiClient_get (DOCUMENT_BY_ID documentId) in
     let stage := Js.str_or (processing_stage response) "uploaded" in
     let progressPercentage := calculateProgressPercentage (Some stage) in
     let frontendStatus := frontendStatus_of (status response) in
     perform Js.console (Js.ConsoleLog "Status mapping") then
     Js.ret {| ds_status := frontendStatus;
               ds_processing_stage := Some stage;
               ds_page_count := page_count response;
               ds_chunk_count := metadata_chunk_count response;
               ds_processing_time_ms := None;
               ds_progress_percentage := progressPercentage;
               ds_error_message := processing_error response |})
    (fun thrown =>
       perform Js.console (Js.ConsoleError "Error getting document status:") then
       Js.ret {| ds_status := error;
                 ds_processing_stage := None;
                 ds_page_count := None;
                 ds_chunk_count := None;
                 ds_processing_time_ms := None;
                 ds_progress_percentage := Js.Number 0;
                 ds_error_message := Some (errorMessage_of thrown) |}).

End GetDocumentStatus.

End DocumentService.

(** A document as the backend reports it, with a given status. *)
Definition backend_document (status : string) : DocumentService.BackendDocumentResponse :=
  {| DocumentService.id := "doc_1";
     DocumentService.name := "notes.pdf";
     DocumentService.status := status;
     DocumentService.processing_stage := Some "text_extraction";
     DocumentService.page_count := None;
     DocumentService.metadata_chunk_count := None;
     DocumentService.processing_error := None |}.

(** The status [getDocumentStatus] reports for a document with the given
    backend status. *)
Definition reported_status (status : string) : option FrontendStatus :=
  DocumentService.ds_status <$>
    returned (DocumentService.getDocumentStatus
                (fun _ => Js.ret (backend_document status)) (fun i => i) "doc_1").

(** ** Effects of the client code

    What the code does to its surroundings, in the order it does it: calls of
    the callbacks it was given, toasts, cache calls, HTTP requests, WebSocket
    and timer calls, console lines.  Handles of sockets, timers and requests
    are positive numbers, as the ids [setInterval] returns are. *)

(** The [status] of an [UploadProgress]: 'idle', 'uploading', 'processing',
    'complete' and 'error' (written [Failed], [error] being a status of the
    mapper). *)
Inductive UploadStatus := Idle | Uploading | Processing | Complete | Failed.

(** The fields of [ProcessingProgress] that the client reads. *)
Record ProcessingProgress := {
  completion_percentage : Z;
  current_stage : string;
  processed_pages : Z;
  total_pages : Z
}.

(** A progress message: a literal, or the template
    [`${current_stage} - ${processed_pages}/${total_pages} pages`]. *)
Inductive Message :=
| Text (s : string)
| StageMessage (current_stage : string) (processed_pages total_pages : Z).

Record UploadProgress := {
  percentage : Z;
  upload_status : UploadStatus;
  message : option Message
}.

(** The fields of [AsyncProcessingStatus] that the client reads. *)
Record AsyncProcessingStatus := {
  status : string;
  error_message : option string;
  progress : option ProcessingProgress
}.

(** The callbacks [createProgressWebSocket] was given. *)
Inductive ChannelCall :=
| OnProgress (p : ProcessingProgress)
| OnStatusChange (status : string)
| OnError (reason : string).

Inductive Effect :=
| OnUploadProgress (p : UploadProgress)
| OnDocumentUploaded (document_id : string)
| ToastSuccess (text : string)
| ToastError (text : string)
| SetDocumentStatus (documentId : string) (s : FrontendStatus)
| InvalidateQueries (queryKey : list string)
| PostProcessAsync (req : positive) (documentId : string)
| GetAsyncProcessingStatus (req : positive) (documentId jobId : string)
| UploadDocument
| ApiExecute
| NewWebSocket (ws : positive) (jobId : string)
| WsSend (ws : positive) (data : string)
| WsClose (ws : positive)
| SetInterval (timer : positive) (ms : Z)
| ClearInterval (timer : positive)
| SetTimeout (ms : Z)
| IntervalFired (timer : positive)
| ChannelCallback (call : ChannelCall)
| Console (entry : Js.LogEntry).

#[global] Instance LogEntry_eq_dec : EqDecision Js.LogEntry.
Proof. solve_decision. Defined.
#[global] Instance UploadStatus_eq_dec : EqDecision UploadStatus.
Proof. solve_decision. Defined.
#[global] Instance ProcessingProgress_eq_dec : EqDecision ProcessingProgress.
Proof. solve_decision. Defined.
#[global] Instance Message_eq_dec : EqDecision Message.
Proof. solve_decision. Defined.
#[global] Instance UploadProgress_eq_dec : EqDecision UploadProgress.
Proof. solve_decision. Defined.
#[global] Instance ChannelCall_eq_dec : EqDecision ChannelCall.
Proof. solve_decision. Defined.
#[global] Instance Effect_eq_dec : EqDecision Effect.
Proof. solve_decision. Defined.

Definition is_request (e : Effect) : bool :=
  match e with GetAsyncProcessingStatus _ _ _ => true | _ => false end.
Definition is_toast (e : Effect) : bool :=
  match e with ToastSuccess _ | ToastError _ => true | _ => false end.
Definition is_success (e : Effect) : bool :=
  match e with ToastSuccess _ => true | _ => false end.
Definition is_invalidation (e : Effect) : bool :=
  match e with InvalidateQueries _ => true | _ => false end.
Definition is_status_write (e : Effect) : bool :=
  match e with SetDocumentStatus _ _ => true | _ => false end.
Definition is_timer_call (e : Effect) : bool :=
  match e with SetInterval _ _ | ClearInterval _ | SetTimeout _ => true | _ => false end.

(** ** Job polling after upload (src/hooks/useDocumentQueries.ts) *)

Module JobPoller.

(** [queryKeys.documents] and [queryKeys.document(id)]. *)
Definition documents_key : list string := ["documents"].
Definition document_key (id : string) : list string := ["documents"; id].

(** How one status request settles, and after how many milliseconds. *)
Inductive Settled :=
| Resolved (jobStatus : AsyncProcessingStatus)
| Rejected.

Record Reply := { latency : Z; settled : Settled }.

Definition maxAttempts : nat := 150.

Definition completed_message : string := "Document processing completed successfully!".
Definition failed_message (jobStatus : AsyncProcessingStatus) : string :=
  String.append "Document processing failed: "
                (Js.str_or (error_message jobStatus) "Unknown error").
Definition timeout_message : string := "Document processing timed out - please try again".
Definition monitor_message : string := "Failed to monitor document processing".

(** What one run of [poll] does once its request has settled: the effects
    of the branch taken, and whether [setTimeout(poll, 2000)] was reached.
    [attempts] is the counter after [attempts++]. *)
Definition after_reply (documentId : string) (attempts : nat) (r : Settled)
  : list Effect * bool :=
  match r with
  | Resolved jobStatus =>
      if String.eqb (status jobStatus) "completed" then
        ([ Console (Js.ConsoleLog "Async processing completed successfully!");
           SetDocumentStatus documentId ready;
           InvalidateQueries documents_key;
           InvalidateQueries (document_key documentId);
           ToastSuccess completed_message ], false)
      else if String.eqb (status jobStatus) "failed" then
        ([ SetDocumentStatus documentId error;
           ToastError (failed_message jobStatus) ], false)
      else if (maxAttempts <=? attempts)%nat then
        ([ Console (Js.ConsoleWarn "Async job polling timeout - stopping polling but job may still be running" "");
           SetDocumentStatus documentId error;
           ToastError timeout_message ], false)
      else ([ SetTimeout 2000 ], true)
  | Rejected =>
      if (maxAttempts <=? attempts)%nat then
        ([ Console (Js.ConsoleError "Error polling async job status:");
           SetDocumentStatus documentId error;
           ToastError monitor_message ], false)
      else ([ Console (Js.ConsoleError "Error polling async job status:");
              SetTimeout 2000 ], true)
  end.

Lemma after_reply_continue documentId attempts r effs :
  after_reply documentId attempts r = (effs, true) -> (attempts < maxAttempts)%nat.
Proof.
  unfold after_reply. destruct r as [js|].
  - destruct (String.eqb (status js) "completed"); [discriminate|].
    destruct (String.eqb (status js) "failed"); [discriminate|].
    destruct (Nat.leb_spec maxAttempts attempts); [discriminate|]. intros _; lia.
  - destruct (Nat.leb_spec maxAttempts attempts); [discriminate|]. intros _; lia.
Qed.

(** Remember the equation when matching on a computed value. *)
Definition inspect {A} (a : A) : {b : A | a = b} := exist _ a eq_refl.

Definition stamp (t : Z) (effs : list Effect) : list (Z * Effect) :=
  map (pair t) effs.

Section Poll.

(** The server: the reply to the k-th status request (k from 1). *)
Variable server : nat -> Reply.
Variables documentId jobId : string.

(** The k-th call of [documentService.getAsyncProcessingStatus]. *)
Definition request (k : nat) : Effect :=
  GetAsyncProcessingStatus (Pos.of_nat k) documentId jobId.

(** [poll]: count the attempt, request the job status, act on the
    reply, and re-arm a 2000 ms timeout while the job is in progress and
    attempts remain.  Every effect carries the time at which it happens;
    the recursion is the timeout callback. *)
Equations? poll (attempts : nat) (now : Z) : list (Z * Effect)
  by wf (maxAttempts - attempts)%nat lt :=
  poll attempts now
    with inspect (after_reply documentId (S attempts) (settled (server (S attempts)))) := {
    | exist _ (effs, true) E =>
        let t := now + latency (server (S attempts)) in
        (now, request (S attempts)) :: stamp t effs
          ++ poll (S attempts) (t + 2000)
    | exist _ (effs, false) E =>
        let t := now + latency (server (S attempts)) in
        (now, request (S attempts)) :: stamp t effs }.
Proof. apply after_reply_continue in E. unfold maxAttempts in *. lia. Qed.

(** [pollAsyncJobStatus]: [attempts = 0], then the first [poll()] call. *)
Definition pollAsyncJobStatus (now : Z) : list (Z * Effect) := poll 0 now.

End Poll.

Definition effects (tr : list (Z * Effect)) : list Effect := map snd tr.

(** No terminal backend status was read from this reply. *)
Definition in_progress (r : Settled) : bool :=
  match r with
  | Resolved js => negb (String.eqb (status js) "completed")
                   && negb (String.eqb (status js) "failed")
  | Rejected => true
  end.

(** The message shown when the attempts are used up. *)
Definition bound_message (server : nat -> Reply) : string :=
  match settled (server maxAttempts) with
  | Resolved _ => timeout_message
  | Rejected => monitor_message
  end.

(** A job that stays in processing, and a job reported as failed. *)
Definition slow_server (k : nat) : Reply :=
  {| latency := 40;
     settled := Resolved {| status := "processing"; error_message := None;
                            progress := None |} |}.

Definition failing_server (k : nat) : Reply :=
  {| latency := 40;
     settled := Resolved {| status := "failed";
                            error_message := Some "OCR engine crashed";
                            progress := None |} |}.

(** The times at which status requests are issued. *)
Definition request_times (tr : list (Z * Effect)) : list Z :=
  map fst (List.filter (fun x => is_request (snd x)) tr).

(** The reply reads a completed job. *)
Definition completed (r : Settled) : bool :=
  match r with
  | Resolved js => String.eqb (status js) "completed"
  | Rejected => false
  end.

(** What a run does between its replies: the status requests, the
    re-arming of the timeout and the console. *)
Definition is_routine (e : Effect) : bool :=
  match e with
  | GetAsyncProcessingStatus _ _ _ | SetTimeout _ | Console _ => true
  | _ => false
  end.

(** The toast of the reply that ends a run. *)
Definition final_toast (r : Settled) : Effect :=
  match r with
  | Resolved js =>
      if String.eqb (status js) "completed" then ToastSuccess completed_message
      else if String.eqb (status js) "failed" then ToastError (failed_message js)
      else ToastError timeout_message
  | Rejected => ToastError monitor_message
  end.

(** A timetable: [n] requests, the first at [now], each further one 2000 ms
    after the reply to the one before it, which takes the latency of the
    server; [attempts] requests were made before. *)
Fixpoint schedule (server : nat -> Reply) (attempts : nat) (now : Z) (n : nat) : list Z :=
  match n with
  | O => []
  | S n' =>
      now :: schedule server (S attempts) (now + latency (server (S attempts)) + 2000) n'
  end.

(** A job that stays in processing while the last request allowed is
    rejected, and a job that completes at the third request. *)
Definition rejecting_server (k : nat) : Reply :=
  if (k =? maxAttempts)%nat then {| latency := 40; settled := Rejected |}
  else slow_server k.

Definition completing_server (k : nat) : Reply :=
  if (k <? 3)%nat then slow_server k
  else {| latency := 40;
          settled := Resolved {| status := "completed"; error_message := None;
                                 progress := None |} |}.

End JobPoller.

(** ** The status query (src/hooks/useDocumentQueries.ts) *)

(** The string a [FrontendStatus] is in the code. *)
Definition FrontendStatus_name (s : FrontendStatus) : string :=
  match s with
  | uploading => "uploading"
  | processing => "processing"
  | ready => "ready"
  | error => "error"
  end.

Definition processingStates : list string :=
  [ "uploaded"; "pending"; "processing"; "chunking"; "vectorizing"; "indexing" ].

Definition terminalStates : list string :=
  [ "ready"; "completed"; "processed"; "error"; "failed" ].

(** [refetchInterval] of [useDocumentStatusQuery], on the [status] of the
    data of the query: the interval to poll again after ([None] for
    [false]), and the effects; the two invalidations are those of the
    100 ms timeout callback. *)
Definition refetchInterval (id : string) (data_status : option string)
  : option Z * list Effect :=
  if negb (Js.str_truthy data_status) then
    (None, [Console (Js.ConsoleLog "No status data, stopping polling")])
  else
    let st := default "" data_status in
    if includes processingStates st then
      (Some 2000, [Console (Js.ConsoleLog "Polling document status")])
    else if includes terminalStates st then
      (None,
       [ Console (Js.ConsoleLog "Stopping polling for terminal status");
         SetTimeout 100;
         InvalidateQueries JobPoller.documents_key;
         InvalidateQueries (JobPoller.document_key id) ]
       ++ (if includes ["processed"; "completed"; "ready"] st
           then [ToastSuccess "Document processing completed!"] else []))
    else
      (None, [Console (Js.ConsoleLog "Unknown status, stopping polling to prevent infinite loop")]).

(** ** Polling hook (src/hooks/useApi.ts) *)

(** The effect of [usePolling]: when [enabled], the initial fetch and then
    [startPolling], which clears a timer left in [intervalRef] and sets the
    interval; otherwise [stopPolling].  [timer] is the id [setInterval]
    returns.  The result is the effects and the new [intervalRef]. *)
Definition startPolling (intervalRef : option positive) (timer : positive) (interval : Z)
  : list Effect * option positive :=
  (match intervalRef with Some t => [ClearInterval t] | None => [] end
     ++ [SetInterval timer interval],
   Some timer).

Definition stopPolling (intervalRef : option positive) : list Effect * option positive :=
  match intervalRef with
  | Some t => ([ClearInterval t], None)
  | None => ([], None)
  end.

Definition usePolling_effect (enabled : bool) (intervalRef : option positive)
  (timer : positive) (interval : Z) : list Effect * option positive :=
  if enabled then
    let '(effs, ref) := startPolling intervalRef timer interval in
    (ApiExecute :: effs, ref)
  else stopPolling intervalRef.

(** ** The uploader container (src/components/pdf/PDFUploaderContainer.tsx)
       and the progress channel ([DocumentService.createProgressWebSocket])

    The job tracking of the component is event driven, so it is modelled as
    a transition system: a [World] holds the two state variables and the
    two refs of the hook together with the browser objects the job tracking
    creates (sockets, the interval timers of the fallback poller and of the
    ping, requests in flight), and [step] runs the handler the browser
    calls for an [Event] and then, of the render that follows, the
    processing effect.  Time advances by [Tick] events of one millisecond.
    [onUploadProgress] is optional in the source; its calls are recorded as
    if it was given.

    The two hooks the component mounts, [useDocumentStatus] and
    [useDocumentUpload], keep their own state and timers and are modelled
    on their own, in [StatusPolling] and [DocumentUpload] below.  In the
    running component their calls are interleaved with the effects
    recorded here: a render that [step] follows also runs the effect of
    the status hook, which clears and sets the interval of that hook and
    requests the document status.  The trace of [step] holds the effects
    of the job tracking only, and [timers] the timers of the job tracking
    only. *)

Module Uploader.

Inductive ReadyState := CONNECTING | OPEN | CLOSING | CLOSED.

(** A [WebSocket] object with what the closures of its handlers captured:
    [job.job_id] and the [uploadedDocumentId] of the render that ran the
    effect. *)
Record Socket := {
  ws_jobId : string;
  ws_documentId : string;
  readyState : ReadyState;
  closeEventFired : bool
}.

(** The two interval callbacks of the job tracking. *)
Inductive TimerCallback :=
| PollStatus (jobId documentId : string)
| SendPing (ws : positive).

Record Timer := { callback : TimerCallback; period : Z; due : Z }.

(** The component (two state variables, two refs) and the browser around it:
    sockets, the interval timers of the job tracking in creation order (the
    intervals of the two hooks are not among them), requests in flight with
    what their continuations captured, the next handle and the clock (ms). *)
Record World := {
  uploadedDocumentId : option string;
  currentJobId : option string;
  wsRef : option positive;
  pollIntervalRef : option positive;
  sockets : gmap positive Socket;
  timers : list (positive * Timer);
  starting : gmap positive string;
  polling : gmap positive (string * string);
  fresh : positive;
  now : Z
}.

Definition set_uploadedDocumentId (v : option string) (w : World) : World :=
  let 'Build_World _ b c d e f g h i j := w in Build_World v b c d e f g h i j.
Definition set_currentJobId (v : option string) (w : World) : World :=
  let 'Build_World a _ c d e f g h i j := w in Build_World a v c d e f g h i j.
Definition set_wsRef (v : option positive) (w : World) : World :=
  let 'Build_World a b _ d e f g h i j := w in Build_World a b v d e f g h i j.
Definition set_pollIntervalRef (v : option positive) (w : World) : World :=
  let 'Build_World a b c _ e f g h i j := w in Build_World a b c v e f g h i j.
Definition set_sockets (v : gmap positive Socket) (w : World) : World :=
  let 'Build_World a b c d _ f g h i j := w in Build_World a b c d v f g h i j.
Definition set_timers (v : list (positive * Timer)) (w : World) : World :=
  let 'Build_World a b c d e _ g h i j := w in Build_World a b c d e v g h i j.
Definition set_starting (v : gmap positive string) (w : World) : World :=
  let 'Build_World a b c d e f _ h i j := w in Build_World a b c d e f v h i j.
Definition set_polling (v : gmap positive (string * string)) (w : World) : World :=
  let 'Build_World a b c d e f g _ i j := w in Build_World a b c d e f g v i j.
Definition set_fresh (v : positive) (w : World) : World :=
  let 'Build_World a b c d e f g h _ j := w in Build_World a b c d e f g h v j.
Definition set_now (v : Z) (w : World) : World :=
  let 'Build_World a b c d e f g h i _ := w in Build_World a b c d e f g h i v.

Definition initial : World :=
  {| uploadedDocumentId := None; currentJobId := None;
     wsRef := None; pollIntervalRef := None;
     sockets := ∅; timers := []; starting := ∅; polling := ∅;
     fresh := 1%positive; now := 0 |}.

(** *** Statements *)

Definition Handler : Type := World -> World * list Effect.

Definition skip : Handler := fun w => (w, []).
Definition emit (e : Effect) : Handler := fun w => (w, [e]).
Definition update (f : World -> World) : Handler := fun w => (f w, []).
Definition read {A} (f : World -> A) (k : A -> Handler) : Handler := fun w => k (f w) w.

(** A statement list. *)
Fixpoint block (hs : list Handler) : Handler :=
  fun w =>
    match hs with
    | [] => (w, [])
    | h :: rest =>
        let '(w1, e1) := h w in
        let '(w2, e2) := block rest w1 in
        (w2, e1 ++ e2)
    end.

(** A new handle. *)
Definition alloc (k : positive -> Handler) : Handler :=
  fun w => k (fresh w) (set_fresh (Pos.succ (fresh w)) w).

(** *** Browser calls *)

Definition closing (s : Socket) : Socket :=
  match readyState s with
  | CONNECTING | OPEN =>
      {| ws_jobId := ws_jobId s; ws_documentId := ws_documentId s;
         readyState := CLOSING; closeEventFired := closeEventFired s |}
  | CLOSING | CLOSED => s
  end.

(** [ws.close()] *)
Definition ws_close (h : positive) : Handler :=
  block [ emit (WsClose h);
          update (fun w => set_sockets (alter closing h (sockets w)) w) ].

(** [clearInterval(t)] *)
Definition clearInterval (t : positive) : Handler :=
  block [ emit (ClearInterval t);
          update (fun w =>
            set_timers (List.filter (fun x => negb (Pos.eqb (fst x) t)) (timers w)) w) ].

(** [setInterval(cb, ms)]: the first call of [cb] is due [ms] from now. *)
Definition setInterval (cb : TimerCallback) (ms : Z) (k : positive -> Handler) : Handler :=
  alloc (fun id =>
    block [ update (fun w =>
              set_timers (timers w ++ [(id, {| callback := cb; period := ms;
                                                due := now w + ms |})]) w);
            emit (SetInterval id ms);
            k id ]).

(** *** The component *)

(** [cleanup]: close the socket in [wsRef], clear the timer in
    [pollIntervalRef], reset both refs. *)
Definition cleanup : Handler :=
  block [ read wsRef (fun r =>
            match r with
            | Some h => block [ ws_close h; update (set_wsRef None) ]
            | None => skip
            end);
          read pollIntervalRef (fun r =>
            match r with
            | Some t => block [ clearInterval t; update (set_pollIntervalRef None) ]
            | None => skip
            end) ].

(** [startStatusPolling(jobId, documentId)] *)
Definition startStatusPolling (jobId documentId : string) : Handler :=
  block [ emit (Console (Js.ConsoleLog "Starting status polling as WebSocket fallback"));
          setInterval (PollStatus jobId documentId) 3000
            (fun id => update (set_pollIntervalRef (Some id))) ].

Definition completedProgress : UploadProgress :=
  {| percentage := 100; upload_status := Complete;
     message := Some (Text "Processing completed successfully!") |}.

Definition failedProgress (text : string) : UploadProgress :=
  {| percentage := 0; upload_status := Failed; message := Some (Text text) |}.

Definition progressUpdate (p : ProcessingProgress) : UploadProgress :=
  {| percentage := completion_percentage p; upload_status := Processing;
     message := Some (StageMessage (current_stage p) (processed_pages p) (total_pages p)) |}.

(** The branch both sources take on completed. *)
Definition onCompleted : Handler :=
  block [ emit (OnUploadProgress completedProgress);
          emit (ToastSuccess "Document processed successfully!");
          cleanup;
          update (set_currentJobId None) ].

(** The branch both sources take on failed, with the texts of the source. *)
Definition onFailed (progressText toastText : string) : Handler :=
  block [ emit (OnUploadProgress (failedProgress progressText));
          emit (ToastError toastText);
          cleanup;
          update (set_currentJobId None) ].

(** The interval callback of [startStatusPolling], up to its [await]. *)
Definition pollTick (jobId documentId : string) : Handler :=
  alloc (fun req =>
    block [ update (fun w => set_polling (<[req := (documentId, jobId)]> (polling w)) w);
            emit (GetAsyncProcessingStatus req documentId jobId) ]).

(** The interval callback of [startStatusPolling], after its [await]. *)
Definition pollResolved (st : AsyncProcessingStatus) : Handler :=
  block [ match progress st with
          | Some p => emit (OnUploadProgress (progressUpdate p))
          | None => skip
          end;
          if String.eqb (status st) "completed" then onCompleted
          else if String.eqb (status st) "failed" then
            onFailed (Js.str_or (error_message st) "Processing failed")
                     (Js.str_or (error_message st) "Document processing failed")
          else skip ].

Definition pollRejected : Handler :=
  emit (Console (Js.ConsoleError "Error polling status:")).

(** The three callbacks handed to [createProgressWebSocket]. *)
Definition onProgress (p : ProcessingProgress) : Handler :=
  block [ emit (Console (Js.ConsoleLog "Progress update:"));
          emit (OnUploadProgress (progressUpdate p)) ].

Definition onStatusChange (st : string) : Handler :=
  block [ emit (Console (Js.ConsoleLog "Status change:"));
          if String.eqb st "completed" then onCompleted
          else if String.eqb st "failed" then
            onFailed "Processing failed" "Document processing failed"
          else skip ].

Definition onError (jobId documentId : string) : Handler :=
  block [ emit (Console (Js.ConsoleError "WebSocket error:"));
          startStatusPolling jobId documentId ].

(** *** [createProgressWebSocket] *)

(** What [JSON.parse(event.data)] gives: an exception, or an object of which
    the handler reads [type], [progress] and [status]. *)
Inductive WsData :=
| Unparsable
| Json (type : string) (progress : option ProcessingProgress) (status : string).

(** [new WebSocket(wsUrl)] with the four handlers attached; the handle is
    what the function returns. *)
Definition createProgressWebSocket (jobId documentId : string)
  (k : positive -> Handler) : Handler :=
  block [ emit (Console (Js.ConsoleLog "Creating WebSocket connection:"));
          alloc (fun h =>
            block [ update (fun w =>
                      set_sockets (<[h := {| ws_jobId := jobId; ws_documentId := documentId;
                                             readyState := CONNECTING;
                                             closeEventFired := false |}]> (sockets w)) w);
                    emit (NewWebSocket h jobId);
                    k h ]) ].

(** A call of one of the three callbacks, as the channel makes it. *)
Definition call (jobId documentId : string) (c : ChannelCall) : Handler :=
  block [ emit (ChannelCallback c);
          match c with
          | OnProgress p => onProgress p
          | OnStatusChange st => onStatusChange st
          | OnError _ => onError jobId documentId
          end ].

Definition set_readyState (h : positive) (r : ReadyState) (fired : bool) : Handler :=
  update (fun w =>
    set_sockets (alter (fun s => {| ws_jobId := ws_jobId s; ws_documentId := ws_documentId s;
                                    readyState := r;
                                    closeEventFired := fired || closeEventFired s |})
                       h (sockets w)) w).

(** [ws.onopen]: the ping interval; its id is not kept. *)
Definition ws_onopen (h : positive) : Handler :=
  block [ emit (Console (Js.ConsoleLog "WebSocket connected for job:"));
          setInterval (SendPing h) 30000 (fun _ => skip) ].

(** The ping callback. *)
Definition pingTick (h : positive) : Handler :=
  read (fun w => sockets w !! h) (fun s =>
    match s with
    | Some s => match readyState s with OPEN => emit (WsSend h "ping") | _ => skip end
    | None => skip
    end).

(** [ws.onmessage] *)
Definition ws_onmessage (s : Socket) (data : WsData) : Handler :=
  match data with
  | Unparsable => emit (Console (Js.ConsoleError "Error parsing WebSocket message:"))
  | Json type progress st =>
      if String.eqb type "progress_update" && bool_decide (is_Some progress) then
        match progress with
        | Some p => call (ws_jobId s) (ws_documentId s) (OnProgress p)
        | None => skip
        end
      else if String.eqb type "job_status" then
        call (ws_jobId s) (ws_documentId s) (OnStatusChange st)
      else skip
  end.

(** [ws.onerror] *)
Definition ws_onerror (s : Socket) : Handler :=
  block [ emit (Console (Js.ConsoleError "WebSocket error:"));
          call (ws_jobId s) (ws_documentId s) (OnError "WebSocket connection error") ].

(** [ws.onclose] *)
Definition ws_onclose (s : Socket) (code : Z) : Handler :=
  block [ emit (Console (Js.ConsoleLog "WebSocket closed:"));
          if negb (code =? 1000) then
            call (ws_jobId s) (ws_documentId s)
                 (OnError "WebSocket connection closed unexpectedly")
          else skip ].

(** *** The processing effect *)

(** [startAsyncProcessing], up to its [await]. *)
Definition startAsyncProcessing (documentId : string) : Handler :=
  block [ emit (Console (Js.ConsoleLog "Starting async processing for uploaded document:"));
          alloc (fun req =>
            block [ update (fun w => set_starting (<[req := documentId]> (starting w)) w);
                    emit (PostProcessAsync req documentId) ]) ].

(** [startAsyncProcessing], after its [await] resolved with [job]. *)
Definition startResolved (documentId job_id : string) : Handler :=
  block [ update (set_currentJobId (Some job_id));
          emit (OnUploadProgress
                  {| percentage := 5; upload_status := Processing;
                     message := Some (Text "Processing started in background...") |});
          createProgressWebSocket job_id documentId
            (fun h => update (set_wsRef (Some h))) ].

(** The [catch] of [startAsyncProcessing]. *)
Definition startRejected : Handler :=
  block [ emit (Console (Js.ConsoleError "Failed to start async processing:"));
          emit (ToastError "Failed to start document processing");
          emit (OnUploadProgress (failedProgress "Failed to start processing")) ].

(** The body of the effect: [if (uploadedDocumentId && !currentJobId)]. *)
Definition processingEffect : Handler :=
  read (fun w => (uploadedDocumentId w, currentJobId w)) (fun '(d, j) =>
    if Js.str_truthy d && negb (Js.str_truthy j)
    then startAsyncProcessing (default "" d)
    else skip).

(** The state variables among the dependencies of the effect; the callbacks
    among them are taken to keep their identity between renders. *)
Definition deps (w : World) : option string * option string :=
  (uploadedDocumentId w, currentJobId w).

(** React runs the processing effect after a render in which a dependency
    changed.  (The effect of the status hook, which runs after every
    render, is [StatusPolling.effect].) *)
Definition render (before : World) : Handler :=
  fun w => if bool_decide (deps w = deps before) then skip w else processingEffect w.

(** *** Upload *)

Definition handleFileUpload (isPdf : bool) : Handler :=
  if negb isPdf then emit (ToastError "Please upload a PDF file")
  else block [ emit (OnUploadProgress
                       {| percentage := 0; upload_status := Uploading;
                          message := Some (Text "Starting upload...") |});
               emit UploadDocument ].

(** [onSuccess] of the upload hook. *)
Definition uploadSucceeded (document_id : string) : Handler :=
  block [ update (set_uploadedDocumentId (Some document_id));
          emit (ToastSuccess "Document uploaded successfully!");
          emit (OnDocumentUploaded document_id);
          update (set_uploadedDocumentId (Some document_id)) ].

(** *** Events *)

Inductive Event :=
| FileChosen (isPdf : bool)
| UploadSucceeded (document_id : string)
| StartResolved (req : positive) (job_id : string)
| StartRejected (req : positive)
| WsOpened (ws : positive)
| WsMessage (ws : positive) (data : WsData)
| WsErrored (ws : positive)
| WsClosed (ws : positive) (code : Z)
| PollResolved (req : positive) (st : AsyncProcessingStatus)
| PollRejected (req : positive)
| Tick
| Unmount.

(** One millisecond passes: the timers that are due fire in creation order
    and are re-armed one period later. *)
Definition fire (x : positive * Timer) : Handler :=
  block [ emit (IntervalFired (fst x));
          match callback (snd x) with
          | PollStatus jobId documentId => pollTick jobId documentId
          | SendPing h => pingTick h
          end ].

Definition rearm (t : Z) (x : positive * Timer) : positive * Timer :=
  if due (snd x) =? t
  then (fst x, {| callback := callback (snd x); period := period (snd x);
                  due := t + period (snd x) |})
  else x.

Definition tick : Handler :=
  fun w =>
    let t := now w + 1 in
    let due_now := List.filter (fun x => due (snd x) =? t) (timers w) in
    block (map fire due_now) (set_timers (map (rearm t) (timers w)) (set_now t w)).

(** The browser delivers an event of a socket only in the states in which
    it can occur; a reply only to a request in flight. *)
Definition handle (ev : Event) : Handler :=
  match ev with
  | FileChosen isPdf => handleFileUpload isPdf
  | UploadSucceeded document_id => uploadSucceeded document_id
  | StartResolved req job_id =>
      read (fun w => starting w !! req) (fun d =>
        match d with
        | Some documentId =>
            block [ update (fun w => set_starting (delete req (starting w)) w);
                    startResolved documentId job_id ]
        | None => skip
        end)
  | StartRejected req =>
      read (fun w => starting w !! req) (fun d =>
        match d with
        | Some _ =>
            block [ update (fun w => set_starting (delete req (starting w)) w);
                    startRejected ]
        | None => skip
        end)
  | WsOpened h =>
      read (fun w => sockets w !! h) (fun s =>
        match s with
        | Some s =>
            match readyState s with
            | CONNECTING => block [ set_readyState h OPEN false; ws_onopen h ]
            | _ => skip
            end
        | None => skip
        end)
  | WsMessage h data =>
      read (fun w => sockets w !! h) (fun s =>
        match s with
        | Some s =>
            match readyState s with
            | OPEN => ws_onmessage s data
            | _ => skip
            end
        | None => skip
        end)
  | WsErrored h =>
      read (fun w => sockets w !! h) (fun s =>
        match s with
        | Some s =>
            if closeEventFired s then skip
            else block [ set_readyState h CLOSED false; ws_onerror s ]
        | None => skip
        end)
  | WsClosed h code =>
      read (fun w => sockets w !! h) (fun s =>
        match s with
        | Some s =>
            if closeEventFired s then skip
            else block [ set_readyState h CLOSED true; ws_onclose s code ]
        | None => skip
        end)
  | PollResolved req st =>
      read (fun w => polling w !! req) (fun r =>
        match r with
        | Some _ =>
            block [ update (fun w => set_polling (delete req (polling w)) w);
                    pollResolved st ]
        | None => skip
        end)
  | PollRejected req =>
      read (fun w => polling w !! req) (fun r =>
        match r with
        | Some _ =>
            block [ update (fun w => set_polling (delete req (polling w)) w);
                    pollRejected ]
        | None => skip
        end)
  | Tick => tick
  | Unmount => cleanup
  end.

(** An event is handled, then React renders. *)
Definition step (w : World) (ev : Event) : World * list Effect :=
  block [ handle ev; render w ] w.

Fixpoint run (w : World) (evs : list Event) : World * list Effect :=
  match evs with
  | [] => (w, [])
  | ev :: rest =>
      let '(w1, e1) := step w ev in
      let '(w2, e2) := run w1 rest in
      (w2, e1 ++ e2)
  end.

(** [n] milliseconds pass and nothing else happens. *)
Definition elapse (n : nat) (w : World) : World * list Effect :=
  run w (repeat Tick n).

(** *** Observations *)

(** A progress notification that reports a job as finished. *)
Definition is_terminal_notification (e : Effect) : bool :=
  match e with
  | OnUploadProgress p =>
      match upload_status p with Complete | Failed => true | _ => false end
  | _ => false
  end.

Definition is_onError (e : Effect) : bool :=
  match e with ChannelCallback (OnError _) => true | _ => false end.

Definition is_ping (e : Effect) : bool :=
  match e with WsSend _ _ => true | _ => false end.

Definition is_teardown (e : Effect) : bool :=
  match e with WsClose _ | ClearInterval _ => true | _ => false end.

Definition is_start (e : Effect) : bool :=
  match e with PostProcessAsync _ _ | NewWebSocket _ _ => true | _ => false end.

Definition is_close (e : Effect) : bool :=
  match e with WsClose _ => true | _ => false end.

(** [clearInterval] calls for one timer. *)
Definition clears (t : positive) (e : Effect) : bool :=
  match e with ClearInterval t' => Pos.eqb t' t | _ => false end.

(** What [cleanup] closes and clears, given the two refs. *)
Definition teardown_of (ws poll : option positive) : list Effect :=
  match ws with Some h => [WsClose h] | None => [] end
  ++ match poll with Some t => [ClearInterval t] | None => [] end.

(** A terminal status report that the component handles in world [w]: a
    job_status message on an open socket, or the reply to a status request
    in flight, with status completed or failed. *)
Definition terminal_status (st : string) : bool :=
  String.eqb st "completed" || String.eqb st "failed".

Definition terminal_report (w : World) (ev : Event) : bool :=
  match ev with
  | WsMessage h (Json type _ st) =>
      match sockets w !! h with
      | Some s =>
          match readyState s with
          | OPEN => String.eqb type "job_status" && terminal_status st
          | _ => false
          end
      | None => false
      end
  | PollResolved req st =>
      bool_decide (is_Some (polling w !! req)) && terminal_status (status st)
  | _ => false
  end.

(** The events on which the channel calls [onError]. *)
Definition transport_failure (ev : Event) : bool :=
  match ev with
  | WsErrored _ => true
  | WsClosed _ code => negb (code =? 1000)
  | _ => false
  end.

(** The events whose handlers can reach [cleanup]. *)
Definition teardown_source (ev : Event) : bool :=
  match ev with
  | WsMessage _ _ | PollResolved _ _ | Unmount => true
  | _ => false
  end.

(** Firings of one interval timer. *)
Definition is_fired (id : positive) (e : Effect) : bool :=
  match e with IntervalFired t => Pos.eqb t id | _ => false end.

(** Timer ids are unique and below the next handle. *)
Definition well_formed (w : World) : Prop :=
  NoDup (map fst (timers w)) /\
  forall x, In x (timers w) -> (fst x < fresh w)%positive.

(** *** Properties of handlers *)

(** Every effect of the handler, in every world, satisfies [P]. *)
Definition emits (P : Effect -> Prop) (h : Handler) : Prop :=
  forall w, Forall P (snd (h w)).

(** The branch taken on a terminal status: one notification, one toast,
    teardown of what the refs hold, reset of the job id. *)
Definition finishes (h : Handler) : Prop :=
  forall w,
    length (List.filter is_terminal_notification (snd (h w))) = 1%nat /\
    length (List.filter is_toast (snd (h w))) = 1%nat /\
    wsRef (fst (h w)) = None /\ pollIntervalRef (fst (h w)) = None /\
    currentJobId (fst (h w)) = None.

(** The teardown in that branch: the socket in [wsRef] is closed and the
    timer in [pollIntervalRef] cleared and removed, and nothing else is
    closed or cleared. *)
Definition tears_down (h : Handler) : Prop :=
  forall w,
    List.filter is_teardown (snd (h w)) = teardown_of (wsRef w) (pollIntervalRef w) /\
    sockets (fst (h w)) =
      match wsRef w with
      | Some x => alter closing x (sockets w)
      | None => sockets w
      end /\
    timers (fst (h w)) =
      match pollIntervalRef w with
      | Some t => List.filter (fun x => negb (Pos.eqb (fst x) t)) (timers w)
      | None => timers w
      end.

(** The handler takes well-formed worlds to well-formed worlds. *)
Definition keeps (h : Handler) : Prop :=
  forall w, well_formed w -> well_formed (fst (h w)).

(** *** Scenarios *)

(** Upload of doc_1, job_1 started, channel open. *)
Definition streaming : list Event :=
  [ UploadSucceeded "doc_1"; StartResolved 1 "job_1"; WsOpened 2 ].

Definition completed_status : AsyncProcessingStatus :=
  {| status := "completed"; error_message := None; progress := None |}.

(** The channel reports completed; the close event that follows the
    [ws.close()] of the teardown carries no status code (1005), so the
    fallback poller starts, and three seconds later its first request is
    answered with completed. *)
Definition race : list Event :=
  streaming
    ++ [ WsMessage 2 (Json "job_status" None "completed"); WsClosed 2 1005 ]
    ++ repeat Tick 3000
    ++ [ PollResolved 6 completed_status ].

(** The server goes away (close code 1001): the fallback poller runs. *)
Definition fallback : list Event := streaming ++ [ WsClosed 2 1001 ].

(** The connection breaks (error event, then close event with code 1006), so
    the fallback poller is started twice and the first timer is no longer in
    [pollIntervalRef]; doc_2 is uploaded while job_1 is polled; job_1
    completes, the effect starts processing doc_2, and job_2 is tracked. *)
Definition orphaned : list Event :=
  streaming
    ++ [ WsErrored 2; WsClosed 2 1006; UploadSucceeded "doc_2" ]
    ++ repeat Tick 3000
    ++ [ PollResolved 6 completed_status; PollRejected 7; StartResolved 8 "job_2" ].

(** The fallback poller with slow replies: the second request is issued
    before the first is answered, and both are answered with completed. *)
Definition overlap : list Event :=
  fallback
    ++ repeat Tick 3000 ++ repeat Tick 3000
    ++ [ PollResolved 5 completed_status; PollResolved 6 completed_status ].

End Uploader.

(** ** Type adapters (src/utils/typeAdapters.ts) *)

Module TypeAdapters.

(** [s.includes(sub)] on strings. *)
Fixpoint str_includes (s sub : string) : bool :=
  String.prefix sub s
  || match s with
     | EmptyString => false
     | String _ rest => str_includes rest sub
     end.

(** [adaptDocumentStatus]: the status is lower-cased and looked up in three
    lists; a status with error or fail in it, and every other status, is an
    error, the latter with a warning. *)
Definition adaptDocumentStatus (apiStatus : string) : Js.M FrontendStatus :=
  perform Js.console (Js.ConsoleLog "Adapting document status from backend:") then
  let status := Js.toLowerCase apiStatus in
  if includes ["pending"; "uploaded"; "uploading"] status then
    perform Js.console (Js.ConsoleLog "Status mapped to: uploading") then
    Js.ret uploading
  else if includes ["processing"; "chunking"; "vectorizing"; "indexing"; "parsing"] status then
    perform Js.console (Js.ConsoleLog "Status mapped to: processing") then
    Js.ret processing
  else if includes ["processed"; "completed"; "ready"; "complete"] status then
    perform Js.console (Js.ConsoleLog "Status mapped to: ready") then
    Js.ret ready
  else if str_includes status "error" || str_includes status "fail" then
    perform Js.console (Js.ConsoleLog "Status mapped to: error") then
    Js.ret error
  else
    perform Js.console (Js.ConsoleWarn "Unknown status, defaulting to error:" apiStatus) then
    Js.ret error.

(** The fields of an API document that the adapter reads; [document_id] and
    [id] may be absent or empty at run time. *)
Record ApiDocument := {
  document_id : option string;
  id : option string;
  filename : string;
  file_size : Z;
  upload_date : option string;
  created_at : option string;
  status : string;
  page_count : option Z
}.

(** A UI document; [uploadedAt] is the date string the [Date] was built
    from, [None] standing for the time of the call ([new Date()]). *)
Record UIDocument := {
  ui_id : string;
  ui_name : string;
  ui_size : Z;
  ui_uploadedAt : option string;
  ui_status : FrontendStatus;
  ui_totalPages : option Z;
  ui_url : string
}.

(** [a || b] on two possibly absent strings. *)
Definition first_truthy (a b : option string) : option string :=
  if Js.str_truthy a then a else b.

Section Adapt.

(** [import.meta.env.VITE_API_BASE_URL || "http://localhost:8000/api/v1"]. *)
Variable baseUrl : string.

Definition adaptApiDocumentToUI (apiDocument : ApiDocument) : Js.M UIDocument :=
  let documentId := first_truthy (document_id apiDocument) (id apiDocument) in
  if negb (Js.str_truthy documentId) then
    Js.throw (Js.ErrorInstance "Document ID is missing from API response")
  else
    let documentId := default "" documentId in
    let pdfUrl := String.append baseUrl
                    (String.append "/documents/" (String.append documentId "/download")) in
    let dateString := first_truthy (upload_date apiDocument) (created_at apiDocument) in
    let uploadDate := if Js.str_truthy dateString then dateString else None in
    perform Js.console (Js.ConsoleLog "Adapting API document:") then
    let* st := adaptDocumentStatus (status apiDocument) in
    Js.ret {| ui_id := documentId;
              ui_name := filename apiDocument;
              ui_size := file_size apiDocument;
              ui_uploadedAt := uploadDate;
              ui_status := st;
              ui_totalPages := page_count apiDocument;
              ui_url := pdfUrl |}.

(** [documents.map(adaptApiDocumentToUI)]: the elements in order; the first
    exception ends the map. *)
Fixpoint adaptAll (documents : list ApiDocument) : Js.M (list UIDocument) :=
  match documents with
  | [] => Js.ret []
  | d :: rest =>
      let* u := adaptApiDocumentToUI d in
      let* us := adaptAll rest in
      Js.ret (u :: us)
  end.

(** The [queryFn] of [useDocumentsQuery], given what [getDocuments] does. *)
Definition documentsQueryFn (getDocuments : Js.M (list ApiDocument)) : Js.M (list UIDocument) :=
  let* documents := getDocuments in
  adaptAll documents.

End Adapt.

Definition has_id (d : ApiDocument) : bool :=
  Js.str_truthy (first_truthy (document_id d) (id d)).

End TypeAdapters.

(** ** The document cache and the polling decision
       (src/hooks/useDocumentQueries.ts) *)

Module DocumentQueries.

Definition FrontendStatus_parse (s : string) : option FrontendStatus :=
  if String.eqb s "uploading" then Some uploading
  else if String.eqb s "processing" then Some processing
  else if String.eqb s "ready" then Some ready
  else if String.eqb s "error" then Some error
  else None.

(** The new status [updateDocumentStatus] computes from [status.status]. *)
Definition newStatus (st : string) : Js.M FrontendStatus :=
  if isBackendStatus st then mapApiStatusToUIStatus st
  else if isFrontendStatus st then Js.ret (default error (FrontendStatus_parse st))
  else
    perform Js.console (Js.ConsoleWarn "Unknown status type:" st) then
    Js.ret error.

(** The updater [updateDocumentStatus] hands to [setQueryData]: a missing
    entry stays missing, a present one gets the new status. *)
Definition updateDocumentStatus (old : option TypeAdapters.UIDocument) (st : string)
  : Js.M (option TypeAdapters.UIDocument) :=
  match old with
  | None => Js.ret None
  | Some doc =>
      let* s := newStatus st in
      Js.ret (Some {| TypeAdapters.ui_id := TypeAdapters.ui_id doc;
                      TypeAdapters.ui_name := TypeAdapters.ui_name doc;
                      TypeAdapters.ui_size := TypeAdapters.ui_size doc;
                      TypeAdapters.ui_uploadedAt := TypeAdapters.ui_uploadedAt doc;
                      TypeAdapters.ui_status := s;
                      TypeAdapters.ui_totalPages := TypeAdapters.ui_totalPages doc;
                      TypeAdapters.ui_url := TypeAdapters.ui_url doc |})
  end.

(** [shouldPollStatus] of [useDocumentWithStatus]: [id] is the hook's
    argument, [data] the status of the document query's data, if any. *)
Definition shouldPollStatus (id : string) (data : option string) : bool :=
  match data with
  | None => false
  | Some st =>
      if String.eqb id "" then false
      else negb (includes ["ready"; "error"] st)
  end.

End DocumentQueries.

(** ** API errors (src/utils/apiError.ts) *)

Module ApiError.

(** The JSON body of an error response; a field the body lacks is [None]. *)
Record ApiError := {
  ae_error : option string;
  ae_message : option string;
  ae_type : option string
}.

(** [class ApiException extends Error] *)
Record ApiException := {
  ex_message : string;
  ex_status : Z;
  ex_type : string;
  ex_apiError : ApiError
}.

(** [new ApiException(apiError, status = 500)] *)
Definition new_ApiException (apiError : ApiError) (status : option Z) : ApiException :=
  {| ex_message := Js.str_or (ae_message apiError) (default "" (ae_error apiError));
     ex_status := default 500 status;
     ex_type := Js.str_or (ae_type apiError) "UnknownError";
     ex_apiError := apiError |}.

(** An object that reaches a [catch] block, by the properties the handlers
    test: [instanceof TypeError], and the [name], [message] (when it is a
    string), [status] and [data] properties it has. *)
Record ErrorObject := {
  instanceofTypeError : bool;
  name : option string;
  message : option string;
  status : option Z;
  data : option ApiError
}.

(** An [ApiException] as such an object: it has [name], [message], [status],
    [type] and [apiError], and no [data]. *)
Definition thrown_exception (e : ApiException) : ErrorObject :=
  {| instanceofTypeError := false;
     name := Some "ApiException";
     message := Some (ex_message e);
     status := Some (ex_status e);
     data := None |}.

(** [handleApiError(error)]; [None] is a value that is falsy or no object. *)
Definition handleApiError (error : option ErrorObject) : ApiException :=
  match error with
  | Some o =>
      if instanceofTypeError o
         && TypeAdapters.str_includes (default "" (message o)) "fetch" then
        new_ApiException
          {| ae_error := Some "Network Error";
             ae_message :=
               Some "Unable to connect to the server. Please check your internet connection.";
             ae_type := Some "NetworkError" |}
          (Some 0)
      else if bool_decide (name o = Some "AbortError") then
        new_ApiException
          {| ae_error := Some "Request Timeout";
             ae_message := Some "The request took too long to complete. Please try again.";
             ae_type := Some "TimeoutError" |}
          (Some 408)
      else
        match status o, data o with
        | Some st, Some d => new_ApiException d (Some st)
        | _, _ =>
            new_ApiException
              {| ae_error := Some "Unknown Error";
                 ae_message :=
                   Some (default "An unexpected error occurred." (message o));
                 ae_type := Some "UnknownError" |}
              (Some 500)
        end
  | None =>
      new_ApiException
        {| ae_error := Some "Unknown Error";
           ae_message := Some "An unexpected error occurred.";
           ae_type := Some "UnknownError" |}
        (Some 500)
  end.

Definition isRetryableError (e : ApiException) : bool :=
  String.eqb (ex_type e) "NetworkError"
  || String.eqb (ex_type e) "TimeoutError"
  || ((500 <=? ex_status e) && (ex_status e <? 600)).

(** [getErrorDisplayMessage(error)] of the type adapters, on an object with
    an optional [type] and an optional string [message]; [None] is a value
    that is falsy or no object. *)
Definition getErrorDisplayMessage (error : option (option string * option string)) : string :=
  match error with
  | Some (Some type, message) =>
      if String.eqb type "NetworkError" then
        "Unable to connect to the server. Please check your internet connection."
      else if String.eqb type "ValidationError" then
        "Please check your input and try again."
      else if String.eqb type "DocumentError" then
        "There was an issue with the document. Please try uploading again."
      else if String.eqb type "ChatError" then
        "Unable to send message. Please try again."
      else if String.eqb type "FileStorageError" then
        "File upload failed. Please try again."
      else Js.str_or message "An unexpected error occurred. Please try again."
  | Some (None, Some message) => message
  | _ => "An unexpected error occurred. Please try again."
  end.

(** The three kinds of exception [handleApiError] makes of a browser error. *)
Definition classified (e : ApiException) : Prop :=
  (ex_status e = 0 /\ ex_type e = "NetworkError") \/
  (ex_status e = 408 /\ ex_type e = "TimeoutError") \/
  (ex_status e = 500 /\ ex_type e = "UnknownError").

(** What [getErrorDisplayMessage] sees of an [ApiException]. *)
Definition displayed (e : ApiException) : string :=
  getErrorDisplayMessage (Some (Some (ex_type e), Some (ex_message e))).

End ApiError.

(** ** The API client (services/apiClient.ts) *)

Module ApiClient.

Import ApiError.

(** What [fetch] and the client do to the outside, in order. *)
Inductive Call :=
| StartTimer (ms : Z)
| StopTimer
| CallFetch (attempt : nat)
| Wait (ms : Z)
| Print (text : string)
| Debug (text : string).

#[global] Instance Call_eq_dec : EqDecision Call.
Proof. solve_decision. Defined.

Section MakeRequest.

(** Parsed JSON bodies, and what an error body holds (a body that parses
    to [null] or to a primitive is not modelled). *)
Variable Json : Type.
Variable as_ApiError : Json -> ApiError.

(** [response.json()] resolves with the parsed body or rejects. *)
Inductive Body :=
| Parsed (j : Json)
| Unparsable (reason : ErrorObject).

Record Response := {
  r_status : Z;
  r_statusText : string;
  r_contentType : option string;
  r_body : Body
}.

(** [response.ok] *)
Definition ok (response : Response) : bool :=
  (200 <=? r_status response) && (r_status response <=? 299).

Inductive FetchResult :=
| FetchRejected (reason : ErrorObject)
| FetchResolved (response : Response).

Inductive Payload :=
| Data (j : Json)
| Raw (response : Response).

(** How [makeRequest] settles; [Rejected None] is [throw lastError] with
    [lastError] never assigned. *)
Inductive Result :=
| Resolved (p : Payload)
| Rejected (lastError : option ApiException).

(** [this.enableLogging && isDevelopment()] *)
Variable logging : bool.

(** What the [attempt]-th call of [fetch] does. *)
Variable fetch : nat -> FetchResult.

Variable timeout : Z.
Variable retries : Z.
Variable isFormData : bool.

(** [this.log(message, data)] *)
Definition log (text : string) : list Call :=
  if logging then [Debug text] else [].

(** The body of the [try] block of one attempt: what it does and whether it
    returns or throws. *)
Definition try_body (attempt : nat) : list Call * (Payload + ErrorObject) :=
  let calling := [Print "Attempt - Calling fetch..."; CallFetch attempt] in
  match fetch attempt with
  | FetchRejected reason => (calling, inr reason)
  | FetchResolved response =>
      let completed :=
        calling ++ [StopTimer; Print "Fetch completed with status:"]
        ++ (if isFormData then [Print "Large file upload fetch completed successfully!"]
            else [])
        ++ log "Response" in
      if negb (ok response) then
        let errorData :=
          match r_body response with
          | Parsed j => as_ApiError j
          | Unparsable _ =>
              {| ae_error := Some (String.append "HTTP " (pretty (r_status response)));
                 ae_message :=
                   Some (if String.eqb (r_statusText response) "" then "Request failed"
                         else r_statusText response);
                 ae_type := Some "HttpError" |}
          end in
        (completed,
         inr (thrown_exception (new_ApiException errorData (Some (r_status response)))))
      else if match r_contentType response with
              | Some contentType => TypeAdapters.str_includes contentType "application/json"
              | None => false
              end then
        match r_body response with
        | Parsed j => (completed ++ log "Success response", inl (Data j))
        | Unparsable reason => (completed, inr reason)
        end
      else (completed, inl (Raw response))
  end.

(** The [for] loop from [attempt] on, with [remaining] iterations left
    before [attempt <= retries] fails. *)
Fixpoint attempts (remaining attempt : nat) (lastError : option ApiException)
  : list Call * Result :=
  match remaining with
  | O => ([], Rejected lastError)
  | S remaining' =>
      let '(calls, outcome) := try_body attempt in
      match outcome with
      | inl p => (calls, Resolved p)
      | inr thrown =>
          let lastError := handleApiError (Some thrown) in
          let calls := calls ++ [StopTimer] ++ log "Error on attempt" in
          if negb (isRetryableError lastError) || (Z.of_nat attempt =? retries) then
            (calls, Rejected (Some lastError))
          else
            let waiting :=
              if Z.of_nat attempt <? retries then
                log "Retrying" ++ [Wait (2 ^ Z.of_nat attempt * 1000)]
              else [] in
            let '(rest, result) := attempts remaining' (S attempt) (Some lastError) in
            (calls ++ waiting ++ rest, result)
      end
  end.

Definition makeRequest : list Call * Result :=
  let '(calls, result) := attempts (Z.to_nat (retries + 1)) 0 None in
  (StartTimer timeout :: log "Making request"
   ++ (if isFormData then
         [Print "Large file upload detected - starting fetch request...";
          Print "Timeout set to:"]
       else [])
   ++ calls,
   result).

(** The values [fetch] and [json()] of a browser reject with (a
    [TypeError], an [AbortError], a [SyntaxError]) have no [data]
    property. *)
Definition browser_errors : Prop :=
  forall attempt,
    match fetch attempt with
    | FetchRejected reason => data reason = None
    | FetchResolved response =>
        match r_body response with
        | Unparsable reason => data reason = None
        | Parsed _ => True
        end
    end.

(** The attempt returns. *)
Definition succeeds (attempt : nat) : Prop :=
  exists p, snd (try_body attempt) = inl p.

End MakeRequest.

Arguments r_status {Json} r.
Arguments r_statusText {Json} r.
Arguments r_contentType {Json} r.
Arguments r_body {Json} r.
Arguments Parsed {Json} j.
Arguments Unparsable {Json} reason.
Arguments FetchRejected {Json} reason.
Arguments FetchResolved {Json} response.
Arguments Data {Json} j.
Arguments Raw {Json} response.
Arguments Resolved {Json} p.
Arguments Rejected {Json} lastError.

Definition is_fetch (c : Call) : bool :=
  match c with CallFetch _ => true | _ => false end.

(** The delay before the attempt after [attempt]. *)
Definition backoff (attempt : nat) : Z := 2 ^ Z.of_nat attempt * 1000.

(** The number of [fetch] calls of a trace. *)
Definition fetches (calls : list Call) : nat :=
  length (List.filter is_fetch calls).

(** The back-off delays of a trace, in order. *)
Definition waits (calls : list Call) : list Z :=
  omap (fun c => match c with Wait ms => Some ms | _ => None end) calls.

(** Whether the abort timer is pending after a trace. *)
Fixpoint timer_after (pending : bool) (calls : list Call) : bool :=
  match calls with
  | [] => pending
  | StartTimer _ :: rest => timer_after true rest
  | StopTimer :: rest => timer_after false rest
  | _ :: rest => timer_after pending rest
  end.

(** The attempts whose [fetch] is called while no abort timer is pending. *)
Fixpoint uncovered (pending : bool) (calls : list Call) : list nat :=
  match calls with
  | [] => []
  | StartTimer _ :: rest => uncovered true rest
  | StopTimer :: rest => uncovered false rest
  | CallFetch attempt :: rest =>
      (if pending then [] else [attempt]) ++ uncovered pending rest
  | _ :: rest => uncovered pending rest
  end.

(** A server that answers every attempt with the same response. *)
Definition always {Json} (response : Response Json) : nat -> FetchResult Json :=
  fun _ => FetchResolved response.

(** A request that the timeout aborts: every attempt rejects with the
    [AbortError] of the aborted signal. *)
Definition aborted {Json} : nat -> FetchResult Json :=
  fun _ =>
    FetchRejected
      {| instanceofTypeError := false;
         name := Some "AbortError";
         message := Some "signal is aborted without reason";
         status := None;
         data := None |}.

(** A settled request as the caller's [await] sees it: the console lines,
    and the decoded result or the exception, an [Error] with its message. *)
Definition printed (c : Call) : option Js.LogEntry :=
  match c with
  | Print text | Debug text => Some (Js.ConsoleLog text)
  | _ => None
  end.

Definition settled {Json A} (decode : Payload Json -> A) (r : list Call * Result Json)
  : Js.M A :=
  (omap printed (fst r),
   match snd r with
   | Resolved p => Js.Returned (decode p)
   | Rejected (Some e) => Js.Threw (Js.ErrorInstance (ex_message e))
   | Rejected None => Js.Threw (Js.NonError "undefined")
   end).

(** [apiClient.get(endpoint)] with no options: three retries, the time-out
    of the configuration; [server] is what [fetch] does for each path. *)
Definition get {Json A} (as_ApiError : Json -> ApiError) (logging : bool)
    (server : string -> nat -> FetchResult Json) (timeout : Z)
    (decode : Payload Json -> A) (endpoint : string) : Js.M A :=
  settled decode (makeRequest Json as_ApiError logging (server endpoint) timeout 3 false).

(** An error body without the fields of [ApiError], as in [{"detail": ...}]. *)
Definition no_fields (_ : unit) : ApiError :=
  {| ae_error := None; ae_message := None; ae_type := None |}.

Definition not_found : Response unit :=
  {| r_status := 404;
     r_statusText := "Not Found";
     r_contentType := Some "application/json";
     r_body := Parsed tt |}.

Definition found : Response unit :=
  {| r_status := 200;
     r_statusText := "OK";
     r_contentType := Some "application/json";
     r_body := Parsed tt |}.

Definition failed_to_fetch : ErrorObject :=
  {| instanceofTypeError := true;
     name := Some "TypeError";
     message := Some "Failed to fetch";
     status := None;
     data := None |}.

(** A server that is unreachable for the first two attempts. *)
Definition flaky : nat -> FetchResult unit :=
  fun attempt =>
    if (attempt <? 2)%nat then FetchRejected failed_to_fetch else FetchResolved found.

End ApiClient.

(** ** Query defaults (src/lib/queryClient.ts) *)

Module QueryClient.

(** [retry(failureCount, error)], on the [status] property of the error. *)
Definition retry (failureCount : nat) (status : option Z) : bool :=
  match status with
  | Some st =>
      if negb (st =? 0) && (400 <=? st) && (st <? 500) then false
      else (failureCount <? 3)%nat
  | None => (failureCount <? 3)%nat
  end.

(** [retryDelay(attemptIndex)] *)
Definition retryDelay (attemptIndex : nat) : Z :=
  Z.min (1000 * 2 ^ Z.of_nat attemptIndex) 30000.

End QueryClient.

(** ** Uploading (services/documentService.ts)

    JavaScript numbers are doubles.  A file size is an integer, and dividing
    it by [1024 * 1024] is exact; the product with the per-megabyte factor is
    rounded, so the model takes the rounding as a function [round] on the
    rationals.  Of the request options only [timeout] and [retries] are
    modelled; [signal] and [headers] are passed on as they are. *)

Module Upload.

Record File := {
  file_name : string;
  size : Z;
  file_type : string
}.

Record RequestOptions := {
  opt_timeout : option Q;
  opt_retries : option Z
}.

Inductive FormValue :=
| FileEntry (file : File)
| TextEntry (text : string).

(** [Math.max(a, b)] *)
Definition Math_max (a b : Q) : Q := if Qle_bool a b then b else a.

(** [file.size / (1024 * 1024)] *)
Definition fileSizeMB (file : File) : Q := (inject_Z (size file) / inject_Z (1024 * 1024))%Q.

(** [{ timeout: uploadTimeout, ...options }] *)
Definition with_timeout (uploadTimeout : Q) (options : option RequestOptions)
  : RequestOptions :=
  match options with
  | Some o => {| opt_timeout := Some (default uploadTimeout (opt_timeout o));
                 opt_retries := opt_retries o |}
  | None => {| opt_timeout := Some uploadTimeout; opt_retries := None |}
  end.

Section UploadDocument.

Variable Response : Type.
Variable round : Q -> Q.
Variable randomUUID : string.
Variable apiClient_upload :
  string -> list (string * FormValue) -> RequestOptions -> Js.M Response.

Definition uploadLargeDocument (file : File) (options : option RequestOptions)
  : Js.M Response :=
  perform Js.console (Js.ConsoleLog "Starting optimized large file upload:") then
  let formData :=
    [ ("file", FileEntry file);
      ("auto_process", TextEntry "true");
      ("enable_optimization", TextEntry "true");
      ("client_id", TextEntry randomUUID) ] in
  let uploadTimeout := Math_max 300000 (round (fileSizeMB file * 15000)) in
  perform Js.console (Js.ConsoleLog "Large file upload timeout set to:") then
  Js.try_catch
    (let* result :=
       apiClient_upload "/documents/upload-large" formData
         (with_timeout uploadTimeout options) in
     perform Js.console (Js.ConsoleLog "Large file upload completed successfully:") then
     Js.ret result)
    (fun thrown =>
       perform Js.console (Js.ConsoleError "Large file upload failed:") then
       Js.throw thrown).

Definition uploadDocument (file : File) (options : option RequestOptions)
  : Js.M Response :=
  perform Js.console (Js.ConsoleLog "Starting document upload:") then
  if negb (Qle_bool (fileSizeMB file) 10) then
    perform Js.console (Js.ConsoleLog "Using optimized large file upload for") then
    uploadLargeDocument file options
  else
    let formData := [ ("file", FileEntry file) ] in
    let uploadTimeout := Math_max 60000 (round (fileSizeMB file * 5000)) in
    perform Js.console (Js.ConsoleLog "Upload timeout set to:") then
    Js.try_catch
      (let* result :=
         apiClient_upload "/documents/upload" formData
           (with_timeout uploadTimeout options) in
       perform Js.console (Js.ConsoleLog "Document upload completed successfully:") then
       Js.ret result)
      (fun thrown =>
         perform Js.console (Js.ConsoleError "Document upload failed:") then
         Js.throw thrown).

End UploadDocument.

(** Rounding to a double keeps the order and leaves the integers of the
    size of a time-out as they are. *)
Definition rounding (round : Q -> Q) : Prop :=
  (forall x y : Q, (x <= y)%Q -> (round x <= round y)%Q) /\
  (forall n : Z, 0 <= n <= 2 ^ 53 -> round (inject_Z n) = inject_Z n).

(** Whether the caller gave a time-out. *)
Definition no_timeout (options : option RequestOptions) : Prop :=
  match options with
  | Some o => opt_timeout o = None
  | None => True
  end.

End Upload.

(** ** The request hook (src/hooks/useApi.ts)

    [useApi] as a transition system: the three state variables, the abort
    controller in [abortControllerRef] (controllers are numbered in creation
    order) and the calls of [apiFunction] that have not settled.  A call
    that was aborted may still resolve: whether it does is up to
    [apiFunction]. *)

Module UseApi.

Section Hook.

Variable T : Type.

Record State := {
  data : option T;
  loading : bool;
  api_error : option ApiError.ApiException;
  abortControllerRef : option positive;
  aborted : gset positive;
  pending : gset positive;
  fresh : positive
}.

Definition initial : State :=
  {| data := None; loading := false; api_error := None;
     abortControllerRef := None; aborted := ∅; pending := ∅; fresh := 1%positive |}.

(** What the hook calls. *)
Inductive Notice :=
| ApiFunction (controller : positive)
| OnSuccess (result : T)
| OnError (e : ApiError.ApiException).

(** What a call rejects with: an [ApiException] or another error, of which
    the hook reads the [message]. *)
Inductive Rejection :=
| Exception (e : ApiError.ApiException)
| OtherError (message : string).

Inductive Event :=
| Execute
| Resolve (controller : positive) (result : T)
| Reject (controller : positive) (err : Rejection)
| Reset
| Unmount.

(** [abortControllerRef.current.abort()], if there is a controller. *)
Definition abort_current (s : State) : gset positive :=
  match abortControllerRef s with
  | Some c => {[c]} ∪ aborted s
  | None => aborted s
  end.

(** [abortControllerRef.current?.signal.aborted] *)
Definition current_aborted (s : State) : bool :=
  match abortControllerRef s with
  | Some c => bool_decide (c ∈ aborted s)
  | None => false
  end.

(** The [catch] block: wrap what is not an [ApiException]. *)
Definition apiError_of (err : Rejection) : ApiError.ApiException :=
  match err with
  | Exception e => e
  | OtherError message =>
      ApiError.new_ApiException
        {| ApiError.ae_error := Some "Unknown Error";
           ApiError.ae_message :=
             Some (if String.eqb message "" then "An unexpected error occurred"
                   else message);
           ApiError.ae_type := Some "UnknownError" |}
        None
  end.

(** [execute], up to its [await]. *)
Definition execute (s : State) : State * list Notice :=
  let c := fresh s in
  ({| data := data s; loading := true; api_error := None;
      abortControllerRef := Some c;
      aborted := abort_current s;
      pending := {[c]} ∪ pending s;
      fresh := Pos.succ c |},
   [ApiFunction c]).

(** The [catch] and [finally] blocks on [err]. *)
Definition caught (err : Rejection) (s : State) : State * list Notice :=
  if current_aborted s then (s, [])
  else
    ({| data := data s; loading := false; api_error := Some (apiError_of err);
        abortControllerRef := abortControllerRef s;
        aborted := aborted s; pending := pending s; fresh := fresh s |},
     [OnError (apiError_of err)]).

(** [execute] after its [await] resolved: the [try] block reads the
    controller that is in the ref now; with no controller there the read
    throws a [TypeError]. *)
Definition resolved (result : T) (s : State) : State * list Notice :=
  match abortControllerRef s with
  | None => caught (OtherError "Cannot read properties of null (reading 'signal')") s
  | Some c =>
      if bool_decide (c ∈ aborted s) then (s, [])
      else
        ({| data := Some result; loading := false; api_error := api_error s;
            abortControllerRef := abortControllerRef s;
            aborted := aborted s; pending := pending s; fresh := fresh s |},
         [OnSuccess result])
  end.

Definition reset (s : State) : State * list Notice :=
  ({| data := None; loading := false; api_error := None;
      abortControllerRef := abortControllerRef s;
      aborted := abort_current s; pending := pending s; fresh := fresh s |},
   []).

Definition unmount (s : State) : State * list Notice :=
  ({| data := data s; loading := loading s; api_error := api_error s;
      abortControllerRef := abortControllerRef s;
      aborted := abort_current s; pending := pending s; fresh := fresh s |},
   []).

(** The call [c] settles. *)
Definition settle (c : positive) (s : State) : State :=
  {| data := data s; loading := loading s; api_error := api_error s;
     abortControllerRef := abortControllerRef s;
     aborted := aborted s; pending := pending s ∖ {[c]}; fresh := fresh s |}.

(** A reply arrives only for a call that has not settled. *)
Definition handle (ev : Event) (s : State) : State * list Notice :=
  match ev with
  | Execute => execute s
  | Resolve c result =>
      if bool_decide (c ∈ pending s) then resolved result (settle c s) else (s, [])
  | Reject c err =>
      if bool_decide (c ∈ pending s) then caught err (settle c s) else (s, [])
  | Reset => reset s
  | Unmount => unmount s
  end.

Fixpoint run (s : State) (evs : list Event) : State * list Notice :=
  match evs with
  | [] => (s, [])
  | ev :: rest =>
      let '(s1, n1) := handle ev s in
      let '(s2, n2) := run s1 rest in
      (s2, n1 ++ n2)
  end.

(** Controllers are numbered below the next one. *)
Definition well_formed (s : State) : Prop :=
  (forall c, c ∈ aborted s -> (c < fresh s)%positive) /\
  (forall c, abortControllerRef s = Some c -> (c < fresh s)%positive).

End Hook.

Arguments data {T} s.
Arguments loading {T} s.
Arguments api_error {T} s.
Arguments abortControllerRef {T} s.
Arguments aborted {T} s.
Arguments pending {T} s.
Arguments fresh {T} s.
Arguments Execute {T}.
Arguments Resolve {T} controller result.
Arguments Reject {T} controller err.
Arguments Reset {T}.
Arguments Unmount {T}.
Arguments ApiFunction {T} controller.
Arguments OnSuccess {T} result.
Arguments OnError {T} e.

End UseApi.

(** An interval timer of the job tracking, with callback [cb] (a ping or a
    status poll) and period [ms], that is pending and is not the one held
    in [pollIntervalRef]. *)
Definition timer_unreferenced (id : positive) (cb : Uploader.TimerCallback) (ms : Z)
    (w : Uploader.World) : Prop :=
  (exists d, In (id, {| Uploader.callback := cb; Uploader.period := ms;
                        Uploader.due := d |}) (Uploader.timers w)) /\
  Uploader.pollIntervalRef w <> Some id /\
  (id < Uploader.fresh w)%positive.

(** The handler neither clears such a timer nor takes it into the ref. *)
Definition spares (id : positive) (cb : Uploader.TimerCallback) (ms : Z)
    (h : Uploader.Handler) : Prop :=
  forall w, timer_unreferenced id cb ms w ->
    timer_unreferenced id cb ms (fst (h w)) /\
    Forall (fun e => e <> ClearInterval id) (snd (h w)).

(** ** The status hook of the uploader (PDFUploaderContainer.tsx)

    [onSuccess] of [useDocumentStatus] reads properties of the object that
    [getDocumentStatus] resolved with, by name. *)

Module StatusHook.

Inductive Property :=
| PString (s : string)
| PValue (v : Js.Value)
| PNull
| PUndefined.

Definition of_string (s : option string) : Property :=
  match s with Some x => PString x | None => PUndefined end.

Definition of_number (n : option Z) : Property :=
  match n with Some x => PValue (Js.Number x) | None => PUndefined end.

(** The own properties of the object [getDocumentStatus] returns. *)
Definition properties (statusData : DocumentService.DocumentStatus)
  : list (string * Property) :=
  [ ("status", PString (FrontendStatus_name (DocumentService.ds_status statusData)));
    ("processing_stage", of_string (DocumentService.ds_processing_stage statusData));
    ("page_count", of_number (DocumentService.ds_page_count statusData));
    ("chunk_count", of_number (DocumentService.ds_chunk_count statusData));
    ("processing_time_ms",
     match DocumentService.ds_processing_time_ms statusData with
     | Some n => PValue (Js.Number n)
     | None => PNull
     end);
    ("progress_percentage", PValue (DocumentService.ds_progress_percentage statusData));
    ("error_message", of_string (DocumentService.ds_error_message statusData)) ].

Fixpoint own (key : string) (l : list (string * Property)) : option Property :=
  match l with
  | [] => None
  | (k, v) :: rest => if String.eqb k key then Some v else own key rest
  end.

(** [statusData[key]] *)
Definition read (statusData : DocumentService.DocumentStatus) (key : string) : Property :=
  match own key (properties statusData) with
  | Some v => v
  | None =>
      match Js.inherited key with
      | Some v => PValue v
      | None => PUndefined
      end
  end.

Definition truthy (p : Property) : bool :=
  match p with
  | PString s => negb (String.eqb s "")
  | PValue v => Js.truthy v
  | PNull | PUndefined => false
  end.

(** [p === text] *)
Definition is_string (p : Property) (text : string) : bool :=
  match p with
  | PString s => String.eqb s text
  | _ => false
  end.

(** The [UploadProgress] that [onSuccess] hands to [onUploadProgress]. *)
Record Reported := {
  r_percentage : Property;
  r_status : UploadStatus;
  r_message : Property
}.

Definition onSuccess (statusData : DocumentService.DocumentStatus) : Reported :=
  let progress := read statusData "progress" in
  let status := read statusData "status" in
  let error := read statusData "error" in
  {| r_percentage := if truthy progress then progress else PValue (Js.Number 0);
     r_status := if is_string status "processed" then Complete
                 else if is_string status "error" then Failed
                 else Processing;
     r_message := if truthy error then error else PUndefined |}.

End StatusHook.

(** ** The status hook as the uploader mounts it ([useDocumentStatus] in
       hooks/useApiHooks.ts, over [usePolling] and [useApi] of
       src/hooks/useApi.ts)

    [useApi] returns a new object at every render, and [usePolling] lists
    that object among the dependencies of its effect, so the effect runs
    again after every render of the component: first the cleanup
    [stopPolling], then the body, which calls [execute] and [startPolling]
    when [enabled].  [execute] sets [loading] and clears [error]; a render
    follows when that changes the state of the hook, and the effect runs
    once more.  A render for another reason (the state of the component or
    of the upload hook changed, or the parent rendered it) is the event
    [Rendered], with the document id the component passes.  The state
    changes one callback makes lead to one render.  [getDocumentStatus]
    catches what it throws, so its calls resolve. *)

Module StatusPolling.

(** What a call of [getDocumentStatus] resolved with.  Every call makes a
    new object: the call is part of the identity of its result. *)
Definition Result : Type := positive * DocumentService.DocumentStatus.

Inductive Call :=
| Browser (e : Effect)
| GetDocumentStatus (controller : positive) (id : string)
| Progress (progress : StatusHook.Reported).

(** [interval: 2000] and [enabled: !!id] *)
Definition interval : Z := 2000.
Definition enabled (id : string) : bool := negb (String.eqb id "").

(** The request hook, [intervalRef], the intervals that are pending, in
    creation order and each with the document id its callback requests,
    the id [setInterval] returns next and the argument of the last
    render. *)
Record State := {
  api : UseApi.State Result;
  intervalRef : option positive;
  intervals : list (positive * string);
  next_timer : positive;
  documentId : string
}.

Definition initial : State :=
  {| api := UseApi.initial Result; intervalRef := None; intervals := [];
     next_timer := 1%positive; documentId := "" |}.

Definition set_api (a : UseApi.State Result) (s : State) : State :=
  {| api := a; intervalRef := intervalRef s; intervals := intervals s;
     next_timer := next_timer s; documentId := documentId s |}.

Definition set_documentId (id : string) (s : State) : State :=
  {| api := api s; intervalRef := intervalRef s; intervals := intervals s;
     next_timer := next_timer s; documentId := id |}.

(** What [useApi] calls: [apiFunction] is [() => getDocumentStatus(id)];
    [onSuccess] and [onError] are those the container passes. *)
Definition notice (id : string) (n : UseApi.Notice Result) : Call :=
  match n with
  | UseApi.ApiFunction c => GetDocumentStatus c id
  | UseApi.OnSuccess result => Progress (StatusHook.onSuccess (snd result))
  | UseApi.OnError e => Browser (ToastError (ApiError.displayed e))
  end.

(** [apiState.execute(...args)] of a render with argument [id]. *)
Definition execute (id : string) (s : State) : State * list Call :=
  let '(a, notices) := UseApi.execute Result (api s) in
  (set_api a s, map (notice id) notices).

(** [setLoading(true)] and [setError(null)] of [execute] change the state
    of the hook. *)
Definition execute_rerenders (s : State) : bool :=
  negb (UseApi.loading (api s)) || bool_decide (is_Some (UseApi.api_error (api s))).

(** What a timer call does to the pending intervals. *)
Definition timer_call (id : string) (l : list (positive * string)) (e : Effect)
  : list (positive * string) :=
  match e with
  | ClearInterval t => List.filter (fun x => negb (Pos.eqb (fst x) t)) l
  | SetInterval t _ => l ++ [(t, id)]
  | _ => l
  end.

(** One run of the effect of [usePolling]: the cleanup of the run before,
    then the body. *)
Definition effect (s : State) : State * list Call :=
  let id := documentId s in
  let '(cleared, ref) := stopPolling (intervalRef s) in
  let '(effs, ref') := usePolling_effect (enabled id) ref (next_timer s) interval in
  let '(s1, calls) := if enabled id then execute id s else (s, []) in
  ({| api := api s1; intervalRef := ref';
      intervals := fold_left (timer_call id) (cleared ++ effs) (intervals s);
      next_timer := if enabled id then Pos.succ (next_timer s) else next_timer s;
      documentId := id |},
   map Browser cleared
     ++ flat_map (fun e => match e with ApiExecute => calls | _ => [Browser e] end) effs).

(** A render: the effect runs, and once more when its [execute] changed
    the state. *)
Definition render (s : State) : State * list Call :=
  let '(s1, c1) := effect s in
  if enabled (documentId s) && execute_rerenders s then
    let '(s2, c2) := effect s1 in (s2, c1 ++ c2)
  else (s1, c1).

Fixpoint pending_interval (t : positive) (l : list (positive * string)) : option string :=
  match l with
  | [] => None
  | (t', id) :: rest => if Pos.eqb t' t then Some id else pending_interval t rest
  end.

Inductive Event :=
| Rendered (id : string)
| Fired (timer : positive)
| Resolved (controller : positive) (statusData : DocumentService.DocumentStatus)
| Unmounted.

Definition step (s : State) (ev : Event) : State * list Call :=
  match ev with
  | Rendered id => render (set_documentId id s)
  | Fired t =>
      match pending_interval t (intervals s) with
      | Some id =>
          let '(s1, c1) := execute id s in
          if execute_rerenders s then
            let '(s2, c2) := render s1 in (s2, c1 ++ c2)
          else (s1, c1)
      | None => (s, [])
      end
  | Resolved c statusData =>
      let '(a, notices) := UseApi.handle Result (UseApi.Resolve c (c, statusData)) (api s) in
      match notices with
      | [] => (set_api a s, [])
      | _ :: _ =>
          let '(s2, c2) := render (set_api a s) in
          (s2, map (notice (documentId s)) notices ++ c2)
      end
  | Unmounted =>
      let '(a, _) := UseApi.unmount Result (api s) in
      let '(cleared, ref) := stopPolling (intervalRef s) in
      ({| api := a; intervalRef := ref;
          intervals := fold_left (timer_call (documentId s)) cleared (intervals s);
          next_timer := next_timer s; documentId := documentId s |},
       map Browser cleared)
  end.

(** *** Observations *)

Definition is_get (c : Call) : bool :=
  match c with GetDocumentStatus _ _ => true | _ => false end.

Definition is_set (c : Call) : bool :=
  match c with Browser (SetInterval _ _) => true | _ => false end.

(** The [clearInterval] call for the timer in a ref. *)
Definition cleared (ref : option positive) : list Call :=
  match ref with Some t => [Browser (ClearInterval t)] | None => [] end.

(** Timer ids are below the next one. *)
Definition well_formed (s : State) : Prop :=
  Forall (fun x => (fst x < next_timer s)%positive) (intervals s).

End StatusPolling.

(** ** The upload hook as the uploader mounts it ([useDocumentUpload] in
       hooks/useApiHooks.ts, over [useUpload] and [useApi] of
       src/hooks/useApi.ts)

    The upload function sets an interval of 200 ms that reports a random
    progress, awaits [uploadDocument], and clears the interval in its
    [finally] block.  [onSuccess] of the container is the handler
    [Uploader.uploadSucceeded]; its call is recorded as [Succeeded]. *)

Module DocumentUpload.

(** The upload response, of which the container reads [document_id], with
    the call that produced it. *)
Definition Response : Type := positive * string.

Inductive Call :=
| Browser (e : Effect)
| Succeeded (document_id : string).

(** The request hook, [progress] of [useUpload], the local variable
    [progressInterval] of every upload that has not settled, by its call,
    and the id [setInterval] returns next. *)
Record State := {
  api : UseApi.State Response;
  progress : Q;
  progressInterval : gmap positive positive;
  next_timer : positive
}.

Definition initial : State :=
  {| api := UseApi.initial Response; progress := 0%Q; progressInterval := ∅;
     next_timer := 1%positive |}.

Inductive Event :=
| Execute
| Fired (timer : positive) (random : Q)
| UploadResolved (controller : positive) (document_id : string)
| UploadRejected (controller : positive) (err : UseApi.Rejection).

(** [uploadDocument.execute(file)], up to the [await] of the upload
    function. *)
Definition execute (s : State) : State * list Call :=
  let '(a, _) := UseApi.execute Response (api s) in
  let c := UseApi.fresh (api s) in
  let t := next_timer s in
  ({| api := a; progress := 0%Q;
      progressInterval := <[c := t]> (progressInterval s);
      next_timer := Pos.succ t |},
   [Browser (SetInterval t 200); Browser UploadDocument]).

(** The interval callback: [onProgress(Math.min(90, Math.random() * 80 + 10))]. *)
Definition Math_min (a b : Q) : Q := if Qle_bool a b then a else b.

Definition is_pending (t : positive) (s : State) : bool :=
  existsb (fun x => Pos.eqb (snd x) t) (map_to_list (progressInterval s)).

Definition fired (t : positive) (random : Q) (s : State) : State * list Call :=
  if is_pending t s then
    ({| api := api s; progress := Math_min 90 (random * 80 + 10)%Q;
        progressInterval := progressInterval s; next_timer := next_timer s |}, [])
  else (s, []).

(** [onSuccess] and [onError] of [useUpload], around those of the
    container. *)
Definition notice (s : State) (n : UseApi.Notice Response) : State * list Call :=
  match n with
  | UseApi.ApiFunction _ => (s, [])
  | UseApi.OnSuccess response =>
      ({| api := api s; progress := 100%Q;
          progressInterval := progressInterval s; next_timer := next_timer s |},
       [Succeeded (snd response)])
  | UseApi.OnError e =>
      ({| api := api s; progress := 0%Q;
          progressInterval := progressInterval s; next_timer := next_timer s |},
       [Browser (ToastError (ApiError.displayed e));
        Browser (OnUploadProgress
                   {| percentage := 0; upload_status := Failed;
                      message := Some (Text (ApiError.displayed e)) |})])
  end.

Fixpoint notices (s : State) (ns : list (UseApi.Notice Response)) : State * list Call :=
  match ns with
  | [] => (s, [])
  | n :: rest =>
      let '(s1, c1) := notice s n in
      let '(s2, c2) := notices s1 rest in
      (s2, c1 ++ c2)
  end.

(** The upload of call [c] settles: the upload function leaves through its
    [finally] block, then [execute] goes on. *)
Definition settled (c : positive) (ev : UseApi.Event Response) (resolved : bool)
    (s : State) : State * list Call :=
  match progressInterval s !! c with
  | Some t =>
      let '(a, ns) := UseApi.handle Response ev (api s) in
      let '(s', calls) :=
        notices {| api := a; progress := if resolved then 100%Q else progress s;
                   progressInterval := delete c (progressInterval s);
                   next_timer := next_timer s |} ns in
      (s', Browser (ClearInterval t) :: calls)
  | None => (s, [])
  end.

Definition step (s : State) (ev : Event) : State * list Call :=
  match ev with
  | Execute => execute s
  | Fired t random => fired t random s
  | UploadResolved c document_id =>
      settled c (UseApi.Resolve c (c, document_id)) true s
  | UploadRejected c err => settled c (UseApi.Reject c err) false s
  end.

Fixpoint run (s : State) (evs : list Event) : State * list Call :=
  match evs with
  | [] => (s, [])
  | ev :: rest =>
      let '(s1, c1) := step s ev in
      let '(s2, c2) := run s1 rest in
      (s2, c1 ++ c2)
  end.

(** The event settles the upload of call [c]. *)
Definition settles (c : positive) (ev : Event) : bool :=
  match ev with
  | UploadResolved c' _ | UploadRejected c' _ => Pos.eqb c' c
  | _ => false
  end.

(** The upload of call [c] is under way, with progress interval [t]. *)
Definition uploading_with (c t : positive) (s : State) : Prop :=
  progressInterval s !! c = Some t /\
  (c < UseApi.fresh (api s))%positive /\
  (t < next_timer s)%positive /\
  (forall c', progressInterval s !! c' = Some t -> c' = c).

End DocumentUpload.

(** ** Deleting a document (src/hooks/useDocumentQueries.ts)

    The query cache as far as the mutation touches it: the data of the list
    query [queryKeys.documents] and the queries under every other key.
    [removeQueries] removes the queries whose key starts with the given
    one. *)

Module DeleteMutation.

Inductive Call :=
| CancelQueries (queryKey : list string)
| RemoveQueries (queryKey : list string)
| Invalidate (queryKey : list string)
| Toast_error (text : string)
| Toast_success (text : string).

Fixpoint starts_with (queryKey key : list string) : bool :=
  match queryKey, key with
  | [], _ => true
  | _ :: _, [] => false
  | a :: queryKey', b :: key' => String.eqb a b && starts_with queryKey' key'
  end.

Section Cache.

Variable Entry : Type.

Record Cache := {
  documents : option (list TypeAdapters.UIDocument);
  queries : gmap (list string) Entry
}.

(** What [onMutate] returns. *)
Definition Context : Type := option (list TypeAdapters.UIDocument).

Definition onMutate (deletedId : string) (cache : Cache) : Cache * Context * list Call :=
  let previousDocuments := documents cache in
  ({| documents :=
        match previousDocuments with
        | Some docs =>
            Some (List.filter
                    (fun doc => negb (String.eqb (TypeAdapters.ui_id doc) deletedId)) docs)
        | None => None
        end;
      queries :=
        filter (fun kv => starts_with (JobPoller.document_key deletedId) (fst kv) = false)
               (queries cache) |},
   previousDocuments,
   [ CancelQueries JobPoller.documents_key;
     RemoveQueries (JobPoller.document_key deletedId) ]).

Definition onError (thrown : option (option string * option string)) (context : Context)
    (cache : Cache) : Cache * list Call :=
  (match context with
   | Some previousDocuments =>
       {| documents := Some previousDocuments; queries := queries cache |}
   | None => cache
   end,
   [ Toast_error (ApiError.getErrorDisplayMessage thrown) ]).

Definition onSuccess : list Call := [ Toast_success "Document deleted successfully" ].

Definition onSettled : list Call := [ Invalidate JobPoller.documents_key ].

(** The mutation when [deleteDocument] rejects with [thrown], and when it
    resolves. *)
Definition failed (deletedId : string) (thrown : option (option string * option string))
    (cache : Cache) : Cache * list Call :=
  let '(optimistic, context, calls) := onMutate deletedId cache in
  let '(rolled_back, calls') := onError thrown context optimistic in
  (rolled_back, calls ++ calls' ++ onSettled).

Definition succeeded (deletedId : string) (cache : Cache) : Cache * list Call :=
  let '(optimistic, _, calls) := onMutate deletedId cache in
  (optimistic, calls ++ onSuccess ++ onSettled).

End Cache.

Arguments documents {Entry} c.
Arguments queries {Entry} c.

End DeleteMutation.

(** ** Processing jobs (services/documentService.ts) *)

Module ProcessingJobs.

Record CancelResponse := {
  cr_job_id : string;
  cr_status : string;
  cr_message : string
}.

Record Cancelled := { success : bool; message : string }.

(** The reply to the status request of a document: a job, or an object
    without [job_id]. *)
Inductive CurrentJob (Job : Type) :=
| ActiveJob (job : Job)
| NoJob (status message : string).
Arguments ActiveJob {Job} job.
Arguments NoJob {Job} status message.

Section Jobs.

Variable Job : Type.
Variable apiClient_get_status : string -> Js.M Job.
Variable apiClient_get_current : string -> Js.M (CurrentJob Job).
Variable apiClient_delete : string -> Js.M CancelResponse.

Definition getAsyncProcessingStatus (documentId jobId : string) : Js.M Job :=
  Js.try_catch
    (let* response :=
       apiClient_get_status
         (String.append "/documents/"
            (String.append documentId (String.append "/processing-status/" jobId))) in
     Js.ret response)
    (fun thrown =>
       perform Js.console (Js.ConsoleError "Error getting async processing status:") then
       Js.throw thrown).

Definition getCurrentProcessingJob (documentId : string) : Js.M (option Job) :=
  Js.try_catch
    (let* response :=
       apiClient_get_current
         (String.append "/documents/" (String.append documentId "/processing-status")) in
     match response with
     | ActiveJob job => Js.ret (Some job)
     | NoJob _ _ => Js.ret None
     end)
    (fun thrown =>
       perform Js.console (Js.ConsoleError "Error getting current processing job:") then
       Js.ret None).

Definition cancelProcessingJob (jobId : string) : Js.M Cancelled :=
  Js.try_catch
    (let* response := apiClient_delete (String.append "/processing-jobs/" jobId) in
     perform Js.console (Js.ConsoleLog "Processing job cancelled:") then
     Js.ret {| success := true; message := cr_message response |})
    (fun thrown =>
       perform Js.console (Js.ConsoleError "Error cancelling processing job:") then
       Js.ret {| success := false; message := DocumentService.errorMessage_of thrown |}).

End Jobs.

End ProcessingJobs.

(** The polling run against [server] makes its last request at attempt [n]:
    the first attempt with a terminal reply, or the last attempt allowed. *)
Definition stops_at (server : nat -> JobPoller.Reply) (n : nat) : Prop :=
  (1 <= n <= JobPoller.maxAttempts)%nat /\
  (forall k, (1 <= k < n)%nat ->
             JobPoller.in_progress (JobPoller.settled (server k)) = true) /\
  (n = JobPoller.maxAttempts \/
   JobPoller.in_progress (JobPoller.settled (server n)) = false).

(** The interval after which the status query polls again, given what
    [getDocumentStatus] did: [refetchInterval] on the status it returned. *)
Definition nextPoll (id : string) (m : Js.M DocumentService.DocumentStatus) : option Z :=
  match returned m with
  | Some ds =>
      fst (refetchInterval id (Some (FrontendStatus_name (DocumentService.ds_status ds))))
  | None => None
  end.

(** * Properties *)


(** ** Status mapper *)

Section StatusMapper.

Lemma includes_false_cons (x : string) (l : list string) (s : string) :
  includes (x :: l) s = false -> String.eqb s x = false /\ includes l s = false.
Proof. unfold includes; simpl. apply orb_false_elim. Qed.

(** The mapper has no [throw]: it returns on every string. *)
Lemma mapApiStatusToUIStatus_returns (status : string) :
  exists ui, returned (mapApiStatusToUIStatus status) = Some ui.
Proof.
  unfold mapApiStatusToUIStatus.
  repeat (match goal with |- context [if ?b then _ else _] => destruct b end;
          [eexists; reflexivity|]).
  eexists; reflexivity.
Qed.

(** The mapper of the query hook is fail-closed: a string outside the
    backend status list is mapped to [error], with one [console.warn] naming
    it and no exception; and on every string whatsoever the mapper returns. *)
Theorem mapApiStatusToUIStatus_fail_closed (status : string) :
  (isBackendStatus status = false ->
     mapApiStatusToUIStatus status =
       ([Js.ConsoleWarn "Unhandled document status:" status], Js.Returned error))
  /\ (exists ui, returned (mapApiStatusToUIStatus status) = Some ui).
Proof.
  split; [|apply mapApiStatusToUIStatus_returns].
  intros H. unfold isBackendStatus, BACKEND_STATUSES in H.
  repeat (apply includes_false_cons in H; destruct H as [? H]).
  unfold mapApiStatusToUIStatus.
  repeat match goal with E : String.eqb status _ = false |- _ => rewrite E; clear E end.
  reflexivity.
Qed.

Lemma mapApiStatusToUIStatus_fail_closed_witness :
  isBackendStatus "foobar" = false /\
  mapApiStatusToUIStatus "foobar" =
    ([Js.ConsoleWarn "Unhandled document status:" "foobar"], Js.Returned error).
Proof.
  split; [reflexivity|].
  apply (proj1 (mapApiStatusToUIStatus_fail_closed "foobar")). reflexivity.
Defined.

Lemma eqb_decide (a b : string) : String.eqb a b = bool_decide (a = b).
Proof.
  destruct (String.eqb_spec a b) as [->|Hne].
  - symmetry. apply bool_decide_eq_true. reflexivity.
  - symmetry. apply bool_decide_eq_false. exact Hne.
Qed.



End StatusMapper.

(** ** Stage progress *)

Section StageProgress.

Lemma lower_ascii_idem (c : ascii) :
  Js.lower_ascii (Js.lower_ascii c) = Js.lower_ascii c.
Proof. destruct c as [[] [] [] [] [] [] [] []]; reflexivity. Qed.

Lemma toLowerCase_idem (s : string) :
  Js.toLowerCase (Js.toLowerCase s) = Js.toLowerCase s.
Proof. induction s as [|c r IH]; simpl; [reflexivity|]. now rewrite lower_ascii_idem, IH. Qed.

(** Of the inherited property names only two are their own lower-casing,
    so only these two can be reached through [toLowerCase]. *)
Lemma inherited_lowercase (stage : string) (v : Js.Value) :
  Js.inherited (Js.toLowerCase stage) = Some v ->
  Js.toLowerCase stage = "constructor" \/ Js.toLowerCase stage = "__proto__".
Proof.
  intros H. unfold Js.inherited in H.
  apply elem_of_list_to_map_2 in H.
  pose proof (toLowerCase_idem stage) as Hid.
  unfold Js.object_prototype in H.
  repeat (apply elem_of_cons in H; destruct H as [H|H];
          [inversion H as [[Hk Hv]]; rewrite Hk in Hid; auto; discriminate Hid|]).
  apply elem_of_nil in H. contradiction.
Qed.

Lemma stageProgress_values (key : string) (n : Z) :
  stageProgress !! key = Some n -> n ∈ progress_values.
Proof.
  intros H. apply elem_of_list_to_map_2 in H.
  unfold stageProgress_entries in H.
  repeat (apply elem_of_cons in H; destruct H as [H|H];
          [inversion H; subst n; unfold progress_values; set_solver|]).
  apply elem_of_nil in H. contradiction.
Qed.

(** Away from the two inherited names, the table read gives one of the
    eight percentages. *)
Lemma getProcessingProgress_own (stage : string) :
  Js.toLowerCase stage <> "constructor" ->
  Js.toLowerCase stage <> "__proto__" ->
  exists n, getProcessingProgress stage = Js.Number n /\ n ∈ progress_values.
Proof.
  intros Hc Hp. unfold getProcessingProgress, Js.get.
  destruct (stageProgress !! Js.toLowerCase stage) as [n|] eqn:E.
  - apply stageProgress_values in E. unfold Js.or; simpl.
    destruct (n =? 0) eqn:Z0; simpl.
    + exists 0. split; [reflexivity|]. unfold progress_values. constructor.
    + exists n. split; [reflexivity|exact E].
  - destruct (Js.inherited (Js.toLowerCase stage)) as [v|] eqn:I.
    + apply inherited_lowercase in I. tauto.
    + exists 0. split; [reflexivity|]. unfold progress_values. constructor.
Qed.

Lemma getProcessingProgress_own_witness :
  exists n, getProcessingProgress "Vectorization" = Js.Number n /\ n ∈ progress_values.
Proof. apply getProcessingProgress_own; vm_compute; discriminate. Defined.

(** The stages parsing_failed and error, and a stage the table does not
    know, give 0; the key is lower-cased before the read. *)
Lemma getProcessingProgress_zero :
  getProcessingProgress "parsing_failed" = Js.Number 0 /\
  getProcessingProgress "error" = Js.Number 0 /\
  getProcessingProgress "no_such_stage" = Js.Number 0 /\
  getProcessingProgress "INDEXING" = Js.Number 85.
Proof. repeat split; vm_compute; reflexivity. Qed.

(** C10. At the stage constructor (in any letter case) the table read finds
    the property inherited from Object.prototype, which is truthy, and the
    function returns it: the result is not a number, in both copies of the
    computation. *)
Theorem getProcessingProgress_constructor :
  getProcessingProgress "constructor" = Js.Object "Object" /\
  getProcessingProgress "Constructor" = Js.Object "Object" /\
  getProcessingProgress "__proto__" = Js.Object "Object.prototype" /\
  DocumentService.calculateProgressPercentage (Some "constructor") = Js.Object "Object" /\
  (forall n, getProcessingProgress "constructor" <> Js.Number n).
Proof. repeat split; try (vm_compute; reflexivity). intros n; vm_compute; discriminate. Qed.

Lemma calculateProgressPercentage_eq (stage : string) :
  DocumentService.calculateProgressPercentage (Some stage) =
    if String.eqb stage "" then Js.Number 0 else getProcessingProgress stage.
Proof.
  unfold DocumentService.calculateProgressPercentage; simpl.
  destruct (String.eqb stage ""); reflexivity.
Qed.

End StageProgress.

(** ** getDocumentStatus *)

Section GetDocumentStatusFacts.

Import DocumentService.

Variable apiClient_get : string -> Js.M BackendDocumentResponse.
Variable DOCUMENT_BY_ID : string -> string.

Local Abbreviation getStatus := (getDocumentStatus apiClient_get DOCUMENT_BY_ID).

(** C9. [getDocumentStatus] never rejects: whatever the HTTP call does, the
    method returns a status; and when the call throws, the returned status
    is error, with progress 0 and, as error message, the message of the
    thrown [Error] (for a thrown value that is no [Error] instance, the text
    'Unknown error'). *)
Theorem getDocumentStatus_never_rejects (documentId : string) :
  (exists ds, returned (getStatus documentId) = Some ds) /\
  (forall l e,
     apiClient_get (DOCUMENT_BY_ID documentId) = (l, Js.Threw e) ->
     exists ds,
       returned (getStatus documentId) = Some ds /\
       ds_status ds = error /\
       ds_progress_percentage ds = Js.Number 0 /\
       ds_error_message ds =
         Some (match e with
               | Js.ErrorInstance message => message
               | Js.NonError _ => "Unknown error"
               end)).
Proof.
  unfold getDocumentStatus, Js.try_catch, Js.bind.
  split.
  - destruct (apiClient_get (DOCUMENT_BY_ID documentId)) as [l [r|e]]; simpl;
      eexists; reflexivity.
  - intros l e ->. simpl. eexists. repeat split.
Qed.

(** The inline status switch of [getDocumentStatus] is a different mapping
    from [mapApiStatusToUIStatus]: its [default] shares the branch of
    uploaded and pending, so a status it does not know comes out as
    processing. *)
Lemma frontendStatus_of_default (status : string) :
  status ∉ ["processed"; "completed"; "error"] ->
  frontendStatus_of status = processing.
Proof.
  intros H. unfold frontendStatus_of.
  destruct (String.eqb_spec status "processed") as [->|_]; [exfalso; apply H; set_solver|].
  destruct (String.eqb_spec status "completed") as [->|_]; [exfalso; apply H; set_solver|].
  destruct (String.eqb_spec status "error") as [->|_]; [exfalso; apply H; set_solver|].
  simpl. destruct (String.eqb status "processing"); reflexivity.
Qed.

End GetDocumentStatusFacts.

(** C1. The status mapping is meant to be fail-closed, and
    [mapApiStatusToUIStatus] is: the statuses foobar and failed, which the
    backend status list does not hold, come out as error, with a warning.
    The inline switch of [getDocumentStatus] is not: its [default] shares the
    branch of uploaded and pending, so the same statuses are reported as
    processing, and on processing the status query polls again after
    2000 ms. *)
Theorem getDocumentStatus_unknown_status_in_progress :
  isBackendStatus "foobar" = false /\
  isBackendStatus "failed" = false /\
  mapApiStatusToUIStatus "foobar" =
    ([Js.ConsoleWarn "Unhandled document status:" "foobar"], Js.Returned error) /\
  mapApiStatusToUIStatus "failed" =
    ([Js.ConsoleWarn "Unhandled document status:" "failed"], Js.Returned error) /\
  reported_status "foobar" = Some processing /\
  reported_status "failed" = Some processing /\
  fst (refetchInterval "doc_1" (Some (FrontendStatus_name processing))) = Some 2000.
Proof. vm_compute. repeat split. Qed.

(** [getDocumentStatus] at a client that fails with a network error. *)
Lemma getDocumentStatus_never_rejects_witness :
  let get := fun _ : string =>
    (([] : list Js.LogEntry), @Js.Threw DocumentService.BackendDocumentResponse
                                (Js.ErrorInstance "Network Error")) in
  exists ds,
    returned (DocumentService.getDocumentStatus get (fun i => i) "doc_1") = Some ds /\
    DocumentService.ds_status ds = error /\
    DocumentService.ds_progress_percentage ds = Js.Number 0 /\
    DocumentService.ds_error_message ds = Some "Network Error".
Proof.
  intros get.
  apply (proj2 (getDocumentStatus_never_rejects get (fun i => i) "doc_1") []
                (Js.ErrorInstance "Network Error")).
  reflexivity.
Defined.

(** ** Job polling after upload *)

Section JobPollerFacts.

Import JobPoller.

Variable server : nat -> Reply.
Variables documentId jobId : string.

Local Abbreviation poll := (JobPoller.poll server documentId jobId).
Local Abbreviation request := (JobPoller.request documentId jobId).

(** One unfolding of [poll]. *)
Lemma poll_unfold (attempts : nat) (now : Z) :
  poll attempts now =
    let r := after_reply documentId (S attempts) (settled (server (S attempts))) in
    let t := now + latency (server (S attempts)) in
    (now, request (S attempts)) :: stamp t (fst r)
      ++ (if snd r then poll (S attempts) (t + 2000) else []).
Proof.
  simp poll.
  set (r := after_reply documentId (S attempts) (settled (server (S attempts)))).
  generalize (inspect r). intros [[effs c] e].
  destruct c; simp poll; rewrite e; simpl; [reflexivity|].
  now rewrite app_nil_r.
Qed.

(** Induction along the calls of [poll]. *)
Lemma poll_elim (P : nat -> Z -> list (Z * Effect) -> Prop) :
  (forall attempts now effs,
      after_reply documentId (S attempts) (settled (server (S attempts))) = (effs, false) ->
      P attempts now
        ((now, request (S attempts)) :: stamp (now + latency (server (S attempts))) effs)) ->
  (forall attempts now effs,
      after_reply documentId (S attempts) (settled (server (S attempts))) = (effs, true) ->
      let t := now + latency (server (S attempts)) in
      P (S attempts) (t + 2000) (poll (S attempts) (t + 2000)) ->
      P attempts now
        ((now, request (S attempts)) :: stamp t effs ++ poll (S attempts) (t + 2000))) ->
  forall attempts now, P attempts now (poll attempts now).
Proof.
  intros Hstop Hcont attempts.
  remember (maxAttempts - attempts)%nat as n eqn:Hn.
  revert attempts Hn.
  induction n as [n IH] using lt_wf_ind. intros attempts Hn now.
  rewrite poll_unfold.
  destruct (after_reply documentId (S attempts) (settled (server (S attempts))))
    as [effs c] eqn:E.
  simpl. destruct c.
  - apply Hcont; [exact E|].
    apply after_reply_continue in E.
    apply (IH (maxAttempts - S attempts)%nat); [lia|reflexivity].
  - rewrite app_nil_r. apply Hstop. exact E.
Qed.

Lemma effects_stamp (t : Z) (effs : list Effect) : effects (stamp t effs) = effs.
Proof. unfold effects, stamp. rewrite map_map. simpl. apply map_id. Qed.

Lemma effects_step (now t : Z) (k : nat) (effs : list Effect) (rest : list (Z * Effect)) :
  effects ((now, request k) :: stamp t effs ++ rest) = request k :: effs ++ effects rest.
Proof. unfold effects. simpl. rewrite map_app. f_equal. f_equal. apply effects_stamp. Qed.

(** Case analysis of the branch [poll] takes after a reply. *)
Ltac after_reply_cases E :=
  unfold after_reply in E;
  repeat match type of E with
  | context [match ?r with Resolved _ => _ | Rejected => _ end] => destruct r
  | context [if String.eqb ?a ?b then _ else _] => destruct (String.eqb a b) eqn:?
  | context [if (?a <=? ?b)%nat then _ else _] => destruct (Nat.leb_spec a b)
  end;
  inversion E; subst; clear E.

Local Abbreviation bound_message := (JobPoller.bound_message server).

Lemma bound_message_not_failed (js : AsyncProcessingStatus) : bound_message <> failed_message js.
Proof.
  unfold JobPoller.bound_message, failed_message, timeout_message, monitor_message.
  destruct (settled (server maxAttempts)); simpl; discriminate.
Qed.

Local Arguments maxAttempts : simpl never.

Lemma poll_in_progress (attempts : nat) (now : Z) :
  (attempts < maxAttempts)%nat ->
  (forall k, (attempts < k <= maxAttempts)%nat -> in_progress (settled (server k)) = true) ->
  let tr := effects (poll attempts now) in
  length (List.filter is_request tr) = (maxAttempts - attempts)%nat /\
  List.filter is_timer_call tr = repeat (SetTimeout 2000) (maxAttempts - attempts - 1) /\
  List.filter is_toast tr = [ToastError bound_message] /\
  exists pre, tr = pre ++ [ToastError bound_message].
Proof.
  apply (poll_elim (fun attempts now tr =>
    (attempts < maxAttempts)%nat ->
    (forall k, (attempts < k <= maxAttempts)%nat -> in_progress (settled (server k)) = true) ->
    length (List.filter is_request (effects tr)) = (maxAttempts - attempts)%nat /\
    List.filter is_timer_call (effects tr) =
      repeat (SetTimeout 2000) (maxAttempts - attempts - 1) /\
    List.filter is_toast (effects tr) = [ToastError bound_message] /\
    exists pre, effects tr = pre ++ [ToastError bound_message])); clear attempts now.
  - intros attempts now effs E Hlt Hall.
    specialize (Hall (S attempts) ltac:(lia)).
    assert (S attempts = maxAttempts) as Hlast.
    { pose proof E as E'. after_reply_cases E'; simpl in Hall;
        repeat match goal with H : String.eqb _ _ = true |- _ => rewrite H in Hall end;
        try discriminate Hall; lia. }
    replace (maxAttempts - attempts - 1)%nat with 0%nat by lia.
    unfold JobPoller.bound_message. rewrite <- Hlast.
    rewrite <- (app_nil_r (stamp _ effs)), effects_step.
    after_reply_cases E; simpl in Hall;
      repeat match goal with H : String.eqb _ _ = true |- _ => rewrite H in Hall end;
      try discriminate Hall; try lia.
    + simpl. repeat split; [lia|]. eexists [_; _; _]. reflexivity.
    + simpl. repeat split; [lia|]. eexists [_; _; _]. reflexivity.
  - intros attempts now effs E t IH Hlt Hall.
    pose proof (after_reply_continue _ _ _ _ E) as Hlt'.
    destruct IH as (Hreq & Htimer & Htoast & pre & Hpre);
      [exact Hlt'|intros k Hk; apply Hall; lia|].
    rewrite effects_step.
    replace (maxAttempts - attempts - 1)%nat with (S (maxAttempts - S attempts - 1)) by lia.
    after_reply_cases E; simpl; rewrite Hreq, Htimer, Htoast, Hpre.
    + repeat split; [lia|]. eexists (_ :: _ :: pre). reflexivity.
    + repeat split; [lia|]. eexists (_ :: _ :: _ :: pre). reflexivity.
Qed.

(** Whether [poll] re-arms the timeout after a reply. *)
Lemma after_reply_continues (k : nat) (r : Settled) :
  snd (after_reply documentId k r) = in_progress r && (k <? maxAttempts)%nat.
Proof.
  unfold after_reply, in_progress. destruct r as [js|].
  - destruct (String.eqb (status js) "completed"); [reflexivity|].
    destruct (String.eqb (status js) "failed"); [reflexivity|].
    rewrite Nat.ltb_antisym. destruct (maxAttempts <=? k)%nat; reflexivity.
  - rewrite Nat.ltb_antisym. destruct (maxAttempts <=? k)%nat; reflexivity.
Qed.

Lemma after_reply_routine (k : nat) (r : Settled) :
  snd (after_reply documentId k r) = true ->
  forallb is_routine (fst (after_reply documentId k r)) = true.
Proof.
  unfold after_reply. destruct r as [js|].
  - destruct (String.eqb (status js) "completed"); [discriminate|].
    destruct (String.eqb (status js) "failed"); [discriminate|].
    destruct (maxAttempts <=? k)%nat; [discriminate|reflexivity].
  - destruct (maxAttempts <=? k)%nat; [discriminate|reflexivity].
Qed.

(** The effects of the reply that ends a run. *)
Lemma after_reply_final (k : nat) (r : Settled) :
  snd (after_reply documentId k r) = false ->
  let effs := fst (after_reply documentId k r) in
  List.filter is_toast effs = [final_toast r] /\
  List.filter is_status_write effs =
    [SetDocumentStatus documentId (if completed r then ready else error)] /\
  List.filter is_invalidation effs =
    (if completed r
     then [InvalidateQueries documents_key; InvalidateQueries (document_key documentId)]
     else []) /\
  List.filter is_request effs = [] /\
  List.filter is_timer_call effs = [] /\
  exists pre, effs = pre ++ [final_toast r].
Proof.
  unfold after_reply, final_toast, completed. destruct r as [js|].
  - destruct (String.eqb (status js) "completed");
      [intros _; repeat split; eexists [_; _; _; _]; reflexivity|].
    destruct (String.eqb (status js) "failed");
      [intros _; repeat split; eexists [_]; reflexivity|].
    destruct (maxAttempts <=? k)%nat; [|discriminate].
    intros _; repeat split; eexists [_; _]; reflexivity.
  - destruct (maxAttempts <=? k)%nat; [|discriminate].
    intros _; repeat split; eexists [_; _]; reflexivity.
Qed.

Lemma routine_filter (P : Effect -> bool) (pre : list Effect) :
  (forall e, is_routine e = true -> P e = false) ->
  forallb is_routine pre = true ->
  List.filter P pre = [].
Proof.
  intros HP. induction pre as [|e pre IH]; [reflexivity|].
  cbn [forallb List.filter]. intros H. apply andb_true_iff in H. destruct H as [He Hpre].
  rewrite (HP e He). apply IH. exact Hpre.
Qed.

(** A run is routine up to the reply of the attempt at which it stops, and
    ends with the effects of that reply. *)
Lemma poll_ends (attempts : nat) (now : Z) :
  forall n,
    (attempts < n <= maxAttempts)%nat ->
    (forall k, (attempts < k < n)%nat -> in_progress (settled (server k)) = true) ->
    (n = maxAttempts \/ in_progress (settled (server n)) = false) ->
    snd (after_reply documentId n (settled (server n))) = false /\
    exists pre,
      effects (poll attempts now) =
        pre ++ fst (after_reply documentId n (settled (server n))) /\
      forallb is_routine pre = true.
Proof.
  apply (poll_elim (fun attempts now tr =>
    forall n,
      (attempts < n <= maxAttempts)%nat ->
      (forall k, (attempts < k < n)%nat -> in_progress (settled (server k)) = true) ->
      (n = maxAttempts \/ in_progress (settled (server n)) = false) ->
      snd (after_reply documentId n (settled (server n))) = false /\
      exists pre,
        effects tr = pre ++ fst (after_reply documentId n (settled (server n))) /\
        forallb is_routine pre = true)); clear attempts now.
  - intros attempts now effs E n Hn Hbefore Hlast.
    pose proof (after_reply_continues (S attempts) (settled (server (S attempts)))) as Hc.
    rewrite E in Hc. cbn [snd] in Hc.
    assert (n = S attempts) as ->.
    { destruct (Nat.eq_dec n (S attempts)) as [|Hne]; [assumption|].
      rewrite (Hbefore (S attempts)) in Hc by lia.
      symmetry in Hc. apply andb_false_iff in Hc. destruct Hc as [Hc|Hc];
        [discriminate|]. apply Nat.ltb_ge in Hc. lia. }
    rewrite E. split; [reflexivity|].
    exists [request (S attempts)].
    rewrite <- (app_nil_r (stamp _ effs)), effects_step.
    cbn. rewrite app_nil_r. split; reflexivity.
  - intros attempts now effs E t IH n Hn Hbefore Hlast.
    pose proof (after_reply_continues (S attempts) (settled (server (S attempts)))) as Hc.
    pose proof (after_reply_routine (S attempts) (settled (server (S attempts)))) as Hr.
    rewrite E in Hc, Hr. cbn [fst snd] in Hc, Hr.
    symmetry in Hc. apply andb_true_iff in Hc. destruct Hc as [Hprog Hlt].
    apply Nat.ltb_lt in Hlt.
    assert (S attempts < n)%nat as Hmore.
    { destruct (Nat.eq_dec n (S attempts)) as [->|Hne]; [|lia].
      destruct Hlast as [Hlast|Hlast]; [lia|congruence]. }
    destruct (IH n) as (Hstop & pre & Hpre & Hroutine);
      [lia|intros k Hk; apply Hbefore; lia|exact Hlast|].
    split; [exact Hstop|].
    exists (request (S attempts) :: effs ++ pre).
    rewrite effects_step, Hpre. split.
    + cbn. now rewrite <- app_assoc.
    + cbn. rewrite forallb_app, (Hr eq_refl), Hroutine. reflexivity.
Qed.

(** The outcome of a run that stops at attempt [n], read off the reply to
    that attempt. *)
Lemma poll_outcome (now : Z) (n : nat) :
  stops_at server n ->
  let tr := effects (pollAsyncJobStatus server documentId jobId now) in
  let reply := settled (server n) in
  List.filter is_toast tr = [final_toast reply] /\
  (exists pre, tr = pre ++ [final_toast reply]) /\
  List.filter is_status_write tr =
    [SetDocumentStatus documentId (if completed reply then ready else error)] /\
  List.filter is_invalidation tr =
    (if completed reply
     then [InvalidateQueries documents_key; InvalidateQueries (document_key documentId)]
     else []).
Proof.
  intros (Hn & Hbefore & Hlast). cbv zeta. unfold pollAsyncJobStatus.
  destruct (poll_ends 0 now n) as (Hstop & pre & -> & Hroutine);
    [lia|intros k Hk; apply Hbefore; lia|exact Hlast|].
  destruct (after_reply_final n (settled (server n)) Hstop)
    as (Htoast & Hst & Hinv & _ & _ & last & Hfinal).
  rewrite !List.filter_app, Htoast, Hst, Hinv.
  rewrite !(routine_filter _ pre) by (assumption || (intros [] ?; (discriminate || reflexivity))).
  repeat split.
  exists (pre ++ last). rewrite Hfinal. now rewrite app_assoc.
Qed.

(** The request times of a run follow the timetable. *)
Lemma poll_schedule (attempts : nat) (now : Z) :
  forall n,
    (attempts < n <= maxAttempts)%nat ->
    (forall k, (attempts < k < n)%nat -> in_progress (settled (server k)) = true) ->
    (n = maxAttempts \/ in_progress (settled (server n)) = false) ->
    request_times (poll attempts now) = schedule server attempts now (n - attempts).
Proof.
  apply (poll_elim (fun attempts now tr =>
    forall n,
      (attempts < n <= maxAttempts)%nat ->
      (forall k, (attempts < k < n)%nat -> in_progress (settled (server k)) = true) ->
      (n = maxAttempts \/ in_progress (settled (server n)) = false) ->
      request_times tr = schedule server attempts now (n - attempts))); clear attempts now.
  - intros attempts now effs E n Hn Hbefore Hlast.
    pose proof (after_reply_continues (S attempts) (settled (server (S attempts)))) as Hc.
    rewrite E in Hc. cbn [snd] in Hc.
    assert (n = S attempts) as ->.
    { destruct (Nat.eq_dec n (S attempts)) as [|Hne]; [assumption|].
      rewrite (Hbefore (S attempts)) in Hc by lia.
      symmetry in Hc. apply andb_false_iff in Hc. destruct Hc as [Hc|Hc];
        [discriminate|]. apply Nat.ltb_ge in Hc. lia. }
    replace (S attempts - attempts)%nat with 1%nat by lia.
    unfold request_times. cbn. f_equal.
    pose proof (after_reply_final (S attempts) (settled (server (S attempts)))) as Hf.
    rewrite E in Hf. destruct (Hf eq_refl) as (_ & _ & _ & Hreq & _).
    cbn [fst] in Hreq. clear - Hreq.
    induction effs as [|e effs IH]; [reflexivity|].
    cbn in *. destruct (is_request e); [discriminate|]. apply IH. exact Hreq.
  - intros attempts now effs E t IH n Hn Hbefore Hlast.
    pose proof (after_reply_continues (S attempts) (settled (server (S attempts)))) as Hc.
    pose proof (after_reply_routine (S attempts) (settled (server (S attempts)))) as Hr.
    rewrite E in Hc, Hr. cbn [fst snd] in Hc, Hr.
    symmetry in Hc. apply andb_true_iff in Hc. destruct Hc as [Hprog Hlt].
    apply Nat.ltb_lt in Hlt.
    assert (S attempts < n)%nat as Hmore.
    { destruct (Nat.eq_dec n (S attempts)) as [->|Hne]; [|lia].
      destruct Hlast as [Hlast|Hlast]; [lia|congruence]. }
    specialize (IH n ltac:(lia) ltac:(intros k Hk; apply Hbefore; lia) Hlast).
    replace (n - attempts)%nat with (S (n - S attempts)) by lia.
    cbn [schedule]. fold t. rewrite <- IH.
    unfold request_times. cbn. f_equal. rewrite List.filter_app, map_app.
    assert (List.filter (fun x => is_request (snd x)) (stamp t effs) = []) as ->; [|reflexivity].
    pose proof (after_reply_continue _ _ _ _ E) as _.
    assert (effs = [SetTimeout 2000] \/
            effs = [Console (Js.ConsoleError "Error polling async job status:");
                    SetTimeout 2000]) as [-> | ->];
      [|reflexivity|reflexivity].
    clear - E. after_reply_cases E; auto.
Qed.

(** C5, amended. A polling run whose 150 attempts all pass without a
    terminal backend status stops after exactly 150 requests, 149 times
    re-armed by a 2000 ms timeout, writes the status error into the detail
    cache entry, requests no invalidation and ends with one error toast.
    The toast carries the timed-out message when the 150th request
    resolved; when the 150th request was rejected it carries the
    failed-to-monitor message instead.  Either differs from every message
    reported for a backend failed status. *)
Theorem pollAsyncJobStatus_timeout (now : Z) :
  (forall k, (1 <= k <= maxAttempts)%nat -> in_progress (settled (server k)) = true) ->
  let tr := effects (pollAsyncJobStatus server documentId jobId now) in
  let message :=
    match settled (server maxAttempts) with
    | Resolved _ => timeout_message
    | Rejected => monitor_message
    end in
  length (List.filter is_request tr) = 150%nat /\
  List.filter is_timer_call tr = repeat (SetTimeout 2000) 149 /\
  List.filter is_toast tr = [ToastError message] /\
  (exists pre, tr = pre ++ [ToastError message]) /\
  List.filter is_status_write tr = [SetDocumentStatus documentId error] /\
  List.filter is_invalidation tr = [] /\
  (forall js, timeout_message <> failed_message js /\
              monitor_message <> failed_message js).
Proof.
  intros Hall.
  destruct (poll_in_progress 0 now) as (Hreq & Htimer & _).
  { unfold maxAttempts; lia. }
  { intros k Hk. apply Hall. lia. }
  assert (stops_at server maxAttempts) as Hstop.
  { repeat split; [unfold maxAttempts; lia|lia|intros k Hk; apply Hall; lia|now left]. }
  destruct (poll_outcome now maxAttempts Hstop) as (Htoast & Hpre & Hst & Hinv).
  pose proof (Hall maxAttempts ltac:(unfold maxAttempts; lia)) as Hlast.
  assert (final_toast (settled (server maxAttempts)) =
          ToastError match settled (server maxAttempts) with
                     | Resolved _ => timeout_message
                     | Rejected => monitor_message
                     end) as Hfinal.
  { unfold final_toast. unfold in_progress in Hlast.
    destruct (settled (server maxAttempts)) as [js|]; [|reflexivity].
    destruct (String.eqb (status js) "completed"); [discriminate|].
    destruct (String.eqb (status js) "failed"); [discriminate|reflexivity]. }
  assert (completed (settled (server maxAttempts)) = false) as Hnot.
  { unfold completed. unfold in_progress in Hlast.
    destruct (settled (server maxAttempts)) as [js|]; [|reflexivity].
    destruct (String.eqb (status js) "completed"); [discriminate|reflexivity]. }
  rewrite Hfinal in Htoast, Hpre. rewrite Hnot in Hst, Hinv.
  unfold pollAsyncJobStatus in *. cbv zeta.
  repeat apply conj; try assumption.
  intros js. unfold timeout_message, monitor_message, failed_message.
  split; discriminate.
Qed.

(** C6, amended. Every polling run ends with exactly one toast and one
    write of the document status into the detail cache entry, both decided
    by the reply to the attempt at which the run stops.  When that reply
    reads a completed job, the status written is ready and invalidation of
    the document list and of the document's detail entry is requested,
    once each; when it reads a failed job, or no terminal status at the
    last attempt allowed, or when that attempt was rejected, the status
    written is error and no invalidation is requested.  The status query,
    for its part, requests both invalidations whenever [refetchInterval]
    is evaluated on a terminal document status, of whatever kind. *)
Theorem pollAsyncJobStatus_invalidations (now : Z) (n : nat) :
  stops_at server n ->
  let tr := effects (pollAsyncJobStatus server documentId jobId now) in
  let reply := settled (server n) in
  List.filter is_toast tr = [final_toast reply] /\
  List.filter is_invalidation tr =
    (if completed reply
     then [InvalidateQueries documents_key; InvalidateQueries (document_key documentId)]
     else []) /\
  List.filter is_status_write tr =
    [SetDocumentStatus documentId (if completed reply then ready else error)] /\
  (completed reply = true <-> existsb is_success tr = true) /\
  map (fun st => List.filter is_invalidation (snd (refetchInterval documentId (Some st))))
      terminalStates =
    repeat [InvalidateQueries documents_key; InvalidateQueries (document_key documentId)] 5.
Proof.
  intros Hstop.
  destruct (poll_outcome now n Hstop) as (Htoast & _ & Hst & Hinv).
  cbv zeta. repeat apply conj; try assumption; try reflexivity.
  - intros Hc.
    assert (In (final_toast (settled (server n)))
              (List.filter is_toast (effects (pollAsyncJobStatus server documentId jobId now))))
      as Hin by (rewrite Htoast; now left).
    apply List.filter_In in Hin. destruct Hin as [Hin _].
    apply existsb_exists. eexists. split; [exact Hin|].
    unfold final_toast, completed in *.
    destruct (settled (server n)) as [js|]; [|discriminate].
    rewrite Hc. reflexivity.
  - intros Hex. apply existsb_exists in Hex. destruct Hex as (e & Hin & He).
    assert (In e (List.filter is_toast
                    (effects (pollAsyncJobStatus server documentId jobId now)))) as Hin'.
    { apply List.filter_In. split; [exact Hin|]. destruct e; try discriminate; reflexivity. }
    rewrite Htoast in Hin'. destruct Hin' as [<-|[]].
    unfold final_toast, completed in *.
    destruct (settled (server n)) as [js|]; [|discriminate].
    destruct (String.eqb (status js) "completed"); [reflexivity|].
    destruct (String.eqb (status js) "failed"); discriminate.
Qed.

(** The request times of a run: the first request is issued at once, each
    further one 2000 ms after the previous reply settled. *)
Lemma request_times_poll (attempts : nat) (now : Z) :
  request_times (poll attempts now) =
    now :: (if snd (after_reply documentId (S attempts) (settled (server (S attempts))))
            then request_times (poll (S attempts) (now + latency (server (S attempts)) + 2000))
            else []).
Proof.
  rewrite poll_unfold at 1. cbv zeta. unfold request_times. simpl.
  rewrite List.filter_app, map_app.
  assert (List.filter (fun x => is_request x.2)
            (stamp (now + latency (server (S attempts)))
               (after_reply documentId (S attempts) (settled (server (S attempts)))).1) = [])
    as ->.
  { destruct (after_reply _ _ _) as [effs c] eqn:E.
    after_reply_cases E; reflexivity. }
  simpl. destruct (snd _); reflexivity.
Qed.

End JobPollerFacts.

Lemma pollAsyncJobStatus_timeout_witness :
  let tr := JobPoller.effects (JobPoller.pollAsyncJobStatus JobPoller.slow_server "doc_1" "job_1" 0) in
  length (List.filter is_request tr) = 150%nat /\
  List.filter is_toast tr = [ToastError JobPoller.timeout_message].
Proof.
  pose proof (pollAsyncJobStatus_timeout JobPoller.slow_server "doc_1" "job_1" 0) as H.
  destruct H as (Hreq & _ & Htoast & _); [intros k Hk; reflexivity|].
  split; [exact Hreq|exact Htoast].
Defined.

(** C5, as stated, fails: the job is in progress at every one of the 150
    attempts, yet the run does not report the timed-out outcome, because
    the last request was rejected. *)
Lemma rejected_last_attempt_not_timed_out :
  let tr := JobPoller.effects
              (JobPoller.pollAsyncJobStatus JobPoller.rejecting_server "doc_1" "job_1" 0) in
  forallb (fun k => JobPoller.in_progress (JobPoller.settled (JobPoller.rejecting_server k)))
          (seq 1 150) = true /\
  length (List.filter is_request tr) = 150%nat /\
  List.filter is_toast tr = [ToastError "Failed to monitor document processing"] /\
  existsb (fun e => bool_decide (e = ToastError JobPoller.timeout_message)) tr = false.
Proof. vm_compute. repeat split. Qed.

Lemma pollAsyncJobStatus_invalidations_witness :
  let tr := JobPoller.effects
              (JobPoller.pollAsyncJobStatus JobPoller.completing_server "doc_1" "job_1" 0) in
  List.filter is_toast tr = [ToastSuccess JobPoller.completed_message] /\
  List.filter is_invalidation tr =
    [InvalidateQueries ["documents"]; InvalidateQueries ["documents"; "doc_1"]] /\
  List.filter is_status_write tr = [SetDocumentStatus "doc_1" ready].
Proof.
  pose proof (pollAsyncJobStatus_invalidations JobPoller.completing_server "doc_1" "job_1" 0 3)
    as H.
  destruct H as (Htoast & Hinv & Hst & _).
  { repeat split; [vm_compute; lia|vm_compute; lia| |now right].
    intros k Hk. destruct k as [|[|[|k]]]; try lia; reflexivity. }
  repeat split; assumption.
Defined.

(** C6, as stated, fails: on a failed job, and on a run that times out, the
    poller reports the terminal outcome but requests no invalidation. *)
Lemma failed_job_no_invalidation :
  let failed := JobPoller.effects (JobPoller.pollAsyncJobStatus JobPoller.failing_server "doc_1" "job_1" 0) in
  let timed_out := JobPoller.effects (JobPoller.pollAsyncJobStatus JobPoller.slow_server "doc_1" "job_1" 0) in
  List.filter is_toast failed =
    [ToastError "Document processing failed: OCR engine crashed"] /\
  List.filter is_invalidation failed = [] /\
  List.filter is_toast timed_out = [ToastError JobPoller.timeout_message] /\
  List.filter is_invalidation timed_out = [].
Proof. repeat split; vm_compute; reflexivity. Qed.

(** ** The status hook *)

Section StatusPollingFacts.

Import StatusPolling.

(** One run of the effect when the hook is enabled: the interval of the
    run before is cleared, a request is made, a new interval is set. *)
Lemma effect_enabled (s : State) :
  enabled (documentId s) = true ->
  effect s =
    ({| api := fst (UseApi.execute Result (api s));
        intervalRef := Some (next_timer s);
        intervals :=
          match intervalRef s with
          | Some t => List.filter (fun x => negb (Pos.eqb (fst x) t)) (intervals s)
          | None => intervals s
          end ++ [(next_timer s, documentId s)];
        next_timer := Pos.succ (next_timer s);
        documentId := documentId s |},
     cleared (intervalRef s)
       ++ [ GetDocumentStatus (UseApi.fresh (api s)) (documentId s);
            Browser (SetInterval (next_timer s) interval) ]).
Proof.
  intros H. unfold effect, usePolling_effect, startPolling. rewrite H.
  destruct (intervalRef s); reflexivity.
Qed.

Lemma effect_disabled (s : State) :
  enabled (documentId s) = false ->
  effect s =
    ({| api := api s; intervalRef := None;
        intervals :=
          match intervalRef s with
          | Some t => List.filter (fun x => negb (Pos.eqb (fst x) t)) (intervals s)
          | None => intervals s
          end;
        next_timer := next_timer s; documentId := documentId s |},
     cleared (intervalRef s)).
Proof.
  intros H. unfold effect, usePolling_effect. rewrite H.
  destruct (intervalRef s); reflexivity.
Qed.

Lemma filter_cleared (ref : option positive) :
  List.filter is_get (cleared ref) = [] /\ List.filter is_set (cleared ref) = [].
Proof. destruct ref; split; reflexivity. Qed.

(** A render with a document id: the requests it makes and the interval it
    leaves. *)
Lemma render_enabled (s : State) :
  enabled (documentId s) = true ->
  let c := UseApi.fresh (api s) in
  let t := next_timer s in
  let id := documentId s in
  render s =
    if execute_rerenders s then
      ({| api := fst (UseApi.execute Result (fst (UseApi.execute Result (api s))));
          intervalRef := Some (Pos.succ t);
          intervals :=
            List.filter (fun x => negb (Pos.eqb (fst x) t))
              (match intervalRef s with
               | Some t0 => List.filter (fun x => negb (Pos.eqb (fst x) t0)) (intervals s)
               | None => intervals s
               end ++ [(t, id)]) ++ [(Pos.succ t, id)];
          next_timer := Pos.succ (Pos.succ t);
          documentId := id |},
       cleared (intervalRef s)
         ++ [ GetDocumentStatus c id; Browser (SetInterval t interval);
              Browser (ClearInterval t);
              GetDocumentStatus (Pos.succ c) id; Browser (SetInterval (Pos.succ t) interval) ])
    else
      ({| api := fst (UseApi.execute Result (api s));
          intervalRef := Some t;
          intervals :=
            match intervalRef s with
            | Some t0 => List.filter (fun x => negb (Pos.eqb (fst x) t0)) (intervals s)
            | None => intervals s
            end ++ [(t, id)];
          next_timer := Pos.succ t;
          documentId := id |},
       cleared (intervalRef s)
         ++ [ GetDocumentStatus c id; Browser (SetInterval t interval) ]).
Proof.
  intros H. cbv zeta. unfold render. rewrite (effect_enabled s H), H. cbn [andb].
  destruct (execute_rerenders s); [|reflexivity].
  rewrite effect_enabled by exact H.
  cbn [api intervalRef intervals next_timer documentId fst snd UseApi.execute UseApi.fresh
       cleared app].
  rewrite <- app_assoc. reflexivity.
Qed.

(** After a render with a document id a request is under way: [execute]
    would not change the state, so no further render is due. *)
Lemma render_settles (s : State) :
  enabled (documentId s) = true -> execute_rerenders (fst (render s)) = false.
Proof.
  intros H. pose proof (render_enabled s H) as E. cbv zeta in E. rewrite E.
  destruct (execute_rerenders s); reflexivity.
Qed.

Lemma pending_interval_last (t : positive) (id : string) (l : list (positive * string)) :
  Forall (fun x => fst x <> t) l -> pending_interval t (l ++ [(t, id)]) = Some id.
Proof.
  induction 1 as [|[t' id'] l Hx _ IH]; cbn.
  - now rewrite Pos.eqb_refl.
  - cbn in Hx. destruct (Pos.eqb_spec t' t); [contradiction|exact IH].
Qed.

Lemma filter_below (t t0 : positive) (l : list (positive * string)) :
  Forall (fun x => (fst x < t)%positive) l ->
  Forall (fun x => fst x <> t) (List.filter (fun x => negb (Pos.eqb (fst x) t0)) l).
Proof.
  intros H. apply Forall_forall. intros x Hx. apply list_elem_of_In, filter_In in Hx.
  destruct Hx as [Hx _]. rewrite Forall_forall in H.
  specialize (H x (proj2 (list_elem_of_In _ _) Hx)). lia.
Qed.

(** What a render with document id [id] does, from any state of the hook:
    it requests the status of [id] at once, twice when no request was under
    way, and leaves one interval of 2000 ms, whose callback requests the
    status of [id] once. *)
Lemma rendered_polls (s : State) (id : string) :
  enabled id = true ->
  let s' := fst (step s (Rendered id)) in
  let calls := snd (step s (Rendered id)) in
  let c := UseApi.fresh (api s) in
  List.filter is_get calls =
    GetDocumentStatus c id
      :: (if execute_rerenders s then [GetDocumentStatus (Pos.succ c) id] else []) /\
  (exists t pre,
      intervalRef s' = Some t /\
      calls = cleared (intervalRef s) ++ pre ++ [Browser (SetInterval t 2000)] /\
      (well_formed s ->
       pending_interval t (intervals s') = Some id /\
       snd (step s' (Fired t)) = [GetDocumentStatus (UseApi.fresh (api s')) id])).
Proof.
  intros H. cbv zeta. cbn [step].
  assert (enabled (documentId (set_documentId id s)) = true) as H' by exact H.
  pose proof (render_settles _ H') as Hsettled.
  pose proof (render_enabled _ H') as E. cbv zeta in E.
  cbn [set_documentId api intervalRef intervals next_timer documentId] in E.
  assert (execute_rerenders (set_documentId id s) = execute_rerenders s) as Hr by reflexivity.
  rewrite Hr in E. rewrite E in Hsettled |- *. clear E Hr.
  destruct (execute_rerenders s); cbn [fst snd].
  - split.
    { rewrite List.filter_app, (proj1 (filter_cleared _)). reflexivity. }
    exists (Pos.succ (next_timer s)),
      [ GetDocumentStatus (UseApi.fresh (api s)) id; Browser (SetInterval (next_timer s) interval);
        Browser (ClearInterval (next_timer s));
        GetDocumentStatus (Pos.succ (UseApi.fresh (api s))) id ].
    split; [reflexivity|]. split; [reflexivity|].
    intros Hwf.
    assert (pending_interval (Pos.succ (next_timer s))
              (List.filter (fun x => negb (Pos.eqb (fst x) (next_timer s)))
                 (match intervalRef s with
                  | Some t0 => List.filter (fun x => negb (Pos.eqb (fst x) t0)) (intervals s)
                  | None => intervals s
                  end ++ [(next_timer s, id)]) ++ [(Pos.succ (next_timer s), id)]) = Some id)
      as Hp.
    { apply pending_interval_last. apply Forall_forall. intros x Hx.
      apply list_elem_of_In, filter_In in Hx. destruct Hx as [Hx _].
      apply in_app_or in Hx. destruct Hx as [Hx|[<-|[]]]; [|cbn; lia].
      unfold well_formed in Hwf. rewrite Forall_forall in Hwf.
      assert (In x (intervals s)) as Hin.
      { destruct (intervalRef s); [apply filter_In in Hx; tauto|exact Hx]. }
      specialize (Hwf x (proj2 (list_elem_of_In _ _) Hin)). lia. }
    split; [exact Hp|].
    cbn [step intervals]. rewrite Hp. cbn in Hsettled. unfold execute_rerenders. cbn.
    reflexivity.
  - split.
    { rewrite List.filter_app, (proj1 (filter_cleared _)). reflexivity. }
    exists (next_timer s), [GetDocumentStatus (UseApi.fresh (api s)) id].
    split; [reflexivity|]. split; [reflexivity|].
    intros Hwf.
    assert (pending_interval (next_timer s)
              (match intervalRef s with
               | Some t0 => List.filter (fun x => negb (Pos.eqb (fst x) t0)) (intervals s)
               | None => intervals s
               end ++ [(next_timer s, id)]) = Some id) as Hp.
    { apply pending_interval_last. unfold well_formed in Hwf.
      destruct (intervalRef s); [now apply filter_below|].
      eapply Forall_impl; [exact Hwf|]. cbn. intros x Hx. lia. }
    split; [exact Hp|].
    cbn [step intervals]. rewrite Hp. unfold execute_rerenders. cbn. reflexivity.
Qed.

(** The interval in [intervalRef] is cleared by the next render, whatever
    its argument, and by the unmount. *)
Lemma rendered_clears (s : State) (id : string) (t : positive) :
  intervalRef s = Some t ->
  (exists calls, snd (step s (Rendered id)) = Browser (ClearInterval t) :: calls) /\
  snd (step s Unmounted) = [Browser (ClearInterval t)].
Proof.
  intros Ht. split.
  - cbn [step]. destruct (enabled id) eqn:E.
    + assert (enabled (documentId (set_documentId id s)) = true) as H' by exact E.
      pose proof (render_enabled _ H') as R. cbv zeta in R. rewrite R.
      cbn [set_documentId intervalRef]. rewrite Ht.
      destruct (execute_rerenders _); eexists; reflexivity.
    + unfold render. 
      assert (enabled (documentId (set_documentId id s)) = false) as H' by exact E.
      rewrite (effect_disabled _ H'), H'. cbn [andb snd set_documentId intervalRef].
      rewrite Ht. eexists; reflexivity.
  - cbn [step UseApi.unmount]. rewrite Ht. reflexivity.
Qed.

End StatusPollingFacts.

(** ** The upload hook *)

Section DocumentUploadFacts.

Import DocumentUpload.

Lemma notices_progressInterval (ns : list (UseApi.Notice Response)) (s : State) :
  progressInterval (fst (notices s ns)) = progressInterval s /\
  api (fst (notices s ns)) = api s /\
  next_timer (fst (notices s ns)) = next_timer s.
Proof.
  revert s. induction ns as [|n ns IH]; intros s; [repeat split; reflexivity|].
  cbn [notices]. destruct (notice s n) as [s1 c1] eqn:E1.
  destruct (notices s1 ns) as [s2 c2] eqn:E2. cbn [fst].
  specialize (IH s1). rewrite E2 in IH. cbn [fst] in IH.
  destruct IH as (IH1 & IH2 & IH3). rewrite IH1, IH2, IH3.
  destruct n; cbn in E1; inversion E1; subst; repeat split; reflexivity.
Qed.

Lemma handle_fresh (ev : UseApi.Event Response) (a : UseApi.State Response) :
  match ev with UseApi.Resolve _ _ | UseApi.Reject _ _ => True | _ => False end ->
  UseApi.fresh (fst (UseApi.handle Response ev a)) = UseApi.fresh a.
Proof.
  destruct ev as [|c r|c err| |]; try contradiction; intros _; cbn [UseApi.handle].
  - destruct (bool_decide _); [|reflexivity].
    unfold UseApi.resolved, UseApi.caught, UseApi.current_aborted, UseApi.settle. cbn.
    destruct (UseApi.abortControllerRef a); cbn; [destruct (bool_decide _)|]; reflexivity.
  - destruct (bool_decide _); [|reflexivity].
    unfold UseApi.caught, UseApi.current_aborted, UseApi.settle. cbn.
    destruct (UseApi.abortControllerRef a); cbn; [destruct (bool_decide _)|]; reflexivity.
Qed.

Lemma settled_spec (c : positive) (ev : UseApi.Event Response) (resolved : bool)
    (s : State) (t : positive) :
  match ev with UseApi.Resolve _ _ | UseApi.Reject _ _ => True | _ => False end ->
  progressInterval s !! c = Some t ->
  (exists calls, snd (settled c ev resolved s) = Browser (ClearInterval t) :: calls) /\
  progressInterval (fst (settled c ev resolved s)) = delete c (progressInterval s) /\
  UseApi.fresh (api (fst (settled c ev resolved s))) = UseApi.fresh (api s) /\
  next_timer (fst (settled c ev resolved s)) = next_timer s.
Proof.
  intros Hev Ht. unfold settled. rewrite Ht.
  pose proof (handle_fresh ev (api s) Hev) as Hf.
  destruct (UseApi.handle Response ev (api s)) as [a ns]. cbn [fst] in Hf.
  match goal with |- context [notices ?s0 ns] =>
    pose proof (notices_progressInterval ns s0) as (Hp & Ha & Hn);
    destruct (notices s0 ns) as [s' calls] end.
  cbn [fst snd] in *. rewrite Hp, Ha, Hn. cbn.
  split; [eexists; reflexivity|]. split; [reflexivity|]. split; [exact Hf|reflexivity].
Qed.

Lemma notices_no_clear (ns : list (UseApi.Notice Response)) (s : State) :
  Forall (fun call => forall x, call <> Browser (ClearInterval x)) (snd (notices s ns)).
Proof.
  revert s. induction ns as [|n ns IH]; intros s; [constructor|].
  cbn [notices]. destruct (notice s n) as [s1 c1] eqn:E1.
  specialize (IH s1). destruct (notices s1 ns) as [s2 c2]. cbn [snd] in *.
  apply Forall_app. split; [|exact IH].
  destruct n; cbn in E1; inversion E1; subst;
    repeat (constructor; [intros x; discriminate|]); constructor.
Qed.

Lemma settled_others (c c' t : positive) (ev : UseApi.Event Response) (resolved : bool)
    (s : State) :
  match ev with UseApi.Resolve _ _ | UseApi.Reject _ _ => True | _ => False end ->
  uploading_with c t s -> c' <> c ->
  uploading_with c t (fst (settled c' ev resolved s)) /\
  Forall (fun call => call <> Browser (ClearInterval t)) (snd (settled c' ev resolved s)).
Proof.
  intros Hev (Hc & Hlt & Ht & Huniq) Hne.
  destruct (progressInterval s !! c') as [t0|] eqn:E.
  - destruct (settled_spec c' ev resolved s t0 Hev E) as ((calls & Hcalls) & Hp & Hf & Hn).
    split.
    + repeat split.
      * rewrite Hp, lookup_delete_ne by congruence. exact Hc.
      * now rewrite Hf.
      * now rewrite Hn.
      * intros c0 H0. rewrite Hp in H0. apply lookup_delete_Some in H0.
        apply Huniq. tauto.
    + rewrite Hcalls. constructor.
      * intros [= ->]. apply Hne. now apply Huniq.
      * unfold settled in Hcalls. rewrite E in Hcalls.
        destruct (UseApi.handle Response ev (api s)) as [a ns].
        match type of Hcalls with context [notices ?s0 ns] =>
          pose proof (notices_no_clear ns s0) as Hno;
          destruct (notices s0 ns) as [s' calls'] end.
        cbn [snd] in *. inversion Hcalls; subst calls.
        eapply Forall_impl; [exact Hno|]. cbn. intros call Hcall. apply Hcall.
  - unfold settled. rewrite E. split; [repeat split; assumption|constructor].
Qed.

(** A step that does not settle the upload leaves its progress interval
    alone. *)
Lemma step_keeps_upload (c t : positive) (s : State) (ev : Event) :
  uploading_with c t s -> settles c ev = false ->
  uploading_with c t (fst (step s ev)) /\
  Forall (fun call => call <> Browser (ClearInterval t)) (snd (step s ev)).
Proof.
  intros Hup Hev. destruct ev as [|t' random|c' doc|c' err]; cbn [step].
  - destruct Hup as (Hc & Hlt & Ht & Huniq). unfold execute. cbn. split.
    + repeat split; cbn; try lia.
      * rewrite lookup_insert_ne by lia. exact Hc.
      * intros c0 H0. apply lookup_insert_Some in H0.
        destruct H0 as [[_ H0]|[_ H0]]; [lia|now apply Huniq].
    + constructor; [discriminate|]. constructor; [discriminate|constructor].
  - unfold fired. destruct (is_pending t' s); cbn; (split; [exact Hup|constructor]).
  - cbn in Hev. apply Pos.eqb_neq in Hev. now apply settled_others.
  - cbn in Hev. apply Pos.eqb_neq in Hev. now apply settled_others.
Qed.

(** The progress interval of an upload is cleared when the upload settles,
    and not before. *)
Lemma progress_interval_cleared (c t : positive) (s : State) (evs : list Event) (ev : Event) :
  uploading_with c t s ->
  forallb (fun ev => negb (settles c ev)) evs = true ->
  settles c ev = true ->
  let s1 := fst (run s evs) in
  Forall (fun call => call <> Browser (ClearInterval t)) (snd (run s evs)) /\
  progressInterval s1 !! c = Some t /\
  (exists calls, snd (step s1 ev) = Browser (ClearInterval t) :: calls) /\
  progressInterval (fst (step s1 ev)) !! c = None.
Proof.
  revert s. induction evs as [|e evs IH]; intros s Hup Hevs Hev; cbv zeta.
  - cbn [run fst snd]. split; [constructor|]. destruct Hup as (Hc & _).
    split; [exact Hc|].
    destruct ev as [|t' random|c' doc|c' err]; try discriminate Hev;
      cbn in Hev; apply Pos.eqb_eq in Hev; subst c'; cbn [step].
    + destruct (settled_spec c (UseApi.Resolve c (c, doc)) true s t I Hc)
        as (Hcalls & Hp & _).
      split; [exact Hcalls|]. rewrite Hp. apply lookup_delete_eq.
    + destruct (settled_spec c (UseApi.Reject c err) false s t I Hc)
        as (Hcalls & Hp & _).
      split; [exact Hcalls|]. rewrite Hp. apply lookup_delete_eq.
  - cbn [forallb] in Hevs. apply andb_true_iff in Hevs. destruct Hevs as [He Hevs].
    apply negb_true_iff in He.
    destruct (step_keeps_upload c t s e Hup He) as [Hup1 Hno1].
    cbn [run]. destruct (step s e) as [s1 c1]. cbn [fst snd] in *.
    specialize (IH s1 Hup1 Hevs Hev). cbv zeta in IH.
    destruct (run s1 evs) as [s2 c2]. cbn [fst snd] in *.
    destruct IH as (Hno & Hrest). split; [|exact Hrest].
    apply Forall_app. split; assumption.
Qed.

(** [execute] starts an upload with a progress interval of 200 ms. *)
Lemma execute_uploading (s : State) :
  (forall c t, progressInterval s !! c = Some t -> (t < next_timer s)%positive) ->
  snd (execute s) = [Browser (SetInterval (next_timer s) 200); Browser UploadDocument] /\
  uploading_with (UseApi.fresh (api s)) (next_timer s) (fst (execute s)).
Proof.
  intros Hlt. split; [reflexivity|]. unfold execute, uploading_with. cbn.
  repeat split; try lia.
  - apply lookup_insert_eq.
  - intros c' H. apply lookup_insert_Some in H. destruct H as [[H _]|[_ H]]; [now symmetry|].
    specialize (Hlt _ _ H). lia.
Qed.

End DocumentUploadFacts.

(** ** The uploader container *)

Section UploaderFacts.

Import Uploader.

(** *** What a handler can emit *)

Lemma emits_skip P : emits P skip.
Proof. intros w. constructor. Qed.

Lemma emits_emit (P : Effect -> Prop) e : P e -> emits P (emit e).
Proof. intros H w. repeat constructor. exact H. Qed.

Lemma emits_update P f : emits P (update f).
Proof. intros w. constructor. Qed.

Lemma emits_read {A} P (f : World -> A) k : (forall a, emits P (k a)) -> emits P (read f k).
Proof. intros H w. apply H. Qed.

Lemma emits_alloc P k : (forall id, emits P (k id)) -> emits P (alloc k).
Proof. intros H w. apply H. Qed.

Lemma emits_block P hs : Forall (emits P) hs -> emits P (block hs).
Proof.
  induction 1 as [|h hs Hh _ IH]; intros w; simpl; [constructor|].
  specialize (Hh w). destruct (h w) as [w1 e1].
  specialize (IH w1). destruct (block hs w1) as [w2 e2].
  simpl in *. apply Forall_app. split; assumption.
Qed.

Lemma emits_tick P : (forall x, emits P (fire x)) -> emits P tick.
Proof.
  intros H w. unfold tick. apply emits_block.
  apply Forall_forall. intros h Hh. apply list_elem_of_In, in_map_iff in Hh.
  destruct Hh as (x & <- & _). apply H.
Qed.

Lemma emits_render P before : emits P processingEffect -> emits P (render before).
Proof.
  intros H w. unfold render. destruct (bool_decide _); [constructor|apply H].
Qed.

(** Break a handler into its statements. *)
Ltac emits_step :=
  match goal with
  | |- Forall _ (_ :: _) => constructor
  | |- Forall _ [] => constructor
  | |- emits _ skip => apply emits_skip
  | |- emits _ (update _) => apply emits_update
  | |- emits _ (emit _) => apply emits_emit; simpl; try reflexivity; try discriminate
  | |- emits _ (read _ _) => apply emits_read; intros ?
  | |- emits _ (alloc _) => apply emits_alloc; intros ?
  | |- emits _ (block _) => apply emits_block
  | |- emits _ tick => apply emits_tick; intros ?
  | |- emits _ (render _) => apply emits_render
  | |- emits _ (match ?x with _ => _ end) => destruct x
  | |- emits _ (let '(_, _) := ?x in _) => destruct x
  | |- emits _ (?h _ _ _) => unfold h
  | |- emits _ (?h _ _) => unfold h
  | |- emits _ (?h _) => unfold h
  | |- emits _ ?h => unfold h
  end.

Ltac solve_emits := repeat emits_step.

Lemma handle_no_invalidation ev : emits (fun e => is_invalidation e = false) (handle ev).
Proof. destruct ev; solve_emits. Qed.

Lemma processingEffect_no_invalidation :
  emits (fun e => is_invalidation e = false) processingEffect.
Proof. solve_emits. Qed.

Lemma step_emits (P : Effect -> Prop) (w : World) (ev : Event) :
  emits P (handle ev) -> emits P processingEffect -> Forall P (snd (step w ev)).
Proof.
  intros Hh Hp. unfold step.
  apply (emits_block P [handle ev; render w]).
  repeat constructor; [exact Hh|]. apply emits_render, Hp.
Qed.

Lemma run_emits (P : Effect -> Prop) (w : World) (evs : list Event) :
  Forall (fun ev => emits P (handle ev)) evs -> emits P processingEffect ->
  Forall P (snd (run w evs)).
Proof.
  intros Hh Hp. revert w.
  induction Hh as [|ev evs Hev _ IH]; intros w; simpl; [constructor|].
  pose proof (step_emits P w ev Hev Hp) as H1.
  destruct (step w ev) as [w1 e1]. specialize (IH w1).
  destruct (run w1 evs) as [w2 e2]. simpl in *. apply Forall_app. split; assumption.
Qed.

Lemma filter_none (f : Effect -> bool) (l : list Effect) :
  Forall (fun e => f e = false) l -> List.filter f l = [].
Proof. induction 1 as [|e l He _ IH]; simpl; [reflexivity|]. now rewrite He. Qed.

(** The component has no access to the query cache: no run of it requests
    an invalidation. *)
Lemma run_no_invalidation (w : World) (evs : list Event) :
  List.filter is_invalidation (snd (run w evs)) = [].
Proof.
  apply filter_none, run_emits.
  - apply Forall_forall. intros ev _. apply handle_no_invalidation.
  - apply processingEffect_no_invalidation.
Qed.

(** The teardown and the reset that end [onCompleted] and [onFailed]. *)
Lemma cleanup_refs (w : World) :
  let w' := fst (cleanup w) in
  wsRef w' = None /\ pollIntervalRef w' = None /\
  currentJobId w' = currentJobId w /\ uploadedDocumentId w' = uploadedDocumentId w /\
  List.filter is_terminal_notification (snd (cleanup w)) = [] /\
  List.filter is_toast (snd (cleanup w)) = [].
Proof.
  destruct w as [d j [h|] [t|] so ti st po fr nw]; cbn; repeat split.
Qed.

(** *** Sequencing *)

Lemma block_cons (h : Handler) (hs : list Handler) (w : World) :
  block (h :: hs) w =
    (fst (block hs (fst (h w))), snd (h w) ++ snd (block hs (fst (h w)))).
Proof. simpl. destruct (h w) as [w1 e1]. simpl. destruct (block hs w1); reflexivity. Qed.

Lemma block_one (h : Handler) (w : World) : block [h] w = h w.
Proof. rewrite block_cons. simpl. rewrite app_nil_r. destruct (h w); reflexivity. Qed.

Lemma step_eq (w : World) (ev : Event) :
  step w ev =
    (fst (render w (fst (handle ev w))),
     snd (handle ev w) ++ snd (render w (fst (handle ev w)))).
Proof. unfold step. rewrite block_cons, block_one. reflexivity. Qed.

(** The effect touches neither the refs nor the state variables, and
    notifies nobody. *)
Lemma render_keeps (before w : World) :
  let w' := fst (render before w) in
  wsRef w' = wsRef w /\ pollIntervalRef w' = pollIntervalRef w /\
  currentJobId w' = currentJobId w /\ uploadedDocumentId w' = uploadedDocumentId w /\
  sockets w' = sockets w /\ timers w' = timers w /\ now w' = now w.
Proof.
  unfold render. destruct (bool_decide _); [repeat split|].
  destruct w as [d j r p so ti st po fr nw]. unfold processingEffect, read. cbn.
  destruct (Js.str_truthy d && negb (Js.str_truthy j)); cbn; repeat split.
Qed.

Lemma render_quiet (before w : World) :
  List.filter is_terminal_notification (snd (render before w)) = [] /\
  List.filter is_toast (snd (render before w)) = [] /\
  List.filter is_teardown (snd (render before w)) = [] /\
  List.filter is_onError (snd (render before w)) = [].
Proof.
  repeat split; apply filter_none; apply emits_render; solve_emits.
Qed.

(** *** Terminal reports *)

Lemma onCompleted_finishes : finishes onCompleted.
Proof. intros [d j [h|] [t|] so ti st po fr nw]; cbn; repeat split. Qed.

Lemma onFailed_finishes (a b : string) : finishes (onFailed a b).
Proof. intros [d j [h|] [t|] so ti st po fr nw]; cbn; repeat split. Qed.

Lemma terminal_status_cases (st : string) :
  terminal_status st = true -> st = "completed" \/ st = "failed".
Proof.
  unfold terminal_status. intros H. apply orb_true_iff in H.
  destruct H as [H|H]; apply String.eqb_eq in H; auto.
Qed.

Lemma onStatusChange_finishes (st : string) :
  terminal_status st = true -> finishes (onStatusChange st).
Proof.
  intros H w. unfold onStatusChange. rewrite block_cons, block_one.
  cbn [fst snd emit app List.filter is_terminal_notification is_toast].
  destruct (terminal_status_cases st H) as [-> | ->]; cbn [String.eqb Ascii.eqb Bool.eqb].
  - apply onCompleted_finishes.
  - apply onFailed_finishes.
Qed.

Lemma pollResolved_finishes (st : AsyncProcessingStatus) :
  terminal_status (status st) = true -> finishes (pollResolved st).
Proof.
  intros H w. unfold pollResolved. rewrite block_cons, block_one.
  cbn [fst snd].
  assert (forall w, fst ((match progress st with
                          | Some p => emit (OnUploadProgress (progressUpdate p))
                          | None => skip end) w) = w /\
                    List.filter is_terminal_notification
                      (snd ((match progress st with
                             | Some p => emit (OnUploadProgress (progressUpdate p))
                             | None => skip end) w)) = [] /\
                    List.filter is_toast
                      (snd ((match progress st with
                             | Some p => emit (OnUploadProgress (progressUpdate p))
                             | None => skip end) w)) = []) as Hp.
  { intros w0. destruct (progress st); repeat split. }
  destruct (Hp w) as (-> & Hn & Ht).
  rewrite !List.filter_app, Hn, Ht. cbn [app fst snd].
  destruct (terminal_status_cases _ H) as [-> | ->]; cbn [String.eqb Ascii.eqb Bool.eqb].
  - apply onCompleted_finishes.
  - apply onFailed_finishes.
Qed.

Lemma onCompleted_tears_down : tears_down onCompleted.
Proof. intros [d j [h|] [t|] so ti st po fr nw]; cbn; repeat split. Qed.

Lemma onFailed_tears_down (a b : string) : tears_down (onFailed a b).
Proof. intros [d j [h|] [t|] so ti st po fr nw]; cbn; repeat split. Qed.

Lemma onStatusChange_tears_down (st : string) :
  terminal_status st = true -> tears_down (onStatusChange st).
Proof.
  intros H w. unfold onStatusChange. rewrite block_cons, block_one.
  cbn [fst snd emit app List.filter is_teardown].
  destruct (terminal_status_cases st H) as [-> | ->]; cbn [String.eqb Ascii.eqb Bool.eqb].
  - apply onCompleted_tears_down.
  - apply onFailed_tears_down.
Qed.

Lemma pollResolved_tears_down (st : AsyncProcessingStatus) :
  terminal_status (status st) = true -> tears_down (pollResolved st).
Proof.
  intros H w. unfold pollResolved. rewrite block_cons, block_one.
  cbn [fst snd].
  assert (forall w, fst ((match progress st with
                          | Some p => emit (OnUploadProgress (progressUpdate p))
                          | None => skip end) w) = w /\
                    List.filter is_teardown
                      (snd ((match progress st with
                             | Some p => emit (OnUploadProgress (progressUpdate p))
                             | None => skip end) w)) = []) as Hp.
  { intros w0. destruct (progress st); repeat split. }
  destruct (Hp w) as (-> & Hn).
  rewrite !List.filter_app, Hn. cbn [app fst snd].
  destruct (terminal_status_cases _ H) as [-> | ->]; cbn [String.eqb Ascii.eqb Bool.eqb].
  - apply onCompleted_tears_down.
  - apply onFailed_tears_down.
Qed.

Lemma filter_filter_implies (f g : Effect -> bool) (l : list Effect) :
  (forall e, f e = true -> g e = true) ->
  List.filter f (List.filter g l) = List.filter f l.
Proof.
  intros H. induction l as [|e l IH]; [reflexivity|]. cbn.
  destruct (g e) eqn:G; cbn; [now rewrite IH|].
  destruct (f e) eqn:F; [|exact IH]. apply H in F. congruence.
Qed.

Lemma teardown_of_closes (ws poll : option positive) :
  List.filter is_close (teardown_of ws poll) =
    match ws with Some h => [WsClose h] | None => [] end.
Proof. destruct ws, poll; reflexivity. Qed.

Lemma teardown_of_clears (ws : option positive) (t : positive) :
  List.filter (clears t) (teardown_of ws (Some t)) = [ClearInterval t].
Proof. destruct ws; cbn; rewrite Pos.eqb_refl; reflexivity. Qed.

(** C3, amended. Every terminal status report that reaches the component, in
    whatever world (also one in which an earlier report was already
    handled), produces one terminal notification and one toast, closes the
    socket held in [wsRef] (one [close] call, and no other socket is
    closed), clears the timer held in [pollIntervalRef] (one
    [clearInterval] call for it, after which it is no longer pending),
    resets both refs and the job id; and no cache invalidation is
    requested. *)
Theorem terminal_report_handled (w : World) (ev : Event) :
  terminal_report w ev = true ->
  let w' := fst (step w ev) in
  let effs := snd (step w ev) in
  length (List.filter is_terminal_notification effs) = 1%nat /\
  length (List.filter is_toast effs) = 1%nat /\
  wsRef w' = None /\ pollIntervalRef w' = None /\ currentJobId w' = None /\
  List.filter is_invalidation effs = [] /\
  List.filter is_close effs =
    match wsRef w with Some h => [WsClose h] | None => [] end /\
  sockets w' =
    match wsRef w with Some h => alter closing h (sockets w) | None => sockets w end /\
  match pollIntervalRef w with
  | Some t =>
      List.filter (clears t) effs = [ClearInterval t] /\
      timers w' = List.filter (fun x => negb (Pos.eqb (fst x) t)) (timers w)
  | None => timers w' = timers w
  end.
Proof.
  intros H. cbv zeta.
  assert (exists (h : Handler) (w0 : World) (pre : list Effect),
             finishes h /\ tears_down h /\
             handle ev w = (fst (h w0), pre ++ snd (h w0)) /\
             List.filter is_terminal_notification pre = [] /\
             List.filter is_toast pre = [] /\
             List.filter is_teardown pre = [] /\
             wsRef w0 = wsRef w /\ pollIntervalRef w0 = pollIntervalRef w /\
             sockets w0 = sockets w /\ timers w0 = timers w)
    as (h & w0 & pre & Hf & Htd & Hh & Hn & Ht & Hd & Ews & Epoll & Eso & Eti).
  { destruct ev; try discriminate H; simpl in H.
    - destruct data as [|type p st]; [discriminate|].
      destruct (sockets w !! ws) as [s|] eqn:Hs; [|discriminate].
      destruct (readyState s) eqn:Hr; try discriminate.
      apply andb_true_iff in H. destruct H as [Ht Hst].
      apply String.eqb_eq in Ht. subst type.
      exists (onStatusChange st), w, [ChannelCallback (OnStatusChange st)].
      split; [apply onStatusChange_finishes, Hst|].
      split; [apply onStatusChange_tears_down, Hst|].
      split; [|repeat split; reflexivity].
      unfold handle, read. rewrite Hs, Hr. unfold ws_onmessage.
      cbn [String.eqb Ascii.eqb Bool.eqb andb]. unfold call.
      rewrite block_cons, block_one. reflexivity.
    - apply andb_true_iff in H. destruct H as [Hreq Hst].
      apply bool_decide_eq_true in Hreq. destruct Hreq as [r Hr].
      exists (pollResolved st), (set_polling (delete req (polling w)) w), [].
      split; [apply pollResolved_finishes, Hst|].
      split; [apply pollResolved_tears_down, Hst|].
      split; [|destruct w; repeat split; reflexivity].
      unfold handle, read. rewrite Hr.
      rewrite block_cons, block_one. reflexivity. }
  rewrite step_eq. cbn [fst snd]. rewrite Hh. cbn [fst snd].
  destruct (Hf w0) as (Hfn & Hft & Hws & Hpoll & Hjob).
  destruct (Htd w0) as (Htear & Hso & Hti).
  destruct (render_keeps w (fst (h w0))) as (Kws & Kpoll & Kjob & _ & Kso & Kti & _).
  destruct (render_quiet w (fst (h w0))) as (Qn & Qt & Qd & _).
  cbv zeta in Kws, Kpoll, Kjob, Kso, Kti.
  pose proof (run_no_invalidation w [ev]) as Hinv. simpl in Hinv.
  rewrite step_eq, Hh in Hinv. cbn [fst snd] in Hinv.
  rewrite app_nil_r in Hinv. rewrite Hinv.
  assert (List.filter is_teardown ((pre ++ snd (h w0)) ++ snd (render w (fst (h w0)))) =
          teardown_of (wsRef w) (pollIntervalRef w)) as Hall.
  { rewrite !List.filter_app, Hd, Qd, Htear, Ews, Epoll, app_nil_r. reflexivity. }
  rewrite Kws, Kpoll, Kjob, Kso, Kti, Hso, Hti, Ews, Epoll, Eso, Eti.
  rewrite !List.filter_app, Hn, Ht, Qn, Qt, !app_nil_r. cbn [app].
  rewrite <- !List.filter_app.
  repeat apply conj; try assumption; try reflexivity.
  - rewrite <- (filter_filter_implies is_close is_teardown)
      by (intros []; (discriminate || reflexivity)).
    rewrite Hall. apply teardown_of_closes.
  - destruct (pollIntervalRef w) as [t|]; [|reflexivity].
    split; [|reflexivity].
    rewrite <- (filter_filter_implies (clears t) is_teardown)
      by (intros []; (discriminate || reflexivity)).
    rewrite Hall. apply teardown_of_clears.
Qed.

(** *** Interval timers *)

Lemma run_cons (w : World) (ev : Event) (evs : list Event) :
  run w (ev :: evs) =
    (fst (run (fst (step w ev)) evs),
     snd (step w ev) ++ snd (run (fst (step w ev)) evs)).
Proof. simpl. destruct (step w ev) as [w1 e1]. simpl. destruct (run w1 evs); reflexivity. Qed.

(** A timer callback leaves the timers, the clock and the state variables
    alone, and the trace shows its firing once. *)
Lemma fire_spec (x : positive * Timer) (w : World) (id : positive) :
  timers (fst (fire x w)) = timers w /\ now (fst (fire x w)) = now w /\
  deps (fst (fire x w)) = deps w /\
  List.filter (is_fired id) (snd (fire x w)) =
    if Pos.eqb (fst x) id then [IntervalFired (fst x)] else [].
Proof.
  destruct x as [i [cb p d]], w as [dd j r pr so ti st po fr nw].
  unfold fire. rewrite block_cons, block_one.
  destruct cb as [job doc|h]; cbn.
  - repeat split; try (destruct (Pos.eqb i id); reflexivity).
  - unfold pingTick, read. cbn.
    destruct (so !! h) as [[? ? [] ?]|]; cbn; repeat split;
      try (destruct (Pos.eqb i id); reflexivity).
Qed.

Lemma fires_spec (l : list (positive * Timer)) (w : World) (id : positive) :
  timers (fst (block (map fire l) w)) = timers w /\
  now (fst (block (map fire l) w)) = now w /\
  deps (fst (block (map fire l) w)) = deps w /\
  length (List.filter (is_fired id) (snd (block (map fire l) w))) =
    length (List.filter (fun x => Pos.eqb (fst x) id) l).
Proof.
  revert w. induction l as [|x l IH]; intros w; [repeat split|].
  cbn [map]. rewrite block_cons. cbn [fst snd].
  destruct (fire_spec x w id) as (Ht & Hn & Hd & Hf).
  destruct (IH (fst (fire x w))) as (Ht' & Hn' & Hd' & Hf').
  rewrite Ht', Hn', Hd', Ht, Hn, Hd. repeat split.
  rewrite List.filter_app, length_app, Hf, Hf'. cbn [List.filter].
  destruct (Pos.eqb (fst x) id); reflexivity.
Qed.

Lemma absent_not_due (g : positive * Timer -> bool) (l : list (positive * Timer)) id :
  ~ In id (map fst l) ->
  List.filter (fun x => Pos.eqb (fst x) id) (List.filter g l) = [].
Proof.
  induction l as [|x l IH]; intros Hn; [reflexivity|]. simpl in Hn. simpl.
  destruct (g x); simpl; [|apply IH; tauto].
  destruct (Pos.eqb_spec (fst x) id) as [E|_]; [tauto|apply IH; tauto].
Qed.

Lemma due_count (l : list (positive * Timer)) (id : positive) (tm : Timer) (t : Z) :
  NoDup (map fst l) -> In (id, tm) l ->
  length (List.filter (fun x => Pos.eqb (fst x) id)
            (List.filter (fun x => due (snd x) =? t) l)) =
    if due tm =? t then 1%nat else 0%nat.
Proof.
  induction l as [|x l IH]; intros Hnd Hin; [destruct Hin|].
  simpl in Hnd. apply NoDup_cons in Hnd. destruct Hnd as [Hx Hnd].
  rewrite list_elem_of_In in Hx.
  destruct Hin as [->|Hin].
  - simpl. destruct (due tm =? t); simpl.
    + rewrite Pos.eqb_refl. simpl. now rewrite absent_not_due.
    + now rewrite absent_not_due.
  - assert (fst x <> id) as Hne.
    { intros <-. apply Hx. apply in_map_iff. now exists (fst x, tm). }
    simpl. destruct (due (snd x) =? t); simpl.
    + destruct (Pos.eqb_spec (fst x) id); [contradiction|]. now apply IH.
    + now apply IH.
Qed.

Lemma rearm_fst (t : Z) (l : list (positive * Timer)) :
  map fst (map (rearm t) l) = map fst l.
Proof.
  rewrite map_map. apply map_ext. intros x. unfold rearm.
  destruct (due (snd x) =? t); reflexivity.
Qed.

(** One tick: the clock advances, the due timers are re-armed, and a timer
    fires exactly when it is due. *)
Lemma tick_spec (w : World) (id : positive) (tm : Timer) :
  NoDup (map fst (timers w)) -> In (id, tm) (timers w) ->
  now (fst (step w Tick)) = now w + 1 /\
  timers (fst (step w Tick)) = map (rearm (now w + 1)) (timers w) /\
  length (List.filter (is_fired id) (snd (step w Tick))) =
    if due tm =? now w + 1 then 1%nat else 0%nat.
Proof.
  intros Hnd Hin. rewrite step_eq. cbn [fst snd handle].
  unfold tick at 1 2 3 4.
  set (t := now w + 1).
  set (w0 := set_timers (map (rearm t) (timers w)) (set_now t w)).
  set (l := List.filter (fun x => due (snd x) =? t) (timers w)).
  destruct (fires_spec l w0 id) as (Ht & Hn & Hd & Hf).
  assert (deps w0 = deps w) as Hd0 by (destruct w; reflexivity).
  assert (timers w0 = map (rearm t) (timers w)) as Ht0 by (destruct w; reflexivity).
  assert (now w0 = t) as Hn0 by (destruct w; reflexivity).
  unfold render. rewrite Hd, Hd0.
  rewrite bool_decide_eq_true_2 by reflexivity.
  cbn [skip fst snd]. rewrite app_nil_r, Ht, Hn, Hf, Ht0, Hn0.
  repeat split. unfold l. now apply due_count.
Qed.

(** The schedule of an interval timer: with nothing else happening, after
    [n] ms it has fired once for every multiple of its period that has come
    due. *)
Lemma elapse_fired (n : nat) (w : World) (id : positive) (tm : Timer) :
  NoDup (map fst (timers w)) -> In (id, tm) (timers w) ->
  now w < due tm -> 0 < period tm ->
  Z.of_nat (length (List.filter (is_fired id) (snd (elapse n w)))) =
    if now w + Z.of_nat n <? due tm then 0
    else (now w + Z.of_nat n - due tm) / period tm + 1.
Proof.
  revert w tm. induction n as [|n IH]; intros w tm Hnd Hin Hdue Hper.
  - simpl. rewrite Z.add_0_r. destruct (Z.ltb_spec (now w) (due tm)); [reflexivity|lia].
  - unfold elapse. cbn [repeat]. rewrite run_cons. cbn [fst snd].
    destruct (tick_spec w id tm Hnd Hin) as (Hn & Ht & Hf).
    rewrite List.filter_app, length_app, Nat2Z.inj_add, Hf.
    set (w1 := fst (step w Tick)) in *.
    set (tm1 := snd (rearm (now w + 1) (id, tm))).
    assert (In (id, tm1) (timers w1)) as Hin1.
    { rewrite Ht. apply in_map_iff. exists (id, tm). split; [|exact Hin].
      unfold tm1, rearm. cbn [fst snd]. destruct (due tm =? now w + 1); reflexivity. }
    assert (NoDup (map fst (timers w1))) as Hnd1 by (rewrite Ht, rearm_fst; exact Hnd).
    fold (elapse n w1).
    unfold tm1, rearm in *. cbn [fst snd] in *.
    destruct (Z.eqb_spec (due tm) (now w + 1)) as [E|E]; cbn [snd] in *.
    + rewrite (IH w1 _ Hnd1 Hin1); cbn [due period]; [|lia|lia].
      rewrite Hn, E.
      destruct (Z.ltb_spec (now w + Z.of_nat (S n)) (now w + 1)); [lia|].
      replace (now w + Z.of_nat (S n) - (now w + 1)) with (Z.of_nat n) by lia.
      destruct (Z.ltb_spec (now w + 1 + Z.of_nat n) (now w + 1 + period tm)).
      * rewrite Z.div_small by lia. reflexivity.
      * replace (now w + 1 + Z.of_nat n - (now w + 1 + period tm))
          with (Z.of_nat n + (-1) * period tm) by lia.
        rewrite Z.div_add by lia. lia.
    + rewrite (IH w1 _ Hnd1 Hin1); [|lia|lia].
      rewrite Hn. replace (now w + 1 + Z.of_nat n) with (now w + Z.of_nat (S n)) by lia.
      reflexivity.
Qed.

Lemma startStatusPolling_spec (jobId documentId : string) (w : World) :
  snd (startStatusPolling jobId documentId w) =
    [ Console (Js.ConsoleLog "Starting status polling as WebSocket fallback");
      SetInterval (fresh w) 3000 ] /\
  timers (fst (startStatusPolling jobId documentId w)) =
    timers w ++ [(fresh w, {| callback := PollStatus jobId documentId;
                              period := 3000; due := now w + 3000 |})] /\
  now (fst (startStatusPolling jobId documentId w)) = now w /\
  pollIntervalRef (fst (startStatusPolling jobId documentId w)) = Some (fresh w).
Proof. destruct w; cbn. repeat split. Qed.

Lemma fresh_timer (w : World) (tm : Timer) :
  well_formed w ->
  NoDup (map fst (timers w ++ [(fresh w, tm)])) /\ In (fresh w, tm) (timers w ++ [(fresh w, tm)]).
Proof.
  intros [Hnd Hlt]. split; [|apply in_or_app; right; left; reflexivity].
  rewrite map_app. cbn [map fst]. apply NoDup_app. split; [exact Hnd|].
  split; [|apply NoDup_singleton].
  intros i Hi Hf. apply list_elem_of_In in Hi. apply in_map_iff in Hi.
  destruct Hi as (x & <- & Hx). apply list_elem_of_singleton in Hf.
  specialize (Hlt x Hx). lia.
Qed.

(** *** Reachable worlds are well formed *)

Lemma keeps_skip : keeps skip.
Proof. intros w H. exact H. Qed.

Lemma keeps_emit e : keeps (emit e).
Proof. intros w H. exact H. Qed.

Lemma keeps_update (f : World -> World) :
  (forall w, timers (f w) = timers w /\ fresh (f w) = fresh w) -> keeps (update f).
Proof.
  intros Hf w [Hnd Hlt]. destruct (Hf w) as [Ht Hfr]. unfold update, well_formed. cbn [fst].
  rewrite Ht, Hfr. split; assumption.
Qed.

Lemma keeps_read {A} (f : World -> A) k : (forall a, keeps (k a)) -> keeps (read f k).
Proof. intros H w. apply H. Qed.

Lemma keeps_block hs : Forall keeps hs -> keeps (block hs).
Proof.
  induction 1 as [|h hs Hh _ IH]; intros w Hw; [exact Hw|].
  rewrite block_cons. cbn [fst]. apply IH, Hh, Hw.
Qed.

Lemma keeps_alloc k : (forall id, keeps (k id)) -> keeps (alloc k).
Proof.
  intros H w [Hnd Hlt]. unfold alloc. apply H. destruct w; cbn in *.
  split; [exact Hnd|]. intros x Hx. cbn in *. specialize (Hlt x Hx). lia.
Qed.

Lemma keeps_setInterval cb ms k : (forall id, keeps (k id)) -> keeps (setInterval cb ms k).
Proof.
  intros H w Hw. unfold setInterval, alloc. rewrite !block_cons. cbn [fst].
  apply keeps_block; [repeat constructor|].
  apply H. destruct w as [d j r p so ti st po fr nw]. cbn.
  set (tm := {| callback := cb; period := ms; due := nw + ms |}).
  destruct (fresh_timer _ tm Hw) as [Hnd _]. cbn in Hnd.
  split; [exact Hnd|]. cbn. intros x Hx. apply in_app_or in Hx.
  destruct Hw as [_ Hlt]. cbn in Hlt.
  destruct Hx as [Hx|[<-|[]]]; [specialize (Hlt x Hx)|cbn]; lia.
Qed.

Lemma keeps_clearInterval t : keeps (clearInterval t).
Proof.
  intros w [Hnd Hlt]. unfold clearInterval. rewrite block_cons, block_one.
  destruct w as [d j r p so ti st po fr nw]. cbn in *. split.
  - clear Hlt. induction ti as [|x ti IH]; [constructor|].
    cbn in Hnd. apply NoDup_cons in Hnd. destruct Hnd as [Hx Hnd]. cbn.
    destruct (negb (Pos.eqb (fst x) t)); [|now apply IH].
    cbn. apply NoDup_cons. split; [|now apply IH].
    intros Hin. apply Hx. apply list_elem_of_In in Hin. apply list_elem_of_In.
    apply in_map_iff in Hin. destruct Hin as (y & Hy & Hin).
    apply filter_In in Hin. apply in_map_iff. exists y. tauto.
  - intros x Hx. apply filter_In in Hx. apply Hlt. tauto.
Qed.

Lemma keeps_render before : keeps processingEffect -> keeps (render before).
Proof. intros H w Hw. unfold render. destruct (bool_decide _); [exact Hw|now apply H]. Qed.

Ltac frame_update := intros []; split; reflexivity.

Ltac keeps_step :=
  match goal with
  | |- Forall _ (_ :: _) => constructor
  | |- Forall _ [] => constructor
  | |- keeps skip => apply keeps_skip
  | |- keeps (update _) => apply keeps_update; frame_update
  | |- keeps (emit _) => apply keeps_emit
  | |- keeps (read _ _) => apply keeps_read; intros ?
  | |- keeps (alloc _) => apply keeps_alloc; intros ?
  | |- keeps (setInterval _ _ _) => apply keeps_setInterval; intros ?
  | |- keeps (clearInterval _) => apply keeps_clearInterval
  | |- keeps (block _) => apply keeps_block
  | |- keeps (render _) => apply keeps_render
  | |- keeps (match ?x with _ => _ end) => destruct x
  | |- keeps (?h _ _ _) => unfold h
  | |- keeps (?h _ _) => unfold h
  | |- keeps (?h _) => unfold h
  | |- keeps ?h => unfold h
  end.

Ltac solve_keeps := repeat keeps_step.

Lemma keeps_fire x : keeps (fire x).
Proof. solve_keeps. Qed.

Lemma keeps_tick : keeps tick.
Proof.
  intros w [Hnd Hlt]. unfold tick. apply keeps_block.
  - apply Forall_forall. intros h Hh. apply list_elem_of_In, in_map_iff in Hh.
    destruct Hh as (x & <- & _). apply keeps_fire.
  - destruct w as [d j r p so ti st po fr nw].
    unfold well_formed. cbn [timers fresh set_timers set_now now] in *. split.
    + rewrite rearm_fst. exact Hnd.
    + intros x Hx. apply in_map_iff in Hx. destruct Hx as (y & <- & Hy).
      specialize (Hlt y Hy). unfold rearm. destruct (due (snd y) =? nw + 1); exact Hlt.
Qed.

Lemma keeps_handle ev : keeps (handle ev).
Proof. destruct ev; try apply keeps_tick; solve_keeps. Qed.

Lemma step_well_formed (w : World) (ev : Event) :
  well_formed w -> well_formed (fst (step w ev)).
Proof.
  intros Hw. unfold step.
  apply (keeps_block [handle ev; render w]); [|exact Hw].
  constructor; [apply keeps_handle|]. constructor; [|constructor].
  apply keeps_render. solve_keeps.
Qed.

(** Every world the component can be in is well formed. *)
Lemma reachable_well_formed (evs : list Event) : well_formed (fst (run initial evs)).
Proof.
  assert (forall w, well_formed w -> well_formed (fst (run w evs))) as H.
  { induction evs as [|ev evs IH]; intros w Hw; [exact Hw|].
    rewrite run_cons. cbn [fst]. apply IH, step_well_formed, Hw. }
  apply H. split; [constructor|intros x []].
Qed.

Lemma pollTimer_fires (jobId documentId : string) (id : positive) (p d : Z) (w : World) :
  snd (fire (id, {| callback := PollStatus jobId documentId; period := p; due := d |}) w) =
    [IntervalFired id; GetAsyncProcessingStatus (fresh w) documentId jobId].
Proof. destruct w; reflexivity. Qed.

(** C7, amended. The three pollers start differently.  The fallback
    poller [startStatusPolling] only sets a 3000 ms interval: it issues no
    request when it starts, its callback first runs after 3000 ms and then
    every 3000 ms, and each run issues one status request.
    [pollAsyncJobStatus] issues its first request at once and each further
    one 2000 ms after the reply to the one before it has settled, up to the
    attempt at which it stops.  The effect of [usePolling], when enabled,
    calls [execute] at once, then clears the interval left in the ref and
    sets a new one; as the uploader mounts the hook, a render with a
    document id requests the status at once, a second time right after
    when no request was under way, and leaves one interval of 2000 ms
    whose callback makes one request per firing. *)
Theorem polling_start_schedule (w : World) (jobId documentId : string) (n : nat)
    (server : nat -> JobPoller.Reply) (attempt : nat) (t0 : Z)
    (s : StatusPolling.State) :
  well_formed w ->
  stops_at server attempt ->
  StatusPolling.well_formed s ->
  StatusPolling.enabled documentId = true ->
  let start := startStatusPolling jobId documentId w in
  let s' := fst (StatusPolling.step s (StatusPolling.Rendered documentId)) in
  let calls := snd (StatusPolling.step s (StatusPolling.Rendered documentId)) in
  let c := UseApi.fresh (StatusPolling.api s) in
  List.filter is_request (snd start) = [] /\
  List.filter is_timer_call (snd start) = [SetInterval (fresh w) 3000] /\
  Z.of_nat (length (List.filter (is_fired (fresh w)) (snd (elapse n (fst start))))) =
    (if Z.of_nat n <? 3000 then 0 else (Z.of_nat n - 3000) / 3000 + 1) /\
  (forall w' id p d,
      snd (fire (id, {| callback := PollStatus jobId documentId;
                        period := p; due := d |}) w') =
        [IntervalFired id; GetAsyncProcessingStatus (fresh w') documentId jobId]) /\
  JobPoller.request_times (JobPoller.pollAsyncJobStatus server documentId jobId t0) =
    JobPoller.schedule server 0 t0 attempt /\
  (forall ref timer interval,
      usePolling_effect true ref timer interval =
        (ApiExecute
           :: match ref with Some t => [ClearInterval t] | None => [] end
           ++ [SetInterval timer interval],
         Some timer)) /\
  List.filter StatusPolling.is_get calls =
    StatusPolling.GetDocumentStatus c documentId
      :: (if StatusPolling.execute_rerenders s
          then [StatusPolling.GetDocumentStatus (Pos.succ c) documentId] else []) /\
  (exists t pre,
      StatusPolling.intervalRef s' = Some t /\
      calls = StatusPolling.cleared (StatusPolling.intervalRef s)
                ++ pre ++ [StatusPolling.Browser (SetInterval t 2000)] /\
      StatusPolling.pending_interval t (StatusPolling.intervals s') = Some documentId /\
      snd (StatusPolling.step s' (StatusPolling.Fired t)) =
        [StatusPolling.GetDocumentStatus (UseApi.fresh (StatusPolling.api s')) documentId]).
Proof.
  intros Hwf (Hn & Hbefore & Hlast) Hs Hid. cbv zeta.
  destruct (startStatusPolling_spec jobId documentId w) as (He & Ht & Hnow & _).
  rewrite He. repeat apply conj.
  - reflexivity.
  - reflexivity.
  - set (tm := {| callback := PollStatus jobId documentId; period := 3000;
                  due := now w + 3000 |}) in *.
    destruct (fresh_timer w tm Hwf) as [Hnd Hin]. rewrite <- Ht in Hnd, Hin.
    rewrite (elapse_fired n _ _ tm Hnd Hin); cbn [due period tm]; [|lia|lia].
    rewrite Hnow.
    destruct (Z.ltb_spec (now w + Z.of_nat n) (now w + 3000));
      destruct (Z.ltb_spec (Z.of_nat n) 3000); try lia.
    f_equal. f_equal. lia.
  - intros w' id p d. apply pollTimer_fires.
  - unfold JobPoller.pollAsyncJobStatus.
    rewrite (poll_schedule server documentId jobId 0 t0 attempt);
      [now rewrite Nat.sub_0_r|lia|intros k Hk; apply Hbefore; lia|exact Hlast].
  - intros [t|] timer interval; reflexivity.
  - apply (rendered_polls s documentId Hid).
  - destruct (rendered_polls s documentId Hid) as (_ & t & pre & Href & Hcalls & Hfire).
    destruct (Hfire Hs) as [Hp Hf].
    exists t, pre. repeat split; assumption.
Qed.

(** *** The keepalive *)

Lemma handle_no_onError (ev : Event) :
  transport_failure ev = false -> emits (fun e => is_onError e = false) (handle ev).
Proof.
  destruct ev; intros H; try discriminate H;
    try (match goal with |- context [WsClosed] => fail 1 | _ => idtac end; solve_emits).
  simpl in H. unfold handle. apply emits_read. intros [s|]; [|solve_emits].
  destruct (closeEventFired s); [solve_emits|].
  apply emits_block. constructor; [solve_emits|]. constructor; [|constructor].
  unfold ws_onclose. rewrite H. solve_emits.
Qed.

Lemma step_no_onError (w : World) (ev : Event) :
  transport_failure ev = false -> List.filter is_onError (snd (step w ev)) = [].
Proof.
  intros H. apply filter_none, step_emits; [now apply handle_no_onError|solve_emits].
Qed.

Lemma elapse_no_onError (n : nat) (w : World) :
  List.filter is_onError (snd (elapse n w)) = [].
Proof.
  apply filter_none, run_emits; [|solve_emits].
  apply Forall_forall. intros ev Hev. apply list_elem_of_In, repeat_spec in Hev. subst ev.
  now apply handle_no_onError.
Qed.

Lemma ws_opened_spec (w : World) (h : positive) (s : Socket) :
  sockets w !! h = Some s -> readyState s = CONNECTING ->
  List.filter is_timer_call (snd (step w (WsOpened h))) = [SetInterval (fresh w) 30000] /\
  timers (fst (step w (WsOpened h))) =
    timers w ++ [(fresh w, {| callback := SendPing h; period := 30000;
                              due := now w + 30000 |})] /\
  now (fst (step w (WsOpened h))) = now w.
Proof.
  intros Hs Hr. rewrite step_eq. cbn [fst snd].
  destruct (render_keeps w (fst (handle (WsOpened h) w))) as (_ & _ & _ & _ & _ & Kt & Kn).
  cbv zeta in Kt, Kn. rewrite Kt, Kn. clear Kt Kn.
  rewrite List.filter_app.
  assert (List.filter is_timer_call (snd (render w (fst (handle (WsOpened h) w)))) = []) as ->.
  { apply filter_none, emits_render. solve_emits. }
  rewrite app_nil_r. unfold handle, read. rewrite Hs, Hr.
  destruct w; cbn. repeat split.
Qed.

Lemma pingTimer_fires (h id : positive) (p d : Z) (w : World) (s : Socket) :
  sockets w !! h = Some s -> readyState s = OPEN ->
  snd (fire (id, {| callback := SendPing h; period := p; due := d |}) w) =
    [IntervalFired id; WsSend h "ping"].
Proof.
  intros Hs Hr. unfold fire. rewrite block_cons, block_one. cbn [fst snd callback emit].
  unfold pingTick, read. rewrite Hs, Hr. reflexivity.
Qed.

(** C8, amended. When the socket opens the channel sets an interval whose
    callback, every 30000 ms, sends a ping if the socket is open.  It keeps
    no deadline for incoming traffic: however long nothing arrives, no
    [onError] call is made; [onError] is called only from the error event
    of the socket and from a close event whose code is not 1000. *)
Theorem keepalive_without_deadline (w : World) (h : positive) (s : Socket) (n : nat) :
  well_formed w -> sockets w !! h = Some s -> readyState s = CONNECTING ->
  let opened := step w (WsOpened h) in
  List.filter is_timer_call (snd opened) = [SetInterval (fresh w) 30000] /\
  Z.of_nat (length (List.filter (is_fired (fresh w)) (snd (elapse n (fst opened))))) =
    (if Z.of_nat n <? 30000 then 0 else (Z.of_nat n - 30000) / 30000 + 1) /\
  (forall w' s' id p d,
      sockets w' !! h = Some s' -> readyState s' = OPEN ->
      snd (fire (id, {| callback := SendPing h; period := p; due := d |}) w') =
        [IntervalFired id; WsSend h "ping"]) /\
  List.filter is_onError (snd (elapse n (fst opened))) = [] /\
  (forall w' ev, transport_failure ev = false ->
                 List.filter is_onError (snd (step w' ev)) = []).
Proof.
  intros Hwf Hs Hr. cbv zeta.
  destruct (ws_opened_spec w h s Hs Hr) as (He & Ht & Hn).
  repeat apply conj.
  - exact He.
  - set (tm := {| callback := SendPing h; period := 30000; due := now w + 30000 |}) in *.
    destruct (fresh_timer w tm Hwf) as [Hnd Hin]. rewrite <- Ht in Hnd, Hin.
    rewrite (elapse_fired n _ _ tm Hnd Hin); cbn [due period tm]; [|lia|lia].
    rewrite Hn.
    destruct (Z.ltb_spec (now w + Z.of_nat n) (now w + 30000));
      destruct (Z.ltb_spec (Z.of_nat n) 30000); try lia.
    f_equal. f_equal. lia.
  - intros w' s' id p d. apply pingTimer_fires.
  - apply elapse_no_onError.
  - intros w' ev. apply step_no_onError.
Qed.

(** *** A new upload while a job is tracked *)

Lemma handle_no_teardown (ev : Event) :
  teardown_source ev = false -> emits (fun e => is_teardown e = false) (handle ev).
Proof. destruct ev; intros H; try discriminate H; solve_emits. Qed.

Lemma processingEffect_guard (w : World) :
  Js.str_truthy (currentJobId w) = true -> processingEffect w = (w, []).
Proof.
  intros H. unfold processingEffect, read. rewrite H, andb_false_r. reflexivity.
Qed.

Lemma uploadSucceeded_step (w : World) (document_id : string) :
  Js.str_truthy (currentJobId w) = true ->
  step w (UploadSucceeded document_id) =
    (set_uploadedDocumentId (Some document_id) w,
     [ToastSuccess "Document uploaded successfully!"; OnDocumentUploaded document_id]).
Proof.
  intros H. rewrite step_eq.
  assert (handle (UploadSucceeded document_id) w =
            (set_uploadedDocumentId (Some document_id) w,
             [ToastSuccess "Document uploaded successfully!";
              OnDocumentUploaded document_id])) as ->.
  { destruct w; reflexivity. }
  cbn [fst snd]. unfold render.
  destruct (bool_decide _); [reflexivity|].
  rewrite processingEffect_guard; [reflexivity|]. destruct w; exact H.
Qed.

Lemma no_teardown_no_clear (t : positive) (l : list Effect) :
  List.filter is_teardown l = [] ->
  List.filter is_close l = [] /\ List.filter (clears t) l = [].
Proof.
  intros H.
  rewrite <- (filter_filter_implies is_close is_teardown l)
    by (intros []; (discriminate || reflexivity)).
  rewrite <- (filter_filter_implies (clears t) is_teardown l)
    by (intros []; (discriminate || reflexivity)).
  rewrite H. split; reflexivity.
Qed.

(** C4, amended. A new upload that succeeds while a job id is current
    tears nothing down and starts no job: the component only records the
    new document id, shows the success toast and calls
    [onDocumentUploaded]; no socket is closed, no timer of the job tracking
    is cleared, the refs, the sockets, the timers and the requests in flight
    of the earlier job stay as they are, so its timers keep firing, and no
    processing request is made and no socket opened for the new document
    (the effect is guarded by [!currentJobId]).  What does start is the
    status hook, which the render that follows runs with the new id: it
    requests the status of the new document at once and sets its 2000 ms
    interval.  A socket is closed, a timer of the job tracking cleared only
    by [cleanup], which runs on a status report or on unmount. *)
Theorem upload_during_active_job (w : World) (document_id : string)
    (s : StatusPolling.State) :
  Js.str_truthy (currentJobId w) = true ->
  StatusPolling.enabled document_id = true ->
  let w' := fst (step w (UploadSucceeded document_id)) in
  let effs := snd (step w (UploadSucceeded document_id)) in
  let s' := fst (StatusPolling.step s (StatusPolling.Rendered document_id)) in
  let calls := snd (StatusPolling.step s (StatusPolling.Rendered document_id)) in
  uploadedDocumentId w' = Some document_id /\
  currentJobId w' = currentJobId w /\
  wsRef w' = wsRef w /\ pollIntervalRef w' = pollIntervalRef w /\
  sockets w' = sockets w /\ timers w' = timers w /\ polling w' = polling w /\
  List.filter is_start effs = [] /\
  List.filter is_close effs = [] /\
  (forall t, In t (map fst (timers w)) -> List.filter (clears t) effs = []) /\
  List.filter is_toast effs = [ToastSuccess "Document uploaded successfully!"] /\
  In (OnDocumentUploaded document_id) effs /\
  (forall n t tm,
      well_formed w -> In (t, tm) (timers w) -> now w < due tm -> 0 < period tm ->
      Z.of_nat (length (List.filter (is_fired t) (snd (elapse n w')))) =
        if now w + Z.of_nat n <? due tm then 0
        else (now w + Z.of_nat n - due tm) / period tm + 1) /\
  In (StatusPolling.GetDocumentStatus (UseApi.fresh (StatusPolling.api s)) document_id)
     calls /\
  (exists t pre,
      StatusPolling.intervalRef s' = Some t /\
      calls = StatusPolling.cleared (StatusPolling.intervalRef s)
                ++ pre ++ [StatusPolling.Browser (SetInterval t 2000)]) /\
  (forall w0 ev,
      teardown_source ev = false ->
      List.filter is_close (snd (step w0 ev)) = [] /\
      forall t, In t (map fst (timers w0)) ->
                List.filter (clears t) (snd (step w0 ev)) = []).
Proof.
  intros H Hid. cbv zeta. rewrite (uploadSucceeded_step w document_id H). cbn [fst snd].
  destruct (rendered_polls s document_id Hid) as (Hgets & t & pre & Href & Hcalls & _).
  repeat apply conj; try (destruct w; reflexivity).
  - right. left. reflexivity.
  - intros n t0 tm [Hnd _] Hin Hdue Hper.
    assert (timers (set_uploadedDocumentId (Some document_id) w) = timers w) as Et
      by (destruct w; reflexivity).
    assert (now (set_uploadedDocumentId (Some document_id) w) = now w) as En
      by (destruct w; reflexivity).
    rewrite (elapse_fired n _ t0 tm); rewrite ?Et, ?En; try assumption. reflexivity.
  - assert (In (StatusPolling.GetDocumentStatus (UseApi.fresh (StatusPolling.api s))
                  document_id)
               (List.filter StatusPolling.is_get
                  (snd (StatusPolling.step s (StatusPolling.Rendered document_id)))))
      as Hin by (rewrite Hgets; now left).
    apply filter_In in Hin. tauto.
  - exists t, pre. split; assumption.
  - intros w0 ev Hev.
    assert (List.filter is_teardown (snd (step w0 ev)) = []) as Hno.
    { apply filter_none, step_emits; [now apply handle_no_teardown|solve_emits]. }
    split; [apply (no_teardown_no_clear 1%positive), Hno|].
    intros t0 _. apply (no_teardown_no_clear t0), Hno.
Qed.

End UploaderFacts.

(** *** Scenarios *)

(** C3, as stated, fails: the channel and the poller both report completed
    for job_1, and the component notifies twice and never asks for an
    invalidation.  A reply that arrives after the first terminal report is
    not ignored either: two overlapping poll requests notify twice. *)
Lemma channel_and_poller_both_notify :
  let reported := Uploader.run Uploader.initial Uploader.streaming in
  let polled := Uploader.run Uploader.initial (removelast Uploader.race) in
  let finished := Uploader.run Uploader.initial Uploader.race in
  Uploader.terminal_report (fst reported)
    (Uploader.WsMessage 2 (Uploader.Json "job_status" None "completed")) = true /\
  Uploader.ws_jobId <$> Uploader.sockets (fst reported) !! 2%positive = Some "job_1" /\
  Uploader.terminal_report (fst polled)
    (Uploader.PollResolved 6 Uploader.completed_status) = true /\
  Uploader.polling (fst polled) !! 6%positive = Some ("doc_1", "job_1") /\
  List.filter Uploader.is_terminal_notification (snd finished) =
    [ OnUploadProgress Uploader.completedProgress;
      OnUploadProgress Uploader.completedProgress ] /\
  count_occ Effect_eq_dec (snd finished)
    (ToastSuccess "Document processed successfully!") = 2%nat /\
  List.filter is_invalidation (snd finished) = [] /\
  List.filter Uploader.is_terminal_notification
    (snd (Uploader.run Uploader.initial Uploader.overlap)) =
    [ OnUploadProgress Uploader.completedProgress;
      OnUploadProgress Uploader.completedProgress ].
Proof. vm_compute. repeat split. Qed.

Lemma terminal_report_handled_witness :
  let w := fst (Uploader.run Uploader.initial (removelast Uploader.race)) in
  let ev := Uploader.PollResolved 6 Uploader.completed_status in
  Uploader.terminal_report w ev = true /\
  length (List.filter Uploader.is_terminal_notification (snd (Uploader.step w ev))) = 1%nat /\
  Uploader.currentJobId (fst (Uploader.step w ev)) = None /\
  List.filter (Uploader.clears 5) (snd (Uploader.step w ev)) = [ClearInterval 5].
Proof.
  cbv zeta. split; [vm_compute; reflexivity|].
  destruct (terminal_report_handled
              (fst (Uploader.run Uploader.initial (removelast Uploader.race)))
              (Uploader.PollResolved 6 Uploader.completed_status))
    as (Hn & _ & _ & _ & Hj & _ & _ & _ & Hclear); [vm_compute; reflexivity|].
  assert (Uploader.pollIntervalRef
            (fst (Uploader.run Uploader.initial (removelast Uploader.race))) =
          Some 5%positive) as E by (vm_compute; reflexivity).
  rewrite E in Hclear.
  split; [exact Hn|]. split; [exact Hj|exact (proj1 Hclear)].
Defined.

(** C4, as stated, fails: job_1 is being polled when doc_2 is uploaded; the
    upload closes no socket, does not clear the poll timer and starts no
    processing, and three seconds later the old job is polled again.  And
    when the connection had
    broken with an error event and a close event, a poll timer of job_1
    outlives the teardown: it still issues requests for job_1 while job_2 is
    tracked. *)
Lemma new_upload_keeps_old_poller :
  let w := fst (Uploader.run Uploader.initial Uploader.fallback) in
  let uploaded := Uploader.step w (Uploader.UploadSucceeded "doc_2") in
  Uploader.currentJobId w = Some "job_1" /\
  Uploader.wsRef w = Some 2%positive /\
  Uploader.pollIntervalRef w = Some 4%positive /\
  List.filter Uploader.is_close (snd uploaded) = [] /\
  List.filter (Uploader.clears 4) (snd uploaded) = [] /\
  List.filter Uploader.is_start (snd uploaded) = [] /\
  Uploader.pollIntervalRef (fst uploaded) = Some 4%positive /\
  Uploader.timers (fst uploaded) = Uploader.timers w /\
  Uploader.currentJobId (fst uploaded) = Some "job_1" /\
  List.filter is_request (snd (Uploader.elapse (Z.to_nat 3000) (fst uploaded))) =
    [GetAsyncProcessingStatus 5 "doc_1" "job_1"] /\
  let tracked := fst (Uploader.run Uploader.initial Uploader.orphaned) in
  Uploader.uploadedDocumentId tracked = Some "doc_2" /\
  Uploader.currentJobId tracked = Some "job_2" /\
  Uploader.pollIntervalRef tracked = None /\
  map fst (Uploader.timers tracked) = [3%positive; 4%positive] /\
  List.filter is_request (snd (Uploader.elapse (Z.to_nat 3000) tracked)) =
    [GetAsyncProcessingStatus 10 "doc_1" "job_1"].
Proof. vm_compute. repeat split. Qed.

Lemma upload_during_active_job_witness :
  let w := fst (Uploader.run Uploader.initial Uploader.fallback) in
  let s := fst (StatusPolling.step StatusPolling.initial (StatusPolling.Rendered "doc_1")) in
  Js.str_truthy (Uploader.currentJobId w) = true /\
  List.filter Uploader.is_start (snd (Uploader.step w (Uploader.UploadSucceeded "doc_2"))) = [] /\
  List.filter Uploader.is_close (snd (Uploader.step w (Uploader.UploadSucceeded "doc_2"))) = [] /\
  In (StatusPolling.GetDocumentStatus 3 "doc_2")
     (snd (StatusPolling.step s (StatusPolling.Rendered "doc_2"))).
Proof.
  cbv zeta. split; [vm_compute; reflexivity|].
  destruct (upload_during_active_job
              (fst (Uploader.run Uploader.initial Uploader.fallback)) "doc_2"
              (fst (StatusPolling.step StatusPolling.initial (StatusPolling.Rendered "doc_1"))))
    as (_ & _ & _ & _ & _ & _ & _ & Hstart & Hclose & _ & _ & _ & _ & Hget & _);
    [vm_compute; reflexivity|reflexivity|].
  split; [exact Hstart|]. split; [exact Hclose|exact Hget].
Defined.

(** C7, as stated, fails: when the channel breaks and the fallback poller
    starts, no status request is issued at that moment nor during the next
    2999 ms; the first one is issued when 3000 ms have passed. *)
Lemma fallback_first_poll_after_interval :
  let w := fst (Uploader.run Uploader.initial Uploader.streaming) in
  let broken := Uploader.step w (Uploader.WsClosed 2 1001) in
  List.filter Uploader.is_onError (snd broken) =
    [ChannelCallback (OnError "WebSocket connection closed unexpectedly")] /\
  List.filter is_request (snd broken) = [] /\
  List.filter is_request (snd (Uploader.elapse (Z.to_nat 2999) (fst broken))) = [] /\
  List.filter is_request (snd (Uploader.elapse (Z.to_nat 3000) (fst broken))) =
    [GetAsyncProcessingStatus 5 "doc_1" "job_1"].
Proof. vm_compute. repeat split. Qed.

Lemma well_formed_initial : Uploader.well_formed Uploader.initial.
Proof. split; [constructor|intros x []]. Qed.

Lemma completing_server_stops : stops_at JobPoller.completing_server 3.
Proof.
  repeat split; [vm_compute; lia|vm_compute; lia| |now right].
  intros k Hk. destruct k as [|[|[|k]]]; try lia; reflexivity.
Qed.

Lemma polling_start_schedule_witness :
  Z.of_nat (length (List.filter (Uploader.is_fired 1)
     (snd (Uploader.elapse (Z.to_nat 7000)
        (fst (Uploader.startStatusPolling "job_1" "doc_1" Uploader.initial)))))) = 2 /\
  JobPoller.request_times
    (JobPoller.pollAsyncJobStatus JobPoller.completing_server "doc_1" "job_1" 0) =
    [0; 2040; 4080] /\
  List.filter StatusPolling.is_get
    (snd (StatusPolling.step StatusPolling.initial (StatusPolling.Rendered "doc_1"))) =
    [StatusPolling.GetDocumentStatus 1 "doc_1"; StatusPolling.GetDocumentStatus 2 "doc_1"].
Proof.
  destruct (polling_start_schedule Uploader.initial "job_1" "doc_1" (Z.to_nat 7000)
              JobPoller.completing_server 3 0 StatusPolling.initial)
    as (_ & _ & Hfired & _ & Htimes & _ & Hgets & _).
  - exact well_formed_initial.
  - exact completing_server_stops.
  - constructor.
  - reflexivity.
  - split; [exact Hfired|]. split; [rewrite Htimes; reflexivity|].
    rewrite Hgets. reflexivity.
Defined.

(** C8, as stated, fails: the channel is open and for 90 seconds nothing
    arrives, not even a pong; three pings are sent, [onError] is never
    called, the socket stays open and in [wsRef], and no poller is started. *)
Lemma silent_channel_no_onError :
  let w := fst (Uploader.run Uploader.initial Uploader.streaming) in
  let silent := Uploader.elapse (Z.to_nat 90000) w in
  List.filter Uploader.is_ping (snd silent) =
    [WsSend 2 "ping"; WsSend 2 "ping"; WsSend 2 "ping"] /\
  List.filter Uploader.is_onError (snd silent) = [] /\
  Uploader.wsRef (fst silent) = Some 2%positive /\
  Uploader.readyState <$> Uploader.sockets (fst silent) !! 2%positive = Some Uploader.OPEN /\
  Uploader.pollIntervalRef (fst silent) = None /\
  Uploader.now (fst silent) = 90000.
Proof. vm_compute. repeat split. Qed.

Lemma keepalive_without_deadline_witness :
  let w := fst (Uploader.run Uploader.initial (removelast Uploader.streaming)) in
  Uploader.well_formed w /\
  Uploader.readyState <$> Uploader.sockets w !! 2%positive = Some Uploader.CONNECTING /\
  List.filter is_timer_call (snd (Uploader.step w (Uploader.WsOpened 2))) =
    [SetInterval 3 30000].
Proof.
  cbv zeta.
  assert (Uploader.well_formed
            (fst (Uploader.run Uploader.initial (removelast Uploader.streaming)))) as Hwf.
  { split; [vm_compute; constructor|vm_compute; intros x []]. }
  split; [exact Hwf|]. split; [vm_compute; reflexivity|].
  destruct (keepalive_without_deadline
              (fst (Uploader.run Uploader.initial (removelast Uploader.streaming)))
              2%positive
              {| Uploader.ws_jobId := "job_1"; Uploader.ws_documentId := "doc_1";
                 Uploader.readyState := Uploader.CONNECTING;
                 Uploader.closeEventFired := false |}
              0 Hwf)
    as (H & _); [vm_compute; reflexivity|reflexivity|].
  exact H.
Defined.

(** * Further properties of the code *)

(** ** Type adapters *)

Section TypeAdapterFacts.

Import TypeAdapters.

Lemma includes_decide (l : list string) (s : string) :
  includes l s = bool_decide (s ∈ l).
Proof.
  unfold includes. induction l as [|x l IH].
  - cbn [existsb]. symmetry. apply bool_decide_eq_false_2, not_elem_of_nil.
  - cbn [existsb]. rewrite IH, eqb_decide.
    destruct (bool_decide_reflect (s = x)) as [->|Hne]; cbn [orb].
    + symmetry. apply bool_decide_eq_true_2. left.
    + destruct (bool_decide_reflect (s ∈ l)) as [Hin|Hnin].
      * symmetry. apply bool_decide_eq_true_2. now right.
      * symmetry. apply bool_decide_eq_false_2. intros Hc.
        apply elem_of_cons in Hc. tauto.
Qed.

Lemma adaptDocumentStatus_returns (apiStatus : string) :
  exists l st, adaptDocumentStatus apiStatus = (l, Js.Returned st).
Proof.
  unfold adaptDocumentStatus.
  repeat match goal with
         | |- context [if ?b then _ else _] => destruct b
         end; simpl; eauto.
Qed.

(** Decide the comparisons of a lower-cased status one by one. *)
Ltac status_cases l :=
  repeat match goal with
         | |- context [String.eqb l ?lit] =>
             destruct (String.eqb_spec l lit) as [->|?]; [vm_compute; reflexivity|]
         end.

(** X1. [adaptDocumentStatus] realises the mapping table of the
    specification: on every status whose lower-casing is not uploading it
    returns what the table gives. *)
Theorem adaptDocumentStatus_table (apiStatus : string) :
  Js.toLowerCase apiStatus <> "uploading" ->
  returned (adaptDocumentStatus apiStatus) = Some (mapStatus_spec apiStatus).
Proof.
  intros Hup. unfold adaptDocumentStatus, mapStatus_spec.
  rewrite <- !includes_decide. unfold includes.
  remember (Js.toLowerCase apiStatus) as l eqn:Hl. clear Hl.
  cbn [existsb].
  destruct (String.eqb_spec l "pending") as [->|?]; [vm_compute; reflexivity|].
  destruct (String.eqb_spec l "uploaded") as [->|?]; [vm_compute; reflexivity|].
  destruct (String.eqb_spec l "uploading") as [->|?]; [contradiction|].
  status_cases l.
  cbn [orb]. destruct (str_includes l "error" || str_includes l "fail"); reflexivity.
Qed.

Lemma adaptDocumentStatus_table_witness :
  Js.toLowerCase "Vectorizing" <> "uploading" /\
  returned (adaptDocumentStatus "Vectorizing") = Some processing.
Proof.
  split; [vm_compute; discriminate|].
  rewrite (adaptDocumentStatus_table "Vectorizing"); [reflexivity|vm_compute; discriminate].
Defined.

(** X2. The two mappers agree on the backend status list: for each of its
    statuses [adaptDocumentStatus] returns what [mapApiStatusToUIStatus]
    returns, and neither prints a warning. *)
Theorem mappers_agree_on_backend_statuses (st : string) :
  isBackendStatus st = true ->
  returned (adaptDocumentStatus st) = returned (mapApiStatusToUIStatus st) /\
  fst (mapApiStatusToUIStatus st) = [] /\
  Forall (fun e => match e with Js.ConsoleWarn _ _ => False | _ => True end)
         (fst (adaptDocumentStatus st)).
Proof.
  unfold isBackendStatus, BACKEND_STATUSES, includes. cbn [existsb].
  intros H.
  repeat match type of H with
         | (String.eqb st ?lit || _) = true =>
             let E := fresh "E" in
             destruct (String.eqb st lit) eqn:E;
               [apply String.eqb_eq in E; subst st; clear H;
                vm_compute; repeat split; repeat constructor|cbn [orb] in H]
         end.
  discriminate H.
Qed.

Lemma mappers_agree_on_backend_statuses_witness :
  isBackendStatus "chunking" = true /\
  returned (adaptDocumentStatus "chunking") = returned (mapApiStatusToUIStatus "chunking").
Proof.
  split; [reflexivity|].
  apply (mappers_agree_on_backend_statuses "chunking"). reflexivity.
Defined.

Section Adapting.

Variable baseUrl : string.

Lemma adaptApiDocumentToUI_cases (d : ApiDocument) :
  match snd (adaptApiDocumentToUI baseUrl d) with
  | Js.Returned u =>
      has_id d = true /\
      Some (ui_id u) = first_truthy (document_id d) (id d) /\
      ui_name u = filename d /\ ui_size u = file_size d /\ ui_totalPages u = page_count d
  | Js.Threw e =>
      has_id d = false /\ e = Js.ErrorInstance "Document ID is missing from API response"
  end.
Proof.
  unfold adaptApiDocumentToUI, has_id.
  destruct (first_truthy (document_id d) (id d)) as [i|] eqn:E; cbn [Js.str_truthy].
  - destruct (String.eqb i ""); cbn [negb]; [cbn; auto|].
    destruct (adaptDocumentStatus_returns (status d)) as (l & st & ->). cbn. auto.
  - cbn. auto.
Qed.

(** X3. The document list query adapts every document or none: it returns
    exactly when each document has a non-empty [document_id] or [id], and
    then gives one UI document per API document, in order, with that id;
    if one document has neither, the whole query throws the missing-id
    error. *)
Theorem documents_query_all_or_nothing (documents : list ApiDocument) :
  match snd (adaptAll baseUrl documents) with
  | Js.Returned us =>
      forallb has_id documents = true /\
      map (fun u => Some (ui_id u)) us =
        map (fun d => first_truthy (document_id d) (id d)) documents
  | Js.Threw e =>
      forallb has_id documents = false /\
      e = Js.ErrorInstance "Document ID is missing from API response"
  end.
Proof.
  induction documents as [|d ds IH]; [cbn; auto|].
  cbn [adaptAll forallb map].
  pose proof (adaptApiDocumentToUI_cases d) as Hd.
  destruct (adaptApiDocumentToUI baseUrl d) as [l [u|e]]; cbn [snd] in Hd.
  - destruct Hd as (Hid & Hu & _). rewrite Hid. cbn [andb].
    unfold Js.bind at 1. cbn [snd].
    destruct (adaptAll baseUrl ds) as [l' [us|e]]; cbn [snd] in IH; cbn.
    + destruct IH as [Hall Hmap]. split; [exact Hall|]. now rewrite Hu, Hmap.
    + exact IH.
  - destruct Hd as [Hid ->]. rewrite Hid. cbn. auto.
Qed.

End Adapting.

End TypeAdapterFacts.

(** ** The document cache and the polling decision *)

Section DocumentQueryFacts.

Import DocumentQueries.

(** X4. A status that is already a UI status passes through
    [updateDocumentStatus] unchanged and without a warning: the cached
    document gets exactly that status and keeps every other field; a missing
    cache entry stays missing. *)
Theorem updateDocumentStatus_frontend (doc : TypeAdapters.UIDocument) (f : FrontendStatus) :
  updateDocumentStatus (Some doc) (FrontendStatus_name f) =
    ([], Js.Returned
           (Some {| TypeAdapters.ui_id := TypeAdapters.ui_id doc;
                    TypeAdapters.ui_name := TypeAdapters.ui_name doc;
                    TypeAdapters.ui_size := TypeAdapters.ui_size doc;
                    TypeAdapters.ui_uploadedAt := TypeAdapters.ui_uploadedAt doc;
                    TypeAdapters.ui_status := f;
                    TypeAdapters.ui_totalPages := TypeAdapters.ui_totalPages doc;
                    TypeAdapters.ui_url := TypeAdapters.ui_url doc |})) /\
  updateDocumentStatus None (FrontendStatus_name f) = ([], Js.Returned None).
Proof. destruct f; split; reflexivity. Qed.

(** X5. A status that is neither a backend nor a UI status makes
    [updateDocumentStatus] store error, with one warning naming it. *)
Theorem updateDocumentStatus_unknown (doc : TypeAdapters.UIDocument) (st : string) :
  isBackendStatus st = false -> isFrontendStatus st = false ->
  exists doc',
    updateDocumentStatus (Some doc) st =
      ([Js.ConsoleWarn "Unknown status type:" st], Js.Returned (Some doc')) /\
    TypeAdapters.ui_status doc' = error /\
    TypeAdapters.ui_id doc' = TypeAdapters.ui_id doc.
Proof.
  intros Hb Hf. unfold updateDocumentStatus, newStatus. rewrite Hb, Hf.
  cbn. eexists. repeat split.
Qed.

Lemma updateDocumentStatus_unknown_witness :
  isBackendStatus "failed" = false /\ isFrontendStatus "failed" = false /\
  forall doc, exists doc',
    updateDocumentStatus (Some doc) "failed" =
      ([Js.ConsoleWarn "Unknown status type:" "failed"], Js.Returned (Some doc')) /\
    TypeAdapters.ui_status doc' = error /\
    TypeAdapters.ui_id doc' = TypeAdapters.ui_id doc.
Proof.
  split; [reflexivity|]. split; [reflexivity|].
  intros doc. apply (updateDocumentStatus_unknown doc "failed"); reflexivity.
Defined.

Section StatusPolling.

Variable apiClient_get : string -> Js.M DocumentService.BackendDocumentResponse.
Variable DOCUMENT_BY_ID : string -> string.

(** X6. The status query polls again, after 2000 ms, exactly when the
    request for the document resolved with a backend status other than
    processed, completed and error; when the request threw, or the status is
    one of these three, polling stops. *)
Theorem status_polling_continues (documentId : string) :
  nextPoll documentId
    (DocumentService.getDocumentStatus apiClient_get DOCUMENT_BY_ID documentId) =
    match snd (apiClient_get (DOCUMENT_BY_ID documentId)) with
    | Js.Returned response =>
        if includes ["processed"; "completed"; "error"]
                    (DocumentService.status response)
        then None else Some 2000
    | Js.Threw _ => None
    end.
Proof.
  unfold nextPoll, DocumentService.getDocumentStatus, Js.try_catch, Js.bind.
  destruct (apiClient_get (DOCUMENT_BY_ID documentId)) as [l [r|e]]; cbn [snd];
    [|reflexivity].
  cbn. unfold DocumentService.frontendStatus_of, includes. cbn [existsb].
  destruct (String.eqb (DocumentService.status r) "processed"); [reflexivity|].
  destruct (String.eqb (DocumentService.status r) "completed"); [reflexivity|].
  destruct (String.eqb (DocumentService.status r) "error"); [reflexivity|].
  destruct (String.eqb (DocumentService.status r) "processing"); reflexivity.
Qed.

End StatusPolling.

(** X7. With a non-empty id, [useDocumentWithStatus] enables status polling
    exactly for the documents whose adapted status is in progress, that is,
    whose lower-cased backend status is one of the eight in-progress names;
    every other status, known or not, disables polling. *)
Theorem shouldPollStatus_adapted (id apiStatus : string) :
  id <> "" ->
  shouldPollStatus id
    (FrontendStatus_name <$> returned (TypeAdapters.adaptDocumentStatus apiStatus)) =
    includes [ "pending"; "uploaded"; "uploading";
               "processing"; "chunking"; "vectorizing"; "indexing"; "parsing" ]
             (Js.toLowerCase apiStatus).
Proof.
  intros Hid. unfold TypeAdapters.adaptDocumentStatus, includes.
  remember (Js.toLowerCase apiStatus) as l eqn:Hl. clear Hl.
  assert (String.eqb id "" = false) as Hid' by (now apply String.eqb_neq).
  cbn [existsb].
  repeat match goal with
         | |- context [String.eqb l ?lit] =>
             destruct (String.eqb_spec l lit) as [->|?];
               [cbn; unfold shouldPollStatus; rewrite Hid'; reflexivity|]
         end.
  cbn [orb].
  destruct (TypeAdapters.str_includes l "error" || TypeAdapters.str_includes l "fail");
    cbn; unfold shouldPollStatus; rewrite Hid'; reflexivity.
Qed.

Lemma shouldPollStatus_adapted_witness :
  "doc_1" <> "" /\
  shouldPollStatus "doc_1"
    (FrontendStatus_name <$> returned (TypeAdapters.adaptDocumentStatus "archived")) = false.
Proof.
  split; [discriminate|].
  rewrite (shouldPollStatus_adapted "doc_1" "archived"); [reflexivity|discriminate].
Defined.

End DocumentQueryFacts.

(** ** The API client *)

Section ApiClientFacts.

Import ApiError ApiClient.

Lemma handleApiError_browser (o : ErrorObject) :
  data o = None -> classified (handleApiError (Some o)).
Proof.
  intros Hd. unfold handleApiError, classified.
  destruct (instanceofTypeError o && _); [left; split; reflexivity|].
  destruct (bool_decide _); [right; left; split; reflexivity|].
  rewrite Hd. destruct (status o); right; right; split; reflexivity.
Qed.

Lemma classified_retryable (e : ApiException) :
  classified e -> isRetryableError e = true.
Proof.
  unfold classified, isRetryableError.
  intros [[Hs Ht]|[[Hs Ht]|[Hs Ht]]]; rewrite Hs, Ht; reflexivity.
Qed.

Context {Json : Type}.
Variable as_ApiError : Json -> ApiError.
Variable logging : bool.
Variable fetch : nat -> FetchResult Json.
Variable timeout : Z.
Variable retries : Z.
Variable isFormData : bool.

#[local] Abbreviation try_body := (ApiClient.try_body Json as_ApiError logging fetch isFormData).
#[local] Abbreviation attempts := (ApiClient.attempts Json as_ApiError logging fetch retries isFormData).
#[local] Abbreviation makeRequest :=
  (ApiClient.makeRequest Json as_ApiError logging fetch timeout retries isFormData).
#[local] Abbreviation succeeds := (ApiClient.succeeds Json as_ApiError logging fetch isFormData).
#[local] Abbreviation log := (ApiClient.log logging).

Lemma fetches_app (a b : list Call) : fetches (a ++ b) = (fetches a + fetches b)%nat.
Proof. unfold fetches. now rewrite List.filter_app, length_app. Qed.

Lemma waits_app (a b : list Call) : waits (a ++ b) = waits a ++ waits b.
Proof. unfold waits. apply omap_app. Qed.

Lemma log_quiet (text : string) :
  fetches (log text) = 0%nat /\ waits (log text) = [] /\
  (forall pending, timer_after pending (log text) = pending) /\
  (forall pending, uncovered pending (log text) = []).
Proof. unfold ApiClient.log. destruct logging; repeat split. Qed.

Lemma try_body_calls (attempt : nat) :
  fetches (fst (try_body attempt)) = 1%nat /\ waits (fst (try_body attempt)) = [].
Proof.
  unfold ApiClient.try_body, ApiClient.log.
  destruct (fetch attempt) as [reason|response]; [split; reflexivity|].
  destruct (negb (ok Json response));
    [destruct logging, isFormData; split; reflexivity|].
  destruct (match r_contentType response with Some _ => _ | None => _ end);
    [destruct (r_body response)|];
    destruct logging, isFormData; split; reflexivity.
Qed.

Lemma try_body_thrown (attempt : nat) (o : ErrorObject) :
  browser_errors Json fetch -> snd (try_body attempt) = inr o -> data o = None.
Proof.
  intros Hb. specialize (Hb attempt). unfold ApiClient.try_body.
  destruct (fetch attempt) as [reason|response].
  - cbn. intros [= <-]. exact Hb.
  - destruct (negb (ok Json response)).
    + cbn. intros [= <-]. reflexivity.
    + destruct (match r_contentType response with Some _ => _ | None => _ end).
      * destruct (r_body response); cbn; [discriminate|]. intros [= <-]. exact Hb.
      * cbn. discriminate.
Qed.

Lemma waits_log (text : string) : waits (log text) = [].
Proof. apply log_quiet. Qed.

Lemma fetches_log (text : string) : fetches (log text) = 0%nat.
Proof. apply log_quiet. Qed.

Lemma attempts_spec :
  browser_errors Json fetch ->
  forall remaining attempt lastError,
    Z.of_nat attempt + Z.of_nat remaining = retries + 1 ->
    (0 < remaining)%nat ->
    match attempts remaining attempt lastError with
    | (calls, Resolved p) =>
        exists k, (attempt <= k)%nat /\ Z.of_nat k <= retries /\
          snd (try_body k) = inl p /\
          (forall j, (attempt <= j < k)%nat -> ~ succeeds j) /\
          fetches calls = S (k - attempt) /\
          waits calls = map backoff (seq attempt (k - attempt))
    | (calls, Rejected None) => False
    | (calls, Rejected (Some e)) =>
        (forall j, (attempt <= j)%nat -> Z.of_nat j <= retries -> ~ succeeds j) /\
        (exists o, snd (try_body (Z.to_nat retries)) = inr o /\
                   e = handleApiError (Some o)) /\
        fetches calls = remaining /\
        waits calls = map backoff (seq attempt (remaining - 1))
    end.
Proof.
  intros Hb. induction remaining as [|rem IH]; intros attempt lastError Heq Hpos; [lia|].
  cbn [ApiClient.attempts].
  destruct (try_body attempt) as [calls outcome] eqn:Et.
  pose proof (try_body_calls attempt) as [Hf Hw]. rewrite Et in Hf, Hw.
  cbn [fst] in Hf, Hw.
  destruct outcome as [p|thrown].
  - exists attempt. rewrite Et, Nat.sub_diag.
    repeat apply conj; [lia|lia|reflexivity| |exact Hf|exact Hw].
    intros j Hj. lia.
  - assert (data thrown = None) as Hd.
    { apply (try_body_thrown attempt); [exact Hb|]. now rewrite Et. }
    rewrite (classified_retryable _ (handleApiError_browser _ Hd)). cbn [negb orb].
    destruct (Z.eqb_spec (Z.of_nat attempt) retries) as [Hlast|Hmore].
    + assert (rem = 0%nat) by lia. subst rem.
      repeat apply conj.
      * intros j Hj1 Hj2 [p Hp]. assert (j = attempt) by lia. subst j.
        rewrite Et in Hp. discriminate Hp.
      * exists thrown. rewrite <- Hlast, Nat2Z.id, Et. split; reflexivity.
      * rewrite !fetches_app, Hf, fetches_log. reflexivity.
      * rewrite !waits_app, Hw, waits_log. reflexivity.
    + assert ((Z.of_nat attempt <? retries) = true) as Hlt by (apply Z.ltb_lt; lia).
      rewrite Hlt.
      specialize (IH (S attempt) (Some (handleApiError (Some thrown)))).
      destruct (attempts rem (S attempt) (Some (handleApiError (Some thrown))))
        as [rest result].
      assert (0 < rem)%nat as Hrem by lia.
      specialize (IH ltac:(lia) Hrem).
      assert (forall j, (attempt <= j)%nat -> ~ (S attempt <= j)%nat -> ~ succeeds j)
        as Hhere.
      { intros j Hj1 Hj2 [p Hp]. assert (j = attempt) by lia. subst j.
        rewrite Et in Hp. discriminate Hp. }
      destruct result as [p|[e|]].
      * destruct IH as (k & Hk1 & Hk2 & Hk3 & Hk4 & Hk5 & Hk6).
        exists k. repeat apply conj; [lia|exact Hk2|exact Hk3| | |].
        -- intros j Hj. destruct (le_lt_dec (S attempt) j) as [Hge|Hlt'].
           ++ apply Hk4. lia.
           ++ apply Hhere; lia.
        -- rewrite !fetches_app, Hf, !fetches_log, Hk5.
           unfold fetches. cbn [List.filter is_fetch length]. lia.
        -- rewrite !waits_app, Hw, !waits_log, Hk6.
           replace (k - attempt)%nat with (S (k - S attempt)) by lia.
           reflexivity.
      * destruct IH as (Hall & Hlast & Hn & Hwaits).
        repeat apply conj; [|exact Hlast| |].
        -- intros j Hj1 Hj2. destruct (le_lt_dec (S attempt) j) as [Hge|Hlt'].
           ++ apply Hall; [exact Hge|exact Hj2].
           ++ apply Hhere; lia.
        -- rewrite !fetches_app, Hf, !fetches_log, Hn.
           unfold fetches. cbn [List.filter is_fetch length]. lia.
        -- rewrite !waits_app, Hw, !waits_log, Hwaits.
           replace (S rem - 1)%nat with (S (rem - 1)) by lia.
           reflexivity.
      * exact IH.
Qed.

Lemma makeRequest_eq :
  makeRequest =
    (StartTimer timeout :: log "Making request"
       ++ (if isFormData then
             [Print "Large file upload detected - starting fetch request...";
              Print "Timeout set to:"]
           else [])
       ++ fst (attempts (Z.to_nat (retries + 1)) 0%nat None),
     snd (attempts (Z.to_nat (retries + 1)) 0%nat None)).
Proof.
  unfold ApiClient.makeRequest.
  destruct (attempts (Z.to_nat (retries + 1)) 0%nat None). reflexivity.
Qed.

Lemma makeRequest_counts :
  fetches (fst makeRequest) = fetches (fst (attempts (Z.to_nat (retries + 1)) 0%nat None)) /\
  waits (fst makeRequest) = waits (fst (attempts (Z.to_nat (retries + 1)) 0%nat None)).
Proof.
  rewrite makeRequest_eq. cbn [fst].
  change (StartTimer timeout :: ?l) with ([StartTimer timeout] ++ l).
  rewrite !fetches_app, !waits_app, fetches_log, waits_log.
  destruct isFormData; split; reflexivity.
Qed.

Lemma makeRequest_spec :
  browser_errors Json fetch -> 0 <= retries ->
  match snd makeRequest with
  | Resolved p =>
      exists k, Z.of_nat k <= retries /\ snd (try_body k) = inl p /\
        (forall j, (j < k)%nat -> ~ succeeds j) /\
        fetches (fst makeRequest) = S k /\
        waits (fst makeRequest) = map backoff (seq 0 k)
  | Rejected None => False
  | Rejected (Some e) =>
      (forall j, Z.of_nat j <= retries -> ~ succeeds j) /\
      (exists o, snd (try_body (Z.to_nat retries)) = inr o /\ data o = None /\
                 e = handleApiError (Some o)) /\
      fetches (fst makeRequest) = Z.to_nat (retries + 1) /\
      waits (fst makeRequest) = map backoff (seq 0 (Z.to_nat retries))
  end.
Proof.
  intros Hb Hr.
  destruct makeRequest_counts as [-> ->]. rewrite makeRequest_eq. cbn [snd].
  pose proof (attempts_spec Hb (Z.to_nat (retries + 1)) 0%nat None
                ltac:(lia) ltac:(lia)) as H.
  destruct (attempts (Z.to_nat (retries + 1)) 0%nat None) as [calls [p|[e|]]];
    cbn [fst snd].
  - destruct H as (k & _ & Hk2 & Hk3 & Hk4 & Hk5 & Hk6).
    exists k. rewrite Nat.sub_0_r in Hk5, Hk6.
    repeat apply conj; try assumption. intros j Hj. apply Hk4. lia.
  - destruct H as (Hall & (o & Ho & He) & Hn & Hw).
    repeat apply conj; try assumption.
    + intros j Hj. apply Hall; [lia|exact Hj].
    + exists o. repeat apply conj; try assumption.
      apply (try_body_thrown (Z.to_nat retries)); assumption.
    + rewrite Hw. f_equal. f_equal. lia.
  - exact H.
Qed.

(** X8. When [makeRequest] rejects, it has called [fetch] [retries + 1]
    times and no attempt returned; the exception it throws is one of three
    kinds (network, status 0; time-out, status 408; unknown, status 500) and
    every one of them counts as retryable. *)
Theorem makeRequest_rejects_after_all_attempts (lastError : option ApiException) :
  browser_errors Json fetch -> 0 <= retries ->
  snd makeRequest = Rejected lastError ->
  exists e, lastError = Some e /\ classified e /\ isRetryableError e = true /\
    (forall j, Z.of_nat j <= retries -> ~ succeeds j) /\
    fetches (fst makeRequest) = Z.to_nat (retries + 1).
Proof.
  intros Hb Hr Hrej. pose proof (makeRequest_spec Hb Hr) as H.
  rewrite Hrej in H. destruct lastError as [e|]; [|contradiction].
  destruct H as (Hall & (o & _ & Hd & ->) & Hn & _).
  exists (handleApiError (Some o)).
  pose proof (handleApiError_browser o Hd) as Hc.
  repeat apply conj; try assumption; [reflexivity|].
  now apply classified_retryable.
Qed.

(** X9. When [fetch] and [json()] reject only with values that have no
    [data] property, as the errors of a browser do, [makeRequest] resolves
    with the result of the first attempt that returns, if there is one
    among the attempts 0 to [retries]: a failed attempt never ends the
    request early. *)
Theorem makeRequest_resolves_first_success (p : Payload Json) :
  browser_errors Json fetch -> 0 <= retries ->
  snd makeRequest = Resolved p <->
  exists k, Z.of_nat k <= retries /\ snd (try_body k) = inl p /\
            forall j, (j < k)%nat -> ~ succeeds j.
Proof.
  intros Hb Hr. pose proof (makeRequest_spec Hb Hr) as H. split.
  - intros Hres. rewrite Hres in H.
    destruct H as (k & Hk1 & Hk2 & Hk3 & _). exists k. auto.
  - intros (k & Hk1 & Hk2 & Hk3).
    destruct (snd makeRequest) as [p'|[e|]]; [| |contradiction].
    + destruct H as (k' & Hk1' & Hk2' & Hk3' & _).
      destruct (lt_eq_lt_dec k k') as [[Hlt|Heq]|Hgt].
      * exfalso. apply (Hk3' k Hlt). exists p. exact Hk2.
      * subst k'. rewrite Hk2 in Hk2'. now inversion Hk2'.
      * exfalso. apply (Hk3 k' Hgt). exists p'. exact Hk2'.
    + destruct H as (Hall & _). exfalso. apply (Hall k Hk1). exists p. exact Hk2.
Qed.

(** X10. Between two attempts [makeRequest] waits 1000, 2000, 4000, ...
    milliseconds: after [n] calls of [fetch] it has waited [n - 1] times,
    the [i]-th time for [2^i * 1000] ms, and it never calls [fetch] more
    than [retries + 1] times. *)
Theorem makeRequest_backoff :
  browser_errors Json fetch -> 0 <= retries ->
  waits (fst makeRequest) = map backoff (seq 0 (fetches (fst makeRequest) - 1)) /\
  (1 <= fetches (fst makeRequest) <= Z.to_nat (retries + 1))%nat.
Proof.
  intros Hb Hr. pose proof (makeRequest_spec Hb Hr) as H.
  destruct (snd makeRequest) as [p|[e|]]; [| |contradiction].
  - destruct H as (k & Hk1 & _ & _ & -> & ->). cbn [Nat.sub].
    rewrite Nat.sub_0_r. split; [reflexivity|lia].
  - destruct H as (_ & _ & -> & ->). split; [|lia].
    f_equal. f_equal. lia.
Qed.

(** X11. An HTTP error response is never reported with its own status: when
    the last attempt gets a response that is not ok, whatever its status and
    body, [makeRequest] throws an exception of status 500 and type
    UnknownError, after it has retried the request [retries] times. *)
Theorem makeRequest_http_error_status (response : Response Json) :
  browser_errors Json fetch -> 0 <= retries ->
  (forall j, Z.of_nat j < retries -> ~ succeeds j) ->
  fetch (Z.to_nat retries) = FetchResolved response ->
  ok Json response = false ->
  exists e, snd makeRequest = Rejected (Some e) /\
    ex_status e = 500 /\ ex_type e = "UnknownError" /\
    fetches (fst makeRequest) = Z.to_nat (retries + 1).
Proof.
  intros Hb Hr Hfail Hlast Hok.
  assert (exists exc, snd (try_body (Z.to_nat retries)) = inr (thrown_exception exc))
    as [exc Hthrown].
  { unfold ApiClient.try_body. rewrite Hlast, Hok. cbn. eauto. }
  pose proof (makeRequest_spec Hb Hr) as H.
  destruct (snd makeRequest) as [p|[e|]]; [| |contradiction].
  - exfalso. destruct H as (k & Hk1 & Hk2 & _).
    destruct (Z.eq_dec (Z.of_nat k) retries) as [Heq|Hne].
    + rewrite <- Heq, Nat2Z.id in Hthrown. rewrite Hthrown in Hk2. discriminate.
    + apply (Hfail k); [lia|]. exists p. exact Hk2.
  - destruct H as (_ & (o & Ho & _ & ->) & Hn & _).
    rewrite Hthrown in Ho. inversion Ho; subst o.
    eexists. repeat apply conj; [reflexivity|reflexivity|reflexivity|exact Hn].
Qed.

(** X12. Once the request is aborted the retry loop does not stop: when every
    attempt rejects with an AbortError, [makeRequest] still calls [fetch]
    [retries + 1] times and waits between the calls, then throws the
    time-out exception of status 408. *)
Theorem makeRequest_aborted (reason : nat -> ErrorObject) :
  0 <= retries ->
  (forall k, fetch k = FetchRejected (reason k)) ->
  (forall k, instanceofTypeError (reason k) = false /\
             name (reason k) = Some "AbortError" /\ data (reason k) = None) ->
  exists e, snd makeRequest = Rejected (Some e) /\
    ex_status e = 408 /\ ex_type e = "TimeoutError" /\
    fetches (fst makeRequest) = Z.to_nat (retries + 1) /\
    waits (fst makeRequest) = map backoff (seq 0 (Z.to_nat retries)).
Proof.
  intros Hr Hfetch Hreason.
  assert (browser_errors Json fetch) as Hb.
  { intros k. rewrite Hfetch. apply Hreason. }
  pose proof (makeRequest_spec Hb Hr) as H.
  destruct (snd makeRequest) as [p|[e|]]; [| |contradiction].
  - exfalso. destruct H as (k & _ & Hk2 & _).
    unfold ApiClient.try_body in Hk2. rewrite Hfetch in Hk2. discriminate.
  - destruct H as (_ & (o & Ho & _ & ->) & Hn & Hw).
    unfold ApiClient.try_body in Ho. rewrite Hfetch in Ho. inversion Ho; subst o.
    destruct (Hreason (Z.to_nat retries)) as (Ht & Hname & _).
    eexists. split; [reflexivity|].
    unfold handleApiError. rewrite Ht, Hname. cbn [andb].
    rewrite bool_decide_eq_true_2 by reflexivity.
    repeat apply conj; [reflexivity|reflexivity|exact Hn|exact Hw].
Qed.

(** X13. The retry policy of the query client refuses a rejection of
    [makeRequest] only when it is a time-out: the rule against retrying 4xx
    errors never applies to an HTTP error response, which arrives with
    status 500. *)
Theorem query_retry_of_makeRequest (e : ApiException) (failureCount : nat) :
  browser_errors Json fetch -> 0 <= retries ->
  snd makeRequest = Rejected (Some e) ->
  QueryClient.retry failureCount (Some (ex_status e)) =
    negb (String.eqb (ex_type e) "TimeoutError") && (failureCount <? 3)%nat.
Proof.
  intros Hb Hr Hrej. pose proof (makeRequest_spec Hb Hr) as H.
  rewrite Hrej in H. destruct H as (_ & (o & _ & Hd & ->) & _).
  destruct (handleApiError_browser o Hd) as [[Hs Ht]|[[Hs Ht]|[Hs Ht]]];
    rewrite Hs, Ht; reflexivity.
Qed.

Lemma timer_after_app (pending : bool) (a b : list Call) :
  timer_after pending (a ++ b) = timer_after (timer_after pending a) b.
Proof.
  revert pending. induction a as [|c a IH]; intros pending; [reflexivity|].
  destruct c; cbn; apply IH.
Qed.

Lemma uncovered_app (pending : bool) (a b : list Call) :
  uncovered pending (a ++ b) = uncovered pending a ++ uncovered (timer_after pending a) b.
Proof.
  revert pending. induction a as [|c a IH]; intros pending; [reflexivity|].
  destruct c; cbn; rewrite ?IH, ?app_assoc; reflexivity.
Qed.

Lemma try_body_uncovered (pending : bool) (attempt : nat) :
  uncovered pending (fst (try_body attempt)) = if pending then [] else [attempt].
Proof.
  unfold ApiClient.try_body, ApiClient.log.
  destruct (fetch attempt) as [reason|response]; [destruct pending; reflexivity|].
  destruct (negb (ok Json response));
    [destruct logging, isFormData, pending; reflexivity|].
  destruct (match r_contentType response with Some _ => _ | None => _ end);
    [destruct (r_body response)|];
    destruct logging, isFormData, pending; reflexivity.
Qed.

Lemma caught_stops_timer (pending : bool) (calls : list Call) (text : string) :
  timer_after pending (calls ++ [StopTimer] ++ log text) = false /\
  uncovered pending (calls ++ [StopTimer] ++ log text) = uncovered pending calls.
Proof.
  destruct (log_quiet text) as (_ & _ & Ht & Hu).
  rewrite !timer_after_app, !uncovered_app, Ht, Hu. cbn.
  now rewrite app_nil_r.
Qed.

Lemma attempts_uncovered (remaining attempt : nat) (lastError : option ApiException)
    (pending : bool) :
  uncovered pending (fst (attempts remaining attempt lastError)) =
    if pending
    then seq (S attempt) (fetches (fst (attempts remaining attempt lastError)) - 1)
    else seq attempt (fetches (fst (attempts remaining attempt lastError))).
Proof.
  revert attempt lastError pending.
  induction remaining as [|rem IH]; intros attempt lastError pending;
    [destruct pending; reflexivity|].
  cbn [ApiClient.attempts].
  pose proof (try_body_uncovered pending attempt) as Hu.
  pose proof (try_body_calls attempt) as [Hf _].
  destruct (try_body attempt) as [calls outcome]. cbn [fst] in Hu, Hf.
  destruct outcome as [p|thrown].
  - cbn [fst]. rewrite Hu, Hf. destruct pending; reflexivity.
  - destruct (caught_stops_timer pending calls "Error on attempt") as [Hstop Hsame].
    destruct (negb _ || _).
    + cbn [fst]. rewrite Hsame, !fetches_app, Hf, fetches_log, Hu.
      destruct pending; reflexivity.
    + specialize (IH (S attempt) (Some (handleApiError (Some thrown))) false).
      destruct (attempts rem (S attempt) (Some (handleApiError (Some thrown))))
        as [rest result].
      cbn [fst] in *.
      rewrite (uncovered_app pending (calls ++ [StopTimer] ++ log "Error on attempt")).
      rewrite Hstop, Hsame, Hu.
      destruct (log_quiet "Retrying") as (Hlf & _ & Hlt & Hlu).
      assert (uncovered false
                ((if Z.of_nat attempt <? retries
                  then log "Retrying" ++ [Wait (2 ^ Z.of_nat attempt * 1000)]
                  else []) ++ rest) = uncovered false rest /\
              fetches
                ((if Z.of_nat attempt <? retries
                  then log "Retrying" ++ [Wait (2 ^ Z.of_nat attempt * 1000)]
                  else []) ++ rest) = fetches rest) as [-> Hfr].
      { destruct (Z.of_nat attempt <? retries); [|split; reflexivity].
        rewrite !uncovered_app, !timer_after_app, Hlu, Hlt, !fetches_app, Hlf.
        split; reflexivity. }
      rewrite fetches_app, Hfr, !fetches_app, Hf, fetches_log, IH.
      destruct pending; cbn; rewrite ?Nat.sub_0_r; reflexivity.
Qed.

(** X14. Only the first attempt of [makeRequest] runs under the time-out:
    the abort timer is started once, before the loop, and stopped when the
    first [fetch] settles, so every later attempt calls [fetch] with no
    timer pending. *)
Theorem makeRequest_timeout_covers_first_attempt :
  uncovered false (fst makeRequest) = seq 1 (fetches (fst makeRequest) - 1).
Proof.
  destruct makeRequest_counts as [-> _]. rewrite makeRequest_eq. cbn [fst uncovered].
  destruct (log_quiet "Making request") as (_ & _ & Ht & Hu).
  rewrite !uncovered_app, Hu, Ht.
  rewrite (attempts_uncovered _ _ _ _).
  destruct isFormData; reflexivity.
Qed.

End ApiClientFacts.

Lemma makeRequest_rejects_after_all_attempts_witness :
  exists e, ApiError.classified e /\
    ApiClient.fetches
      (fst (ApiClient.makeRequest unit ApiClient.no_fields false
              (ApiClient.always ApiClient.not_found) 30000 3 false)) = 4%nat.
Proof.
  edestruct (makeRequest_rejects_after_all_attempts
               ApiClient.no_fields false (ApiClient.always ApiClient.not_found)
               30000 3 false) as (e & _ & Hc & _ & _ & Hn).
  - intros k. exact I.
  - lia.
  - vm_compute. reflexivity.
  - exists e. split; [exact Hc|exact Hn].
Defined.

Lemma makeRequest_resolves_first_success_witness :
  snd (ApiClient.makeRequest unit ApiClient.no_fields false ApiClient.flaky 30000 3 false)
    = ApiClient.Resolved (ApiClient.Data tt).
Proof.
  apply (makeRequest_resolves_first_success
           ApiClient.no_fields false ApiClient.flaky 30000 3 false).
  - intros [|[|k]]; cbn; auto.
  - lia.
  - exists 2%nat. repeat apply conj; [lia|reflexivity|].
    intros [|[|j]] Hj [p Hp]; [discriminate Hp|discriminate Hp|lia].
Defined.

Lemma makeRequest_backoff_witness :
  ApiClient.waits
    (fst (ApiClient.makeRequest unit ApiClient.no_fields false ApiClient.flaky 30000 3 false))
    = [1000; 2000].
Proof.
  destruct (makeRequest_backoff
              ApiClient.no_fields false ApiClient.flaky 30000 3 false) as [Hw _].
  - intros [|[|k]]; cbn; auto.
  - lia.
  - rewrite Hw. reflexivity.
Defined.

Lemma makeRequest_http_error_status_witness :
  exists e,
    snd (ApiClient.makeRequest unit ApiClient.no_fields false
           (ApiClient.always ApiClient.not_found) 30000 3 false)
      = ApiClient.Rejected (Some e) /\
    ApiError.ex_status e = 500.
Proof.
  destruct (makeRequest_http_error_status
              ApiClient.no_fields false (ApiClient.always ApiClient.not_found)
              30000 3 false ApiClient.not_found) as (e & He & Hs & _).
  - intros k. exact I.
  - lia.
  - intros j _ [p Hp]. discriminate Hp.
  - reflexivity.
  - reflexivity.
  - exists e. split; [exact He|exact Hs].
Defined.

Lemma makeRequest_aborted_witness :
  exists e,
    snd (ApiClient.makeRequest unit ApiClient.no_fields false ApiClient.aborted 30000 3 false)
      = ApiClient.Rejected (Some e) /\
    ApiError.ex_status e = 408 /\
    ApiClient.waits
      (fst (ApiClient.makeRequest unit ApiClient.no_fields false ApiClient.aborted
              30000 3 false)) = [1000; 2000; 4000].
Proof.
  destruct (makeRequest_aborted
              ApiClient.no_fields false ApiClient.aborted 30000 3 false
              (fun _ => {| ApiError.instanceofTypeError := false;
                           ApiError.name := Some "AbortError";
                           ApiError.message := Some "signal is aborted without reason";
                           ApiError.status := None;
                           ApiError.data := None |}))
    as (e & He & Hs & _ & _ & Hw).
  - lia.
  - intros k. reflexivity.
  - intros k. repeat split.
  - exists e. repeat apply conj; [exact He|exact Hs|exact Hw].
Defined.

Lemma query_retry_of_makeRequest_witness :
  exists e,
    snd (ApiClient.makeRequest unit ApiClient.no_fields false
           (ApiClient.always ApiClient.not_found) 30000 3 false)
      = ApiClient.Rejected (Some e) /\
    QueryClient.retry 0 (Some (ApiError.ex_status e)) = true.
Proof.
  eexists. split; [vm_compute; reflexivity|].
  rewrite (query_retry_of_makeRequest
             ApiClient.no_fields false (ApiClient.always ApiClient.not_found)
             30000 3 false _ 0).
  - reflexivity.
  - intros k. exact I.
  - lia.
  - vm_compute. reflexivity.
Defined.

(** ** Error messages and query defaults *)

Section ErrorFacts.

Import ApiError.

(** X15. An error object that has a [type] is never displayed as an empty
    message, whatever its type and message; an error without a [type] is
    displayed by its message alone, even an empty one. *)
Theorem getErrorDisplayMessage_typed_nonempty :
  (forall (type : string) (message : option string),
     getErrorDisplayMessage (Some (Some type, message)) <> "") /\
  (forall e : ApiException, displayed e <> "") /\
  (forall message : string, getErrorDisplayMessage (Some (None, Some message)) = message).
Proof.
  assert (forall (type : string) (message : option string),
             getErrorDisplayMessage (Some (Some type, message)) <> "") as H.
  { intros type message. unfold getErrorDisplayMessage.
    repeat match goal with
           | |- context [if String.eqb type ?lit then _ else _] =>
               destruct (String.eqb type lit); [discriminate|]
           end.
    unfold Js.str_or. destruct message as [m|]; [|discriminate].
    destruct (String.eqb_spec m ""); [discriminate|assumption]. }
  repeat apply conj; [exact H| |reflexivity].
  intros e. apply H.
Qed.

(** X16. Whenever the retry predicate of the query client allows another
    attempt, the delay before it is [1000 * 2^failureCount] ms and at most
    4000 ms: the cap of 30000 ms of [retryDelay] is never reached. *)
Theorem retryDelay_under_retry (failureCount : nat) (status : option Z) :
  QueryClient.retry failureCount status = true ->
  QueryClient.retryDelay failureCount = 1000 * 2 ^ Z.of_nat failureCount /\
  QueryClient.retryDelay failureCount <= 4000.
Proof.
  intros H.
  assert (failureCount < 3)%nat as Hlt.
  { unfold QueryClient.retry in H.
    destruct status as [st|];
      [destruct (negb (st =? 0) && (400 <=? st) && (st <? 500)); [discriminate|]|];
      now apply Nat.ltb_lt in H. }
  destruct failureCount as [|[|[|n]]]; [split; vm_compute; congruence ..|lia].
Qed.

Lemma retryDelay_under_retry_witness :
  QueryClient.retry 2 (Some 500) = true /\ QueryClient.retryDelay 2 = 4000.
Proof.
  split; [reflexivity|].
  destruct (retryDelay_under_retry 2 (Some 500)) as [H _]; [reflexivity|].
  rewrite H. reflexivity.
Defined.

End ErrorFacts.

(** ** Uploading *)

Section UploadFacts.

Import Upload.

Lemma logged_outcome {A} (entry : Js.LogEntry) (k : Js.M A) :
  snd (perform Js.console entry then k) = snd k.
Proof. unfold Js.bind, Js.console. destruct k as [l r]. reflexivity. Qed.

Lemma rethrown_outcome {A} (m : Js.M A) (done failed : Js.LogEntry) :
  snd (Js.try_catch
         (let* result := m in perform Js.console done then Js.ret result)
         (fun thrown => perform Js.console failed then Js.throw thrown)) = snd m.
Proof. destruct m as [l [a|e]]; reflexivity. Qed.

Lemma fileSizeMB_le (file : File) (n : Z) :
  (fileSizeMB file <= inject_Z n)%Q <-> size file <= n * (1024 * 1024).
Proof.
  unfold fileSizeMB. change (inject_Z (1024 * 1024)) with (1048576 # 1).
  unfold Qle, Qdiv, Qmult, Qinv, inject_Z. cbn. lia.
Qed.

Lemma fileSizeMB_times (file : File) (factor n : Z) :
  0 < factor ->
  (fileSizeMB file * inject_Z factor <= inject_Z n)%Q <->
  size file * factor <= n * (1024 * 1024).
Proof.
  intros Hf. unfold fileSizeMB. change (inject_Z (1024 * 1024)) with (1048576 # 1).
  unfold Qle, Qdiv, Qmult, Qinv, inject_Z. cbn. lia.
Qed.

Variable Response : Type.
Variable round : Q -> Q.
Variable randomUUID : string.
Variable apiClient_upload :
  string -> list (string * FormValue) -> RequestOptions -> Js.M Response.

#[local] Abbreviation uploadDocument :=
  (Upload.uploadDocument Response round randomUUID apiClient_upload).

(** X17. A file of at most 10 MiB is uploaded to /documents/upload with a
    time-out of exactly 60000 ms unless the caller gave one: on this route
    the term of 5 seconds per megabyte is at most 50000 and never counts. *)
Theorem uploadDocument_standard_timeout (file : File) (options : option RequestOptions) :
  rounding round ->
  0 <= size file <= 10 * (1024 * 1024) ->
  no_timeout options ->
  snd (uploadDocument file options) =
    snd (apiClient_upload "/documents/upload" [ ("file", FileEntry file) ]
           {| opt_timeout := Some 60000%Q;
              opt_retries := options ≫= opt_retries |}).
Proof.
  intros [Hmono Hexact] Hsize Hopt. unfold Upload.uploadDocument.
  rewrite logged_outcome.
  assert (Qle_bool (fileSizeMB file) 10 = true) as ->.
  { apply Qle_bool_iff. apply (fileSizeMB_le file 10). lia. }
  cbn [negb]. rewrite logged_outcome, rethrown_outcome.
  assert (Math_max 60000 (round (fileSizeMB file * 5000)) = 60000%Q) as ->.
  { unfold Math_max.
    destruct (Qle_bool 60000 (round (fileSizeMB file * 5000))) eqn:E; [|reflexivity].
    exfalso. apply Qle_bool_iff in E.
    assert (fileSizeMB file * 5000 <= inject_Z 50000)%Q as Hle.
    { apply (fileSizeMB_times file 5000 50000); lia. }
    apply Hmono in Hle. rewrite (Hexact 50000) in Hle by lia.
    pose proof (Qle_trans _ _ _ E Hle) as Habs.
    unfold Qle, inject_Z in Habs. cbn in Habs. lia. }
  destruct options as [o|]; cbn in *; [rewrite Hopt|]; reflexivity.
Qed.

(** X18. When [uploadDocument] is called without options (so unless the
    caller gave a time-out), a file of more than 10 MiB goes to
    /documents/upload-large with the four form fields of that route and a
    time-out of at least 300000 ms: exactly 300000 ms up to 20 MiB, and the
    rounded 15 seconds per megabyte from 20 MiB on. *)
Theorem uploadDocument_large_timeout (file : File) :
  rounding round ->
  10 * (1024 * 1024) < size file ->
  exists uploadTimeout : Q,
    snd (uploadDocument file None) =
      snd (apiClient_upload "/documents/upload-large"
             [ ("file", FileEntry file);
               ("auto_process", TextEntry "true");
               ("enable_optimization", TextEntry "true");
               ("client_id", TextEntry randomUUID) ]
             {| opt_timeout := Some uploadTimeout; opt_retries := None |}) /\
    (300000 <= uploadTimeout)%Q /\
    (size file <= 20 * (1024 * 1024) -> (uploadTimeout == 300000)%Q) /\
    (20 * (1024 * 1024) <= size file ->
     (uploadTimeout == round (fileSizeMB file * 15000))%Q).
Proof.
  intros [Hmono Hexact] Hsize.
  exists (Math_max 300000 (round (fileSizeMB file * 15000))).
  repeat apply conj.
  - unfold Upload.uploadDocument. rewrite logged_outcome.
    assert (Qle_bool (fileSizeMB file) 10 = false) as ->.
    { apply not_true_is_false. intros E. apply Qle_bool_iff in E.
      apply (fileSizeMB_le file 10) in E. lia. }
    cbn [negb]. rewrite logged_outcome. unfold Upload.uploadLargeDocument.
    rewrite !logged_outcome, rethrown_outcome. reflexivity.
  - unfold Math_max.
    destruct (Qle_bool 300000 (round (fileSizeMB file * 15000))) eqn:E.
    + now apply Qle_bool_iff in E.
    + apply Qle_refl.
  - intros Hsmall. unfold Math_max.
    destruct (Qle_bool 300000 (round (fileSizeMB file * 15000))) eqn:E;
      [|reflexivity].
    apply Qle_bool_iff in E. apply Qle_antisym; [|exact E].
    assert (fileSizeMB file * 15000 <= inject_Z 300000)%Q as Hle.
    { apply (fileSizeMB_times file 15000 300000); lia. }
    apply Hmono in Hle. rewrite (Hexact 300000) in Hle by lia. exact Hle.
  - intros Hbig. unfold Math_max.
    destruct (Qle_bool 300000 (round (fileSizeMB file * 15000))) eqn:E;
      [reflexivity|].
    apply Qle_antisym.
    + assert (inject_Z 300000 <= fileSizeMB file * 15000)%Q as Hle.
      { unfold fileSizeMB. change (inject_Z (1024 * 1024)) with (1048576 # 1).
  unfold Qle, Qdiv, Qmult, Qinv, inject_Z. cbn. lia. }
      apply Hmono in Hle. rewrite (Hexact 300000) in Hle by lia. exact Hle.
    + apply Qnot_lt_le. intros Hlt. apply Qlt_le_weak in Hlt.
      apply Qle_bool_iff in Hlt. congruence.
Qed.

End UploadFacts.

Lemma uploadDocument_standard_timeout_witness :
  let upload := fun (endpoint : string) (formData : list (string * Upload.FormValue))
                    (options : Upload.RequestOptions) => Js.ret options in
  let file := {| Upload.file_name := "notes.pdf"; Upload.size := 5 * 1024 * 1024;
                 Upload.file_type := "application/pdf" |} in
  snd (Upload.uploadDocument Upload.RequestOptions (fun x => x) "uuid" upload file None) =
    Js.Returned {| Upload.opt_timeout := Some 60000%Q; Upload.opt_retries := None |}.
Proof.
  intros upload file.
  rewrite (uploadDocument_standard_timeout Upload.RequestOptions (fun x => x) "uuid" upload
             file None).
  - reflexivity.
  - split; [intros x y H; exact H|intros n _; reflexivity].
  - cbn. lia.
  - exact I.
Defined.

Lemma uploadDocument_large_timeout_witness :
  let upload := fun (endpoint : string) (formData : list (string * Upload.FormValue))
                    (options : Upload.RequestOptions) => Js.ret endpoint in
  let file := {| Upload.file_name := "book.pdf"; Upload.size := 15 * 1024 * 1024;
                 Upload.file_type := "application/pdf" |} in
  snd (Upload.uploadDocument string (fun x => x) "uuid" upload file None) =
    Js.Returned "/documents/upload-large".
Proof.
  intros upload file.
  destruct (uploadDocument_large_timeout string (fun x => x) "uuid" upload file)
    as (t & -> & _).
  - split; [intros x y H; exact H|intros n _; reflexivity].
  - cbn. lia.
  - reflexivity.
Defined.

(** ** The uploader container, further *)

Section UploaderMore.

Import Uploader.

Lemma finishing_steady (h : Handler) :
  h = onCompleted \/ (exists a b, h = onFailed a b) ->
  forall w,
    uploadedDocumentId (fst (h w)) = uploadedDocumentId w /\
    currentJobId (fst (h w)) = None /\
    fresh (fst (h w)) = fresh w /\
    List.filter is_start (snd (h w)) = [].
Proof.
  intros [->|(a & b & ->)] [d j [r|] [t|] so ti st po fr nw]; cbn; repeat split.
Qed.

Lemma terminal_report_steady (w : World) (ev : Event) :
  terminal_report w ev = true ->
  uploadedDocumentId (fst (handle ev w)) = uploadedDocumentId w /\
  currentJobId (fst (handle ev w)) = None /\
  fresh (fst (handle ev w)) = fresh w /\
  List.filter is_start (snd (handle ev w)) = [].
Proof.
  intros H. destruct ev; try discriminate H; simpl in H.
  - destruct data as [|type p st]; [discriminate|].
    destruct (sockets w !! ws) as [s|] eqn:Hs; [|discriminate].
    destruct (readyState s) eqn:Hr; try discriminate.
    apply andb_true_iff in H. destruct H as [Ht Hst].
    apply String.eqb_eq in Ht. subst type.
    unfold handle, read. rewrite Hs, Hr. unfold ws_onmessage.
    cbn [String.eqb Ascii.eqb Bool.eqb andb]. unfold call.
    rewrite block_cons, block_one. unfold onStatusChange.
    rewrite block_cons, block_one. cbn [fst snd emit app List.filter is_start].
    destruct (terminal_status_cases st Hst) as [-> | ->];
      cbn [String.eqb Ascii.eqb Bool.eqb]; apply finishing_steady; eauto.
  - apply andb_true_iff in H. destruct H as [Hreq Hst].
    apply bool_decide_eq_true in Hreq. destruct Hreq as [r Hr].
    unfold handle, read. rewrite Hr.
    rewrite block_cons, block_one. unfold pollResolved.
    rewrite block_cons, block_one. cbn [fst snd update app].
    set (w0 := set_polling (delete req (polling w)) w).
    assert (uploadedDocumentId w0 = uploadedDocumentId w /\ fresh w0 = fresh w)
      as [Hd Hf] by (destruct w; split; reflexivity).
    rewrite <- Hd, <- Hf.
    assert (forall w1,
               fst ((match progress st with
                     | Some p => emit (OnUploadProgress (progressUpdate p))
                     | None => skip end) w1) = w1 /\
               List.filter is_start
                 (snd ((match progress st with
                        | Some p => emit (OnUploadProgress (progressUpdate p))
                        | None => skip end) w1)) = []) as Hp.
    { intros w1. destruct (progress st); split; reflexivity. }
    destruct (Hp w0) as [-> Hq]. rewrite List.filter_app, Hq. cbn [app].
    destruct (terminal_status_cases _ Hst) as [-> | ->];
      cbn [String.eqb Ascii.eqb Bool.eqb]; apply finishing_steady; eauto.
Qed.

(** X19. A finished job is started again: when a terminal status report is
    handled while a job id is current and the uploaded document id is still
    set, the reset of the job id makes the effect run again, and it posts a
    new processing request for the same document. *)
Theorem terminal_report_restarts_processing (w : World) (ev : Event)
    (documentId : string) :
  terminal_report w ev = true ->
  uploadedDocumentId w = Some documentId -> documentId <> "" ->
  currentJobId w <> None ->
  List.filter is_start (snd (step w ev)) = [PostProcessAsync (fresh w) documentId] /\
  starting (fst (step w ev)) !! fresh w = Some documentId /\
  currentJobId (fst (step w ev)) = None.
Proof.
  intros H Hdoc Hne Hjob.
  destruct (terminal_report_steady w ev H) as (Hd & Hj & Hf & Hs).
  rewrite step_eq. cbn [fst snd]. rewrite List.filter_app, Hs. cbn [app].
  unfold render.
  rewrite bool_decide_eq_false_2.
  2:{ unfold deps. rewrite Hj. intros E. inversion E as [[E1 E2]].
      apply Hjob. now rewrite <- E2. }
  unfold processingEffect, read. rewrite Hd, Hdoc, Hj.
  assert (Js.str_truthy (Some documentId) = true) as ->.
  { cbn. apply negb_true_iff, String.eqb_neq, Hne. }
  cbn [Js.str_truthy negb andb default].
  rewrite <- Hf.
  destruct (fst (handle ev w)) as [d j r t so ti st po fr nw]. cbn.
  cbn in Hj. repeat split; [apply lookup_insert_eq|exact Hj].
Qed.

End UploaderMore.

Lemma terminal_report_restarts_processing_witness :
  let w := fst (Uploader.run Uploader.initial Uploader.streaming) in
  List.filter Uploader.is_start
    (snd (Uploader.step w (Uploader.WsMessage 2 (Uploader.Json "job_status" None "completed"))))
    = [PostProcessAsync (Uploader.fresh w) "doc_1"].
Proof.
  intros w.
  apply (terminal_report_restarts_processing w
           (Uploader.WsMessage 2 (Uploader.Json "job_status" None "completed")) "doc_1");
    vm_compute; congruence.
Defined.

(** ** Job polling after upload, further *)

Section JobPollerMore.

#[local] Abbreviation poll_induction := poll_elim.

Import JobPoller.

Variable server : nat -> Reply.
Variables documentId jobId : string.

#[local] Abbreviation poll' := (JobPoller.poll server documentId jobId).
#[local] Abbreviation request' := (JobPoller.request documentId jobId).

Lemma after_reply_spec (k : nat) (r : Settled) (effs : list Effect) (c : bool) :
  after_reply documentId k r = (effs, c) ->
  List.filter is_request effs = [] /\
  List.filter is_timer_call effs = (if c then [SetTimeout 2000] else []) /\
  c = in_progress r && (k <? maxAttempts)%nat.
Proof.
  unfold after_reply, in_progress. destruct r as [js|].
  - destruct (String.eqb (status js) "completed"); [intros [= <- <-]; repeat split|].
    destruct (String.eqb (status js) "failed"); [intros [= <- <-]; repeat split|].
    rewrite Nat.ltb_antisym.
    destruct (maxAttempts <=? k)%nat; intros [= <- <-]; repeat split.
  - rewrite Nat.ltb_antisym.
    destruct (maxAttempts <=? k)%nat; intros [= <- <-]; repeat split.
Qed.

Lemma poll_requests (attempts : nat) (now : Z) :
  forall n,
    (attempts < n <= maxAttempts)%nat ->
    (forall k, (attempts < k < n)%nat -> in_progress (settled (server k)) = true) ->
    (n = maxAttempts \/ in_progress (settled (server n)) = false) ->
    List.filter is_request (effects (poll' attempts now)) =
      map request' (seq (S attempts) (n - attempts)) /\
    List.filter is_timer_call (effects (poll' attempts now)) =
      repeat (SetTimeout 2000) (n - attempts - 1).
Proof.
  apply (poll_induction server documentId jobId (fun attempts now tr =>
    forall n,
      (attempts < n <= maxAttempts)%nat ->
      (forall k, (attempts < k < n)%nat -> in_progress (settled (server k)) = true) ->
      (n = maxAttempts \/ in_progress (settled (server n)) = false) ->
      List.filter is_request (effects tr) =
        map request' (seq (S attempts) (n - attempts)) /\
      List.filter is_timer_call (effects tr) =
        repeat (SetTimeout 2000) (n - attempts - 1))); clear attempts now.
  - intros attempts now effs E n Hn Hbefore Hlast.
    destruct (after_reply_spec _ _ _ _ E) as (Hreq & Htimer & Hc).
    assert (n = S attempts) as ->.
    { destruct (Nat.eq_dec n (S attempts)) as [|Hne]; [assumption|].
      rewrite (Hbefore (S attempts)) in Hc by lia.
      symmetry in Hc. apply andb_false_iff in Hc. destruct Hc as [Hc|Hc];
        [discriminate|]. apply Nat.ltb_ge in Hc. lia. }
    rewrite <- (app_nil_r (stamp _ effs)), effects_step.
    replace (S attempts - attempts)%nat with 1%nat by lia.
    cbn. rewrite !List.filter_app, Hreq, Htimer. split; reflexivity.
  - intros attempts now effs E t IH n Hn Hbefore Hlast.
    destruct (after_reply_spec _ _ _ _ E) as (Hreq & Htimer & Hc).
    symmetry in Hc. apply andb_true_iff in Hc. destruct Hc as [Hprog Hlt].
    apply Nat.ltb_lt in Hlt.
    assert (S attempts < n)%nat as Hmore.
    { destruct (Nat.eq_dec n (S attempts)) as [->|Hne]; [|lia].
      destruct Hlast as [Hlast|Hlast]; [lia|congruence]. }
    destruct (IH n) as [IHreq IHtimer]; [lia|intros k Hk; apply Hbefore; lia|exact Hlast|].
    rewrite effects_step. cbn. rewrite !List.filter_app, Hreq, Htimer, IHreq, IHtimer.
    replace (n - attempts)%nat with (S (n - S attempts)) by lia.
    replace (S (n - S attempts) - 1)%nat with (S (n - S attempts - 1)) by lia.
    split; reflexivity.
Qed.

(** X20. A polling run makes its requests one after another, numbered from
    1, and stops at the first attempt whose reply carries a terminal status,
    or at attempt 150 if there is none: it makes exactly [n] requests and re-arms
    the 2000 ms timeout [n - 1] times, where [n] is that attempt. *)
Theorem pollAsyncJobStatus_requests (n : nat) (now : Z) :
  stops_at server n ->
  let tr := effects (pollAsyncJobStatus server documentId jobId now) in
  List.filter is_request tr = map request' (seq 1 n) /\
  List.filter is_timer_call tr = repeat (SetTimeout 2000) (n - 1).
Proof.
  intros (Hn & Hbefore & Hlast). cbv zeta. unfold pollAsyncJobStatus.
  destruct (poll_requests 0 now n) as [Hreq Htimer];
    [lia|intros k Hk; apply Hbefore; lia|exact Hlast|].
  rewrite Hreq, Htimer, !Nat.sub_0_r. split; reflexivity.
Qed.

End JobPollerMore.

Lemma pollAsyncJobStatus_requests_witness :
  List.filter is_request
    (JobPoller.effects
       (JobPoller.pollAsyncJobStatus JobPoller.failing_server "doc_1" "job_1" 0))
    = [GetAsyncProcessingStatus 1 "doc_1" "job_1"].
Proof.
  apply (pollAsyncJobStatus_requests JobPoller.failing_server "doc_1" "job_1" 1 0).
  repeat apply conj.
  - lia.
  - unfold JobPoller.maxAttempts. lia.
  - intros k Hk. lia.
  - right. reflexivity.
Defined.

(** ** The request hook *)

Section UseApiFacts.

Import UseApi.

Context {T : Type}.

#[local] Abbreviation handle' := (UseApi.handle T).
#[local] Abbreviation run' := (UseApi.run T).

Lemma abort_current_bound (s : State T) (c : positive) :
  well_formed T s -> c ∈ abort_current T s -> (c < fresh s)%positive.
Proof.
  intros [Ha Hc]. unfold abort_current.
  destruct (abortControllerRef s) as [c0|] eqn:E; [|apply Ha].
  intros Hin. apply elem_of_union in Hin. destruct Hin as [Hin|Hin]; [|now apply Ha].
  apply elem_of_singleton in Hin. subst c. now apply Hc.
Qed.

Lemma well_formed_frame (s s' : State T) :
  well_formed T s ->
  aborted s' = aborted s -> abortControllerRef s' = abortControllerRef s ->
  fresh s' = fresh s ->
  well_formed T s'.
Proof. intros [Ha Hc] E1 E2 E3. split; rewrite ?E1, ?E2, E3; assumption. Qed.

Lemma handle_well_formed (ev : Event T) (s : State T) :
  well_formed T s -> well_formed T (fst (handle' ev s)).
Proof.
  intros Hwf. pose proof Hwf as [Ha Hc].
  destruct ev as [|c r|c err| |]; cbn.
  - split; cbn.
    + intros c Hin. apply abort_current_bound in Hin; [lia|exact Hwf].
    + intros c [= <-]. lia.
  - destruct (bool_decide (c ∈ pending s)); [|exact Hwf].
    unfold resolved, caught, current_aborted. cbn.
    destruct (abortControllerRef s) as [c0|] eqn:E; cbn;
      [destruct (bool_decide (c0 ∈ aborted s))|];
      apply (well_formed_frame s); cbn; auto.
  - destruct (bool_decide (c ∈ pending s)); [|exact Hwf].
    unfold caught, current_aborted. cbn.
    destruct (abortControllerRef s) as [c0|] eqn:E; cbn;
      [destruct (bool_decide (c0 ∈ aborted s))|];
      apply (well_formed_frame s); cbn; auto.
  - split; cbn; [|exact Hc]. intros c Hin. now apply abort_current_bound.
  - split; cbn; [|exact Hc]. intros c Hin. now apply abort_current_bound.
Qed.

Lemma run_well_formed (evs : list (Event T)) (s : State T) :
  well_formed T s -> well_formed T (fst (run' s evs)).
Proof.
  revert s. induction evs as [|ev evs IH]; intros s Hwf; [exact Hwf|].
  cbn. pose proof (handle_well_formed ev s Hwf) as H1.
  destruct (handle' ev s) as [s1 n1]. specialize (IH s1 H1).
  destruct (run' s1 evs) as [s2 n2]. exact IH.
Qed.

Lemma initial_well_formed : well_formed T (initial T).
Proof. split; cbn; [intros c Hc; now apply elem_of_empty in Hc|discriminate]. Qed.

(** X21. A reply to a superseded call is still delivered.  After any
    history, when [execute] is called twice, the first call's controller is
    aborted by the second; yet when the first call resolves, its result
    becomes the data, [onSuccess] is called with it and [loading] turns
    false while the second call is still pending: the hook tests the
    controller that is in the ref at that moment, not the call's own. *)
Theorem useApi_superseded_reply_delivered (history : list (Event T)) (result : T) :
  let s0 := fst (run' (initial T) history) in
  let first := fresh s0 in
  let s := fst (run' s0 [Execute; Execute]) in
  first ∈ aborted s /\
  snd (handle' (Resolve first result) s) = [OnSuccess result] /\
  data (fst (handle' (Resolve first result) s)) = Some result /\
  loading (fst (handle' (Resolve first result) s)) = false /\
  Pos.succ first ∈ pending (fst (handle' (Resolve first result) s)).
Proof.
  cbv zeta.
  pose proof (run_well_formed history _ initial_well_formed) as Hwf.
  set (s0 := fst (run' (initial T) history)) in *.
  cbn [UseApi.run UseApi.handle fst snd execute abort_current
       abortControllerRef aborted pending fresh app].
  assert (bool_decide
            (fresh s0 ∈ ({[Pos.succ (fresh s0)]} ∪ ({[fresh s0]} ∪ pending s0)
                          : gset positive)) = true) as ->.
  { apply bool_decide_eq_true_2. set_solver. }
  unfold resolved, settle.
  cbn [abortControllerRef aborted pending fresh data loading api_error].
  assert (bool_decide (Pos.succ (fresh s0) ∈ {[fresh s0]} ∪ abort_current T s0) = false)
    as ->.
  { apply bool_decide_eq_false_2. intros Hin.
    apply elem_of_union in Hin. destruct Hin as [Hin|Hin].
    - apply elem_of_singleton in Hin. lia.
    - apply abort_current_bound in Hin; [lia|exact Hwf]. }
  cbn. repeat apply conj; try reflexivity; [set_solver|].
  apply elem_of_difference. split; [set_solver|].
  intros Hin. apply elem_of_singleton in Hin. lia.
Qed.

End UseApiFacts.

(** ** The status hook of the uploader *)

(** X22. Whatever [getDocumentStatus] resolves with, the status hook of the
    uploader reports 0 percent and no message, and never the status
    complete: it reads the properties [progress] and [error], which the
    result does not have, and compares the status with 'processed', which
    the result never carries. *)
Theorem status_hook_never_complete (statusData : DocumentService.DocumentStatus) :
  StatusHook.onSuccess statusData =
    {| StatusHook.r_percentage := StatusHook.PValue (Js.Number 0);
       StatusHook.r_status :=
         match DocumentService.ds_status statusData with
         | error => Failed
         | _ => Processing
         end;
       StatusHook.r_message := StatusHook.PUndefined |}.
Proof.
  unfold StatusHook.onSuccess, StatusHook.read. cbn.
  destruct (DocumentService.ds_status statusData); reflexivity.
Qed.

(** ** Interval timers of the uploader *)

Section TimerFacts.

Import Uploader.

Variable id : positive.
Variable cb : TimerCallback.
Variable ms : Z.

#[local] Abbreviation spares' := (spares id cb ms).
#[local] Abbreviation unreferenced := (timer_unreferenced id cb ms).

Lemma spares_skip : spares' skip.
Proof. intros w H. split; [exact H|constructor]. Qed.

Lemma spares_emit (e : Effect) : e <> ClearInterval id -> spares' (emit e).
Proof. intros He w H. split; [exact H|]. constructor; [exact He|constructor]. Qed.

Lemma spares_update (f : World -> World) :
  (forall w, timers (f w) = timers w /\ pollIntervalRef (f w) = pollIntervalRef w /\
             fresh (f w) = fresh w) ->
  spares' (update f).
Proof.
  intros Hf w (Hin & Href & Hlt). destruct (Hf w) as (Ht & Hp & Hfr).
  split; [|constructor]. unfold update, timer_unreferenced. cbn [fst].
  rewrite Ht, Hp, Hfr. repeat split; assumption.
Qed.

Lemma spares_read {A} (f : World -> A) (k : A -> Handler) :
  (forall a, spares' (k a)) -> spares' (read f k).
Proof. intros H w. apply H. Qed.

Lemma spares_block (hs : list Handler) : Forall spares' hs -> spares' (block hs).
Proof.
  induction 1 as [|h hs Hh _ IH]; intros w Hw; [split; [exact Hw|constructor]|].
  rewrite block_cons. cbn [fst snd].
  destruct (Hh w Hw) as [H1 H2]. destruct (IH _ H1) as [H3 H4].
  split; [exact H3|]. apply Forall_app. split; assumption.
Qed.

Lemma spares_alloc (k : positive -> Handler) :
  (forall i, (id < i)%positive -> spares' (k i)) -> spares' (alloc k).
Proof.
  intros H w (Hin & Href & Hlt). unfold alloc. apply (H (fresh w) Hlt).
  destruct w; cbn in *. repeat split; try assumption. cbn. lia.
Qed.

Lemma spares_setInterval (cb' : TimerCallback) (ms' : Z) (k : positive -> Handler) :
  (forall i, (id < i)%positive -> spares' (k i)) -> spares' (setInterval cb' ms' k).
Proof.
  intros H. unfold setInterval. apply spares_alloc. intros i Hi.
  apply spares_block. constructor; [|constructor; [|constructor; [|constructor]]].
  - intros w ((d & Hin) & Href & Hlt). split; [|constructor].
    destruct w; cbn in *. repeat split; try assumption.
    exists d. cbn. apply in_or_app. now left.
  - apply spares_emit. discriminate.
  - now apply H.
Qed.

Lemma spares_set_ref (i : positive) :
  (id < i)%positive -> spares' (update (set_pollIntervalRef (Some i))).
Proof.
  intros Hi w (Hin & Href & Hlt). split; [|constructor].
  destruct w; cbn in *. repeat split; try assumption. intros [= E]. lia.
Qed.

Lemma spares_clear :
  spares' (read pollIntervalRef (fun r =>
             match r with
             | Some t => block [ clearInterval t; update (set_pollIntervalRef None) ]
             | None => skip
             end)).
Proof.
  intros w (Hin & Href & Hlt). unfold read.
  destruct (pollIntervalRef w) as [t|] eqn:E;
    [|split; [repeat apply conj; [exact Hin|cbn; rewrite E; discriminate|exact Hlt]
             |constructor]].
  assert (t <> id) as Hne by congruence.
  unfold clearInterval. rewrite !block_cons.
  destruct w as [d j r p so ti st po fr nw]. cbn in *. split.
  - repeat split; [|discriminate|exact Hlt].
    destruct Hin as (d0 & Hin). exists d0.
    apply filter_In. split; [exact Hin|].
    apply negb_true_iff, Pos.eqb_neq. cbn. congruence.
  - constructor; [congruence|constructor].
Qed.

Ltac frame := intros []; repeat split; reflexivity.

Ltac spares_step :=
  match goal with
  | |- Forall _ (_ :: _) => constructor
  | |- Forall _ [] => constructor
  | |- spares _ _ _ skip => apply spares_skip
  | |- spares _ _ _ (update (set_pollIntervalRef (Some _))) => apply spares_set_ref; assumption
  | |- spares _ _ _ (update _) => apply spares_update; frame
  | |- spares _ _ _ (emit _) => apply spares_emit; discriminate
  | |- spares _ _ _ (read pollIntervalRef _) => apply spares_clear
  | |- spares _ _ _ (read _ _) => apply spares_read; intros ?
  | |- spares _ _ _ (alloc _) => apply spares_alloc; intros ? ?
  | |- spares _ _ _ (setInterval _ _ _) => apply spares_setInterval; intros ? ?
  | |- spares _ _ _ (block _) => apply spares_block
  | |- spares _ _ _ (match ?x with _ => _ end) => destruct x
  | |- spares _ _ _ (?h _ _ _) => unfold h
  | |- spares _ _ _ (?h _ _) => unfold h
  | |- spares _ _ _ (?h _) => unfold h
  | |- spares _ _ _ ?h => unfold h
  end.

Ltac solve_spares := repeat spares_step.

Lemma spares_fire (x : positive * Timer) : spares' (fire x).
Proof. solve_spares. Qed.

Lemma spares_tick : spares' tick.
Proof.
  intros w (Hin & Href & Hlt). unfold tick. apply spares_block.
  - apply Forall_forall. intros h Hh. apply list_elem_of_In, in_map_iff in Hh.
    destruct Hh as (x & <- & _). apply spares_fire.
  - destruct w as [d j r p so ti st po fr nw].
    unfold timer_unreferenced.
    cbn [timers fresh pollIntervalRef set_timers set_now now] in *.
    repeat split; try assumption.
    destruct Hin as (d0 & Hin).
    exists (due (snd (rearm (nw + 1) (id, {| callback := cb; period := ms; due := d0 |})))).
    apply in_map_iff. eexists. split; [|exact Hin].
    unfold rearm. cbn. destruct (d0 =? nw + 1); reflexivity.
Qed.

Lemma spares_handle (ev : Event) : spares' (handle ev).
Proof. destruct ev; try apply spares_tick; solve_spares. Qed.

Lemma spares_render (before : World) : spares' (render before).
Proof.
  intros w Hw. unfold render. destruct (bool_decide _); [now apply spares_skip|].
  revert w Hw. change (spares' processingEffect). solve_spares.
Qed.

Lemma spares_step_event (w : World) (ev : Event) :
  unreferenced w ->
  unreferenced (fst (step w ev)) /\
  Forall (fun e => e <> ClearInterval id) (snd (step w ev)).
Proof.
  intros Hw. unfold step.
  apply (spares_block [handle ev; render w]); [|exact Hw].
  constructor; [apply spares_handle|]. constructor; [apply spares_render|constructor].
Qed.

(** X23. Of the interval timers the component sets, those of the job
    tracking are cleared only through [pollIntervalRef]: a ping interval
    (its id is not kept) and the interval of a fallback poller whose id was
    overwritten in the ref are never cleared, whatever happens afterwards,
    unmounting included; such a timer stays pending with its callback and
    its period, and no [clearInterval] is called for it.  The intervals of
    the two hooks are cleared by the hooks: the one of the status hook by
    every render and by the unmount, the progress interval of an upload
    when the upload settles. *)
Theorem unreferenced_timer_never_cleared (w : World) (evs : list Event) :
  timer_unreferenced id cb ms w ->
  timer_unreferenced id cb ms (fst (run w evs)) /\
  Forall (fun e => e <> ClearInterval id) (snd (run w evs)) /\
  (forall s t doc,
      StatusPolling.intervalRef s = Some t ->
      (exists calls,
          snd (StatusPolling.step s (StatusPolling.Rendered doc)) =
            StatusPolling.Browser (ClearInterval t) :: calls) /\
      snd (StatusPolling.step s StatusPolling.Unmounted) =
        [StatusPolling.Browser (ClearInterval t)]) /\
  (forall s c t before ev,
      DocumentUpload.uploading_with c t s ->
      forallb (fun ev => negb (DocumentUpload.settles c ev)) before = true ->
      DocumentUpload.settles c ev = true ->
      Forall (fun call => call <> DocumentUpload.Browser (ClearInterval t))
             (snd (DocumentUpload.run s before)) /\
      exists calls,
        snd (DocumentUpload.step (fst (DocumentUpload.run s before)) ev) =
          DocumentUpload.Browser (ClearInterval t) :: calls).
Proof.
  intros Hw.
  assert (unreferenced (fst (run w evs)) /\
          Forall (fun e => e <> ClearInterval id) (snd (run w evs))) as [H1 H2].
  { revert w Hw. induction evs as [|ev evs' IH]; intros w Hw;
      [split; [exact Hw|constructor]|].
    rewrite run_cons. cbn [fst snd].
    destruct (spares_step_event w ev Hw) as [H1 H2].
    destruct (IH _ H1) as [H3 H4].
    split; [exact H3|]. apply Forall_app. split; assumption. }
  split; [exact H1|]. split; [exact H2|]. split.
  - intros s t doc Ht. apply rendered_clears, Ht.
  - intros s c t before ev Hup Hbefore Hev.
    destruct (progress_interval_cleared c t s before ev Hup Hbefore Hev)
      as (Hno & _ & Hclear & _).
    split; assumption.
Qed.

End TimerFacts.

Lemma unreferenced_timer_never_cleared_witness :
  let w := fst (Uploader.run Uploader.initial Uploader.streaming) in
  let evs := [ Uploader.WsMessage 2 (Uploader.Json "job_status" None "completed");
               Uploader.WsClosed 2 1000; Uploader.Unmount ] in
  timer_unreferenced 3 (Uploader.SendPing 2) 30000 (fst (Uploader.run w evs)).
Proof.
  intros w evs.
  apply (unreferenced_timer_never_cleared 3%positive (Uploader.SendPing 2) 30000 w evs).
  vm_compute. repeat split; [eexists; left; reflexivity|discriminate].
Defined.

(** ** Teardown, deletion and processing jobs *)

(** X24. [cleanup] closes the socket in [wsRef] and clears the timer in
    [pollIntervalRef], once each and nothing else, and is idempotent: run
    again at once (as on unmount after a terminal report) it does nothing. *)
Theorem cleanup_idempotent (w : Uploader.World) :
  snd (Uploader.cleanup w) =
    match Uploader.wsRef w with Some h => [WsClose h] | None => [] end
    ++ match Uploader.pollIntervalRef w with Some t => [ClearInterval t] | None => [] end /\
  Uploader.cleanup (fst (Uploader.cleanup w)) = (fst (Uploader.cleanup w), []).
Proof. destruct w as [d j [h|] [t|] so ti st po fr nw]; split; reflexivity. Qed.

Section DeleteFacts.

Import DeleteMutation.

Context {Entry : Type}.

Lemma removed_queries (deletedId : string) (cache : Cache Entry) (key : list string) :
  queries (fst (fst (onMutate Entry deletedId cache))) !! key =
    if starts_with (JobPoller.document_key deletedId) key then None
    else queries cache !! key.
Proof.
  cbn [onMutate fst queries].
  destruct (starts_with (JobPoller.document_key deletedId) key) eqn:E.
  - apply map_lookup_filter_None. right. intros x _. cbn [fst]. congruence.
  - destruct (queries cache !! key) as [x|] eqn:L.
    + apply map_lookup_filter_Some. split; [exact L|exact E].
    + apply map_lookup_filter_None. now left.
Qed.

(** X25. When deleting a document fails, the rollback restores the document
    list exactly as it was before the optimistic update, but not the
    queries of the deleted document that [onMutate] removed from the cache
    (its detail, status and content): they stay removed; every other query is
    untouched.  The calls are: cancel the list query, remove the document's
    queries, one error toast, invalidate the list. *)
Theorem delete_rollback (deletedId : string)
    (thrown : option (option string * option string)) (cache : Cache Entry) :
  let after := fst (failed Entry deletedId thrown cache) in
  documents after = documents cache /\
  (forall key,
     queries after !! key =
       if starts_with ["documents"; deletedId] key then None else queries cache !! key) /\
  snd (failed Entry deletedId thrown cache) =
    [ CancelQueries ["documents"]; RemoveQueries ["documents"; deletedId];
      Toast_error (ApiError.getErrorDisplayMessage thrown); Invalidate ["documents"] ].
Proof.
  cbv zeta. unfold failed.
  pose proof (removed_queries deletedId cache) as Hq.
  destruct (onMutate Entry deletedId cache) as [[optimistic context] calls] eqn:E.
  unfold onMutate in E. inversion E; subst; clear E.
  cbn [fst] in Hq. unfold onError.
  destruct (documents cache) as [docs|] eqn:Hd; cbn; rewrite ?Hd;
    repeat apply conj; try reflexivity; exact Hq.
Qed.

(** X26. When deleting succeeds, the document list that stays in the cache
    until the refetch holds no document with the deleted id and every other
    document, in its order. *)
Theorem delete_optimistic (deletedId : string) (cache : Cache Entry)
    (docs : list TypeAdapters.UIDocument) :
  documents cache = Some docs ->
  exists docs',
    documents (fst (succeeded Entry deletedId cache)) = Some docs' /\
    Forall (fun doc => TypeAdapters.ui_id doc <> deletedId) docs' /\
    (forall doc, In doc docs' <-> In doc docs /\ TypeAdapters.ui_id doc <> deletedId) /\
    snd (succeeded Entry deletedId cache) =
      [ CancelQueries ["documents"]; RemoveQueries ["documents"; deletedId];
        Toast_success "Document deleted successfully"; Invalidate ["documents"] ].
Proof.
  intros Hd. unfold succeeded, onMutate. rewrite Hd. cbn [fst snd documents].
  eexists. split; [reflexivity|].
  assert (forall doc : TypeAdapters.UIDocument,
             negb (String.eqb (TypeAdapters.ui_id doc) deletedId) = true <->
             TypeAdapters.ui_id doc <> deletedId) as Hneq.
  { intros doc. rewrite negb_true_iff. apply String.eqb_neq. }
  repeat apply conj.
  - apply Forall_forall. intros doc Hin. apply list_elem_of_In, filter_In in Hin.
    now apply Hneq.
  - intros doc. rewrite filter_In, Hneq. reflexivity.
  - reflexivity.
Qed.

End DeleteFacts.

Lemma delete_optimistic_witness :
  let doc := fun i : string =>
    {| TypeAdapters.ui_id := i; TypeAdapters.ui_name := "notes.pdf";
       TypeAdapters.ui_size := 1; TypeAdapters.ui_uploadedAt := None;
       TypeAdapters.ui_status := ready; TypeAdapters.ui_totalPages := None;
       TypeAdapters.ui_url := "" |} in
  let cache := {| DeleteMutation.documents := Some [doc "a"; doc "b"];
                  DeleteMutation.queries := (∅ : gmap (list string) unit) |} in
  DeleteMutation.documents (fst (DeleteMutation.succeeded unit "a" cache)) = Some [doc "b"].
Proof.
  intros doc cache.
  destruct (delete_optimistic "a" cache [doc "a"; doc "b"] eq_refl) as (docs' & H & _).
  rewrite H in *. cbn in H. symmetry. exact H.
Defined.

Section JobFacts.

Import ProcessingJobs.

Variable Job : Type.
Variable apiClient_get_status : string -> Js.M Job.
Variable apiClient_get_current : string -> Js.M (CurrentJob Job).
Variable apiClient_delete : string -> Js.M CancelResponse.

(** X27. Of the three job requests, two never reject and one always passes
    the failure on: [cancelProcessingJob] resolves with [success] true
    exactly when the DELETE resolved (otherwise with the message of the
    error, or 'Unknown error'), [getCurrentProcessingJob] resolves with a job
    exactly when the GET resolved with an object that has a [job_id] (with
    null otherwise, also on failure), and [getAsyncProcessingStatus]
    settles exactly as its GET does. *)
Theorem job_requests_failure_handling (documentId jobId : string) :
  snd (cancelProcessingJob apiClient_delete jobId) =
    match snd (apiClient_delete (String.append "/processing-jobs/" jobId)) with
    | Js.Returned response =>
        Js.Returned {| success := true; message := cr_message response |}
    | Js.Threw thrown =>
        Js.Returned {| success := false;
                       message := DocumentService.errorMessage_of thrown |}
    end /\
  snd (getCurrentProcessingJob Job apiClient_get_current documentId) =
    match snd (apiClient_get_current
                 (String.append "/documents/"
                    (String.append documentId "/processing-status"))) with
    | Js.Returned (ActiveJob job) => Js.Returned (Some job)
    | _ => Js.Returned None
    end /\
  snd (getAsyncProcessingStatus Job apiClient_get_status documentId jobId) =
    snd (apiClient_get_status
           (String.append "/documents/"
              (String.append documentId (String.append "/processing-status/" jobId)))).
Proof.
  unfold cancelProcessingJob, getCurrentProcessingJob, getAsyncProcessingStatus.
  repeat apply conj.
  - destruct (apiClient_delete _) as [l [r|e]]; reflexivity.
  - destruct (apiClient_get_current _) as [l [[job|st msg]|e]]; reflexivity.
  - destruct (apiClient_get_status _) as [l [r|e]]; reflexivity.
Qed.

End JobFacts.

(** ** A document request that the server refuses *)

Section RefusedDocument.

Import ApiError ApiClient.

Context {Json : Type}.
Variable as_ApiError : Json -> ApiError.
Variable logging : bool.
Variable server : string -> nat -> FetchResult Json.
Variable timeout : Z.
Variable decode : Payload Json -> DocumentService.BackendDocumentResponse.
Variable DOCUMENT_BY_ID : string -> string.

#[local] Abbreviation getDocumentStatus' :=
  (DocumentService.getDocumentStatus
     (ApiClient.get as_ApiError logging server timeout decode) DOCUMENT_BY_ID).

(** X28. A document request that the server refuses with an HTTP error
    status (a 404, say) on every attempt: the client calls [fetch] four
    times, [getDocumentStatus] then resolves with status error, 0 percent and
    the message of the error body (or 'Unknown Error' when the body has no
    message), and the status query stops polling. *)
Theorem refused_document_reported_as_error (documentId : string)
    (response : Response Json) (body : Json) :
  (forall attempt, server (DOCUMENT_BY_ID documentId) attempt = FetchResolved response) ->
  ok Json response = false ->
  r_body response = Parsed body ->
  let text := Js.str_or (ae_message (as_ApiError body))
                        (default "" (ae_error (as_ApiError body))) in
  fetches (fst (makeRequest Json as_ApiError logging (server (DOCUMENT_BY_ID documentId))
                  timeout 3 false)) = 4%nat /\
  (exists ds,
     returned (getDocumentStatus' documentId) = Some ds /\
     DocumentService.ds_status ds = error /\
     DocumentService.ds_progress_percentage ds = Js.Number 0 /\
     DocumentService.ds_error_message ds =
       Some (if String.eqb text "" then "Unknown Error" else text)) /\
  nextPoll documentId (getDocumentStatus' documentId) = None.
Proof.
  intros Hserver Hok Hbody. cbv zeta.
  set (fetch := server (DOCUMENT_BY_ID documentId)) in *.
  assert (browser_errors Json fetch) as Hb.
  { intros k. rewrite Hserver, Hbody. exact I. }
  assert (forall k, snd (ApiClient.try_body Json as_ApiError logging fetch false k) =
                    inr (thrown_exception
                           (new_ApiException (as_ApiError body)
                              (Some (r_status response))))) as Htry.
  { intros k. unfold ApiClient.try_body. rewrite Hserver, Hok, Hbody. reflexivity. }
  pose proof (makeRequest_spec as_ApiError logging fetch timeout 3 false Hb ltac:(lia))
    as H.
  unfold nextPoll, DocumentService.getDocumentStatus, ApiClient.get, settled.
  fold fetch.
  destruct (snd (makeRequest Json as_ApiError logging fetch timeout 3 false))
    as [p|[e|]]; [| |contradiction].
  - exfalso. destruct H as (k & _ & Hk & _). rewrite Htry in Hk. discriminate.
  - destruct H as (_ & (o & Ho & _ & ->) & Hn & _).
    rewrite Htry in Ho. inversion Ho; subst o. clear Ho.
    split; [exact Hn|]. cbn.
    split; [eexists; repeat split|reflexivity].
Qed.

End RefusedDocument.

Lemma refused_document_reported_as_error_witness :
  let server := fun (_ : string) => ApiClient.always ApiClient.not_found in
  let decode := fun (_ : ApiClient.Payload unit) => backend_document "processed" in
  nextPoll "doc_1"
    (DocumentService.getDocumentStatus
       (ApiClient.get ApiClient.no_fields false server 30000 decode)
       (fun i => String.append "/documents/" i) "doc_1") = None.
Proof.
  intros server decode.
  apply (refused_document_reported_as_error ApiClient.no_fields false server 30000 decode
           (fun i => String.append "/documents/" i) "doc_1" ApiClient.not_found tt).
  - intros attempt. reflexivity.
  - reflexivity.
  - reflexivity.
Defined.
